(** * basic-code-exec: the session file jail, the command runner and the
      case evaluator of [src/main.py], embedded in Rocq.

    Text is modelled as [string], one [ascii] per code point (so the
    model speaks of text whose code points are below 256; the character
    classes are Python's on that range).  Python exceptions are values of
    [exc]; a call that may raise returns [res].
    The operating system (directory tree, symbolic links) and the Python
    interpreter that runs submitted code are not part of the repository:
    the first is modelled by a small POSIX-style file tree, the second is
    a parameter ([PyRuntime]). *)

From Stdlib Require Import ZArith Ascii String List Lia Bool DecimalString.
From stdpp Require Import base gmap strings list fin_maps.

Local Open Scope string_scope.
Local Open Scope list_scope.

(** ** Python values of the embedding *)

(** Raised exceptions, by class.  [OtherError] stands for the other
    classes that derive from [Exception]; [ExitSignal] for the instances of
    [BaseException] that do not: [SystemExit] (what [sys.exit()] raises),
    [KeyboardInterrupt], [GeneratorExit].  [TimeoutError] is the builtin
    class, which is also what [Future.result] raises when its wait runs
    out (Python 3.11 on). *)
Inductive exc : Type :=
| ValueError (msg : string)
| KeyError (key : string)
| TimeoutError
| HTTPException (status_code : Z) (detail : string)
| OtherError (type_name : string) (msg : string)
| ExitSignal (type_name : string) (msg : string).

(** [isinstance(e, Exception)] *)
Definition is_exception (e : exc) : bool :=
  match e with
  | ExitSignal _ _ => false
  | _ => true
  end.

Inductive res (A : Type) : Type :=
| Ok (a : A)
| Raise (e : exc).
Arguments Ok {A} a.
Arguments Raise {A} e.

Definition is_ok {A} (r : res A) : bool :=
  match r with Ok _ => true | Raise _ => false end.

(** ** str methods *)

(** [s.startswith(p)] *)
Fixpoint startswith (s p : string) {struct p} : bool :=
  match p, s with
  | EmptyString, _ => true
  | String a p', String b s' => if Ascii.eqb a b then startswith s' p' else false
  | String _ _, EmptyString => false
  end.

(** [sub in s] for text *)
Fixpoint contains (sub s : string) : bool :=
  startswith s sub ||
  match s with
  | EmptyString => false
  | String _ s' => contains sub s'
  end.

(** [s.replace(old, new)] for a non-empty [old]: occurrences are taken left
    to right and do not overlap.  [skip] counts the characters of the
    occurrence just replaced that are still to be passed over. *)
Fixpoint replace_go (old new : string) (skip : nat) (s : string) : string :=
  match s with
  | EmptyString => EmptyString
  | String c r =>
      match skip with
      | S k => replace_go old new k r
      | O =>
          if startswith s old
          then new +:+ replace_go old new (String.length old - 1) r
          else String c (replace_go old new 0 r)
      end
  end.

Definition str_replace (s old new : string) : string := replace_go old new 0 s.

(** [s.split(sep)] for a one-character separator: never the empty list. *)
Fixpoint split_go (sep : ascii) (cur : string) (s : string) : list string :=
  match s with
  | EmptyString => [String.rev cur]
  | String c r =>
      if Ascii.eqb c sep
      then String.rev cur :: split_go sep EmptyString r
      else split_go sep (String c cur) r
  end.

Definition split (s : string) (sep : ascii) : list string :=
  split_go sep EmptyString s.

(** [sep.join(parts)] *)
Fixpoint join (sep : string) (parts : list string) : string :=
  match parts with
  | [] => EmptyString
  | [p] => p
  | p :: rest => p +:+ sep +:+ join sep rest
  end.

(** ** posixpath, as CPython implements it *)

Module posixpath.

Definition sep : ascii := "/"%char.

(** Number of leading slashes [normpath] keeps: POSIX allows one or two,
    three or more count as one. *)
Definition initial_slashes (path : string) : nat :=
  if startswith path "/" then
    if startswith path "//" && negb (startswith path "///") then 2 else 1
  else 0.

(** One step of the component loop of [normpath]; [new_comps] is held as a
    stack, last component first. *)
Definition normpath_step (slashes : nat) (new_comps : list string)
    (comp : string) : list string :=
  if bool_decide (comp = "") || bool_decide (comp = ".") then new_comps
  else if negb (bool_decide (comp = ".."))
          || (bool_decide (slashes = 0) && bool_decide (new_comps = []))
          || bool_decide (head new_comps = Some "..")
  then comp :: new_comps
  else tail new_comps.

Fixpoint repeat_sep (n : nat) : string :=
  match n with
  | O => EmptyString
  | S k => String sep (repeat_sep k)
  end.

Definition normpath (path : string) : string :=
  if bool_decide (path = "") then "."
  else
    let slashes := initial_slashes path in
    let comps := split path sep in
    let new_comps := fold_left (normpath_step slashes) comps [] in
    let p := repeat_sep slashes +:+ join "/" (rev new_comps) in
    if bool_decide (p = "") then "." else p.

(** [os.path.join(a, b)] *)
Definition join2 (a b : string) : string :=
  if startswith b "/" then b
  else if bool_decide (a = "") || startswith (String.rev a) "/" then a +:+ b
  else a +:+ "/" +:+ b.

(** [os.path.abspath(p)] in a process whose working directory is [cwd]. *)
Definition abspath (cwd p : string) : string :=
  normpath (if startswith p "/" then p else join2 cwd p).

End posixpath.

(** ** Session directories and the relative-path guard *)

Definition TMP_ROOT : string := "/tmp/genie_repl".

Definition safe_dirname (session_id : string) : string :=
  let session_id := str_replace (str_replace session_id "/" "_") ".." "__" in
  posixpath.join2 TMP_ROOT session_id.

Definition safe_rel_path (rel_path : string) : res string :=
  let rel_path := posixpath.normpath rel_path in
  if startswith rel_path "../" || startswith rel_path "/"
  then Raise (ValueError "Invalid path")
  else if bool_decide (".." ∈ split rel_path posixpath.sep)
  then Raise (ValueError "Invalid path: Parent traversal not allowed")
  else Ok rel_path.

(** The second replacement of [safe_dirname]. *)
Definition dots (s : string) : string := str_replace s ".." "__".

(** [TMP_ROOT + "/" + name], character by character. *)
Definition root_child : string -> string :=
  Eval cbv in fun name => TMP_ROOT +:+ "/" +:+ name.

(** The components [normpath] keeps when none of them is "..". *)
Definition kept (comps : list string) : list string :=
  filter (fun c => c <> "" /\ c <> ".") comps.

(** [str(e)], the text the handlers put into their replies.  For
    [HTTPException] it is Starlette's "<status>: <detail>". *)
Definition string_of_Z (z : Z) : string :=
  NilZero.string_of_int (Z.to_int z).

Definition exc_str (e : exc) : string :=
  match e with
  | ValueError m => m
  | KeyError k => "'" +:+ k +:+ "'"
  | TimeoutError => ""
  | HTTPException s d => string_of_Z s +:+ ": " +:+ d
  | OtherError _ m => m
  | ExitSignal _ m => m
  end.

(** [type(e).__name__] *)
Definition exc_name (e : exc) : string :=
  match e with
  | ValueError _ => "ValueError"
  | KeyError _ => "KeyError"
  | TimeoutError => "TimeoutError"
  | HTTPException _ _ => "HTTPException"
  | OtherError t _ => t
  | ExitSignal t _ => t
  end.

(** ** State and exceptions: the monad of the effectful code *)

Definition SE (S A : Type) : Type := S -> res A * S.

Definition ret {S A} (a : A) : SE S A := fun s => (Ok a, s).

Definition raise {S A} (e : exc) : SE S A := fun s => (Raise e, s).

Definition bind {S A B} (m : SE S A) (k : A -> SE S B) : SE S B :=
  fun s =>
    match m s with
    | (Ok a, s') => k a s'
    | (Raise e, s') => (Raise e, s')
    end.

(** [try: m  except Exception as e: h e].  What is raised and is not an
    [Exception] passes the clause. *)
Definition try_except {S A} (m : SE S A) (h : exc -> SE S A) : SE S A :=
  fun s =>
    match m s with
    | (Ok a, s') => (Ok a, s')
    | (Raise e, s') => if is_exception e then h e s' else (Raise e, s')
    end.

Notation "'do' x <- m ; k" := (bind m (fun x => k))
  (at level 10, x name, m at level 100, k at level 200).
Notation "'do' '_' <- m ; k" := (bind m (fun _ => k))
  (at level 10, m at level 100, k at level 200).

(** ** The file tree the endpoints act on *)

Inductive node : Type :=
| File (content : string)
| Dir
| Symlink (target : string).

(** A tree maps the component list of an absolute path to its node; the
    root [[]] is a directory. *)
Record os_state : Type := mk_os {
  os_cwd : string;
  os_tree : gmap (list string) node
}.

Definition set_tree (os : os_state) (t : gmap (list string) node) : os_state :=
  {| os_cwd := os_cwd os; os_tree := t |}.

(** Path resolution as the kernel does it: "." and empty components are
    skipped, ".." goes to the parent, a symbolic link is replaced by its
    target.  [None] is ELOOP. *)
Fixpoint resolve (fuel : nat) (t : gmap (list string) node)
    (cur todo : list string) : option (list string) :=
  match fuel with
  | O => None
  | S f =>
      match todo with
      | [] => Some cur
      | c :: rest =>
          if bool_decide (c = "") || bool_decide (c = ".") then resolve f t cur rest
          else if bool_decide (c = "..") then resolve f t (removelast cur) rest
          else
            match t !! (cur ++ [c]) with
            | Some (Symlink target) =>
                resolve f t (if startswith target "/" then [] else cur)
                        (split target posixpath.sep ++ rest)
            | _ => resolve f t (cur ++ [c]) rest
            end
      end
  end.

Definition resolve_fuel : nat := 4096.

(** Every link on the way followed, the last component included. *)
Definition realpath (t : gmap (list string) node) (p : string) : option (list string) :=
  resolve resolve_fuel t [] (split p posixpath.sep).

(** All links but one in the last component followed (unlink, rename). *)
Definition lpath (t : gmap (list string) node) (p : string) : option (list string) :=
  let comps := filter (fun c => c <> "" /\ c <> ".") (split p posixpath.sep) in
  match last comps with
  | None => Some []
  | Some l =>
      match resolve resolve_fuel t [] (removelast comps) with
      | Some d => Some (d ++ [l])
      | None => None
      end
  end.

Definition node_at (t : gmap (list string) node) (q : list string) : option node :=
  if bool_decide (q = []) then Some Dir else t !! q.

Definition os_isdir (os : os_state) (p : string) : bool :=
  match realpath (os_tree os) p with
  | Some q => match node_at (os_tree os) q with Some Dir => true | _ => false end
  | None => false
  end.

Definition os_isfile (os : os_state) (p : string) : bool :=
  match realpath (os_tree os) p with
  | Some q => match node_at (os_tree os) q with Some (File _) => true | _ => false end
  | None => false
  end.

(** [os.makedirs(p, exist_ok=True)]: every missing ancestor is created; a
    non-directory on the way is an error. *)
Fixpoint mkdirs (t : gmap (list string) node) (made todo : list string)
    : res (gmap (list string) node) :=
  match todo with
  | [] => Ok t
  | c :: rest =>
      let d := made ++ [c] in
      match t !! d with
      | None => mkdirs (<[d := Dir]> t) d rest
      | Some Dir => mkdirs t d rest
      | Some _ => Raise (OtherError "FileExistsError" "File exists")
      end
  end.

Definition os_makedirs : string -> SE os_state unit := fun p os =>
  match realpath (os_tree os) p with
  | None => (Raise (OtherError "OSError" "Too many levels of symbolic links"), os)
  | Some q =>
      match mkdirs (os_tree os) [] q with
      | Ok t => (Ok tt, set_tree os t)
      | Raise e => (Raise e, os)
      end
  end.

(** [with open(p, "w") as f: f.write(content)], for a path and a content
    that [open] and the encoder take: a path that holds a NUL and a
    content that has no UTF-8 encoding make them raise [ValueError], and
    are not in the model. *)
Definition os_write_text (p content : string) : SE os_state unit := fun os =>
  match realpath (os_tree os) p with
  | None => (Raise (OtherError "OSError" "Too many levels of symbolic links"), os)
  | Some q =>
      match node_at (os_tree os) q, node_at (os_tree os) (removelast q) with
      | Some Dir, _ => (Raise (OtherError "IsADirectoryError" "Is a directory"), os)
      | _, Some Dir => (Ok tt, set_tree os (<[q := File content]> (os_tree os)))
      | _, Some _ => (Raise (OtherError "NotADirectoryError" "Not a directory"), os)
      | _, None => (Raise (OtherError "FileNotFoundError" "No such file or directory"), os)
      end
  end.

(** [with open(p, "r") as f: f.read()].  The files of the tree hold text:
    a file whose bytes are no UTF-8, on which [read] raises
    [UnicodeDecodeError], is not in the model. *)
Definition os_read_text (p : string) : SE os_state string := fun os =>
  match realpath (os_tree os) p with
  | Some q =>
      match node_at (os_tree os) q with
      | Some (File c) => (Ok c, os)
      | Some _ => (Raise (OtherError "IsADirectoryError" "Is a directory"), os)
      | None => (Raise (OtherError "FileNotFoundError" "No such file or directory"), os)
      end
  | None => (Raise (OtherError "OSError" "Too many levels of symbolic links"), os)
  end.

(** [os.remove(p)] *)
Definition os_remove (p : string) : SE os_state unit := fun os =>
  match lpath (os_tree os) p with
  | None => (Raise (OtherError "OSError" "Too many levels of symbolic links"), os)
  | Some q =>
      match node_at (os_tree os) q with
      | None => (Raise (OtherError "FileNotFoundError" "No such file or directory"), os)
      | Some Dir => (Raise (OtherError "IsADirectoryError" "Is a directory"), os)
      | Some _ => (Ok tt, set_tree os (delete q (os_tree os)))
      end
  end.

(** [os.rename(old, new)] of a node that is not a directory. *)
Definition os_rename (old new : string) : SE os_state unit := fun os =>
  match lpath (os_tree os) old, lpath (os_tree os) new with
  | Some qo, Some qn =>
      match node_at (os_tree os) qo, node_at (os_tree os) qn,
            node_at (os_tree os) (removelast qn) with
      | None, _, _ => (Raise (OtherError "FileNotFoundError" "No such file or directory"), os)
      | Some Dir, _, _ => (Raise (OtherError "OSError" "directory rename is not modelled"), os)
      | Some _, Some Dir, _ => (Raise (OtherError "IsADirectoryError" "Is a directory"), os)
      | Some n, _, Some Dir =>
          (Ok tt, set_tree os (<[qn := n]> (delete qo (os_tree os))))
      | Some _, _, _ => (Raise (OtherError "FileNotFoundError" "No such file or directory"), os)
      end
  | _, _ => (Raise (OtherError "OSError" "Too many levels of symbolic links"), os)
  end.

(** [os.path.dirname(p)] *)
Fixpoint rstrip_sep_rev (r : string) : string :=
  match r with
  | String c r' => if Ascii.eqb c posixpath.sep then rstrip_sep_rev r' else r
  | EmptyString => EmptyString
  end.

Fixpoint drop_to_sep_rev (r : string) : string :=
  match r with
  | String c r' => if Ascii.eqb c posixpath.sep then r else drop_to_sep_rev r'
  | EmptyString => EmptyString
  end.

Definition dirname (p : string) : string :=
  let head := drop_to_sep_rev (String.rev p) in
  let stripped := rstrip_sep_rev head in
  if bool_decide (stripped = "") then String.rev head else String.rev stripped.

(** ** The file endpoints *)

Record WriteFileRequest : Type := {
  wf_id : string; wf_rel_path : string; wf_content : string
}.

Record DeleteFileRequest : Type := { df_id : string; df_rel_path : string }.

Record RenameFileRequest : Type := {
  rn_id : string; rn_old_path : string; rn_new_path : string
}.

(** Reply dicts of the endpoints. *)
Record path_reply : Type := {
  pr_success : bool; pr_id : string; pr_rel_path : string
}.

Record rename_reply : Type := {
  rr_success : bool; rr_id : string; rr_old_path : string; rr_new_path : string
}.

Record read_reply : Type := {
  rd_content : string; rd_id : string; rd_rel_path : string
}.

Definition lift {S A} (r : res A) : SE S A := fun s => (r, s).

Definition os_abspath (p : string) : SE os_state string :=
  fun os => (Ok (posixpath.abspath (os_cwd os) p), os).

Definition isfile (p : string) : SE os_state bool :=
  fun os => (Ok (os_isfile os p), os).

(** [except ValueError as e: raise HTTPException(400, str(e))] followed by
    [except Exception as e: raise HTTPException(500, str(e))]. *)
Definition except_400_500 {A} (body : SE os_state A) : SE os_state A :=
  try_except body (fun e =>
    match e with
    | ValueError _ => raise (HTTPException 400 (exc_str e))
    | _ => raise (HTTPException 500 (exc_str e))
    end).

(** [except ValueError as e: raise HTTPException(400, str(e))] alone. *)
Definition except_400 {A} (body : SE os_state A) : SE os_state A :=
  try_except body (fun e =>
    match e with
    | ValueError _ => raise (HTTPException 400 (exc_str e))
    | _ => raise e
    end).

Definition read_file (id rel_path : string) : SE os_state read_reply :=
  except_400 (
    let workdir := safe_dirname id in
    do rel_path <- lift (safe_rel_path rel_path);
    let file_path := posixpath.join2 workdir rel_path in
    do abs_file <- os_abspath file_path;
    do abs_workdir <- os_abspath workdir;
    if negb (startswith abs_file abs_workdir)
    then raise (HTTPException 400 "Path traversal detected")
    else
      do present <- isfile file_path;
      if negb present then raise (HTTPException 404 "File does not exist")
      else
        do content <- os_read_text file_path;
        ret {| rd_content := content; rd_id := id; rd_rel_path := rel_path |}).

Definition write_file (req : WriteFileRequest) : SE os_state path_reply :=
  except_400_500 (
    let workdir := safe_dirname (wf_id req) in
    do rel_path <- lift (safe_rel_path (wf_rel_path req));
    let target_path := posixpath.join2 workdir rel_path in
    do abs_workdir <- os_abspath workdir;
    do abs_target <- os_abspath target_path;
    if negb (startswith abs_target abs_workdir)
    then raise (HTTPException 400 "Path traversal detected")
    else
      let target_dir := dirname abs_target in
      do _ <- os_makedirs target_dir;
      do _ <- os_write_text abs_target (wf_content req);
      ret {| pr_success := true; pr_id := wf_id req;
             pr_rel_path := wf_rel_path req |}).

Definition delete_file (req : DeleteFileRequest) : SE os_state path_reply :=
  except_400_500 (
    let workdir := safe_dirname (df_id req) in
    do rel_path <- lift (safe_rel_path (df_rel_path req));
    let target_path := posixpath.join2 workdir rel_path in
    do abs_workdir <- os_abspath workdir;
    do abs_target <- os_abspath target_path;
    if negb (startswith abs_target abs_workdir)
    then raise (HTTPException 400 "Path traversal detected")
    else
      do present <- isfile abs_target;
      if negb present then raise (HTTPException 404 "File does not exist")
      else
        do _ <- os_remove abs_target;
        ret {| pr_success := true; pr_id := df_id req;
               pr_rel_path := df_rel_path req |}).

Definition rename_file (req : RenameFileRequest) : SE os_state rename_reply :=
  except_400_500 (
    let workdir := safe_dirname (rn_id req) in
    do old_rel <- lift (safe_rel_path (rn_old_path req));
    do new_rel <- lift (safe_rel_path (rn_new_path req));
    let old_abs := posixpath.join2 workdir old_rel in
    let new_abs := posixpath.join2 workdir new_rel in
    do abs_workdir <- os_abspath workdir;
    do abs_old <- os_abspath old_abs;
    do abs_new <- os_abspath new_abs;
    if negb (startswith abs_old abs_workdir) || negb (startswith abs_new abs_workdir)
    then raise (HTTPException 400 "Path traversal detected")
    else
      do present <- isfile old_abs;
      if negb present then raise (HTTPException 404 "Old file does not exist")
      else
        let target_dir := dirname new_abs in
        do _ <- os_makedirs target_dir;
        do _ <- os_rename old_abs new_abs;
        ret {| rr_success := true; rr_id := rn_id req;
               rr_old_path := rn_old_path req; rr_new_path := rn_new_path req |}).

(** The failure kinds of the file operations, as the HTTP status carries
    them. *)
Inductive failure_kind : Type := PathInvalid | NotFound | IOFailure.

Definition kind_of_status (status : Z) : option failure_kind :=
  if (status =? 400)%Z then Some PathInvalid
  else if (status =? 404)%Z then Some NotFound
  else if (status =? 500)%Z then Some IOFailure
  else None.

Definition failure_of {A} (r : res A) : option failure_kind :=
  match r with
  | Raise (HTTPException status _) => kind_of_status status
  | _ => None
  end.

(** ** The command runner *)

Record RunCommandRequest : Type := { rc_id : string; rc_cmd : string }.

Record JSONResponse : Type := {
  status_code : Z; stdout : string; stderr : string; resp_id : string
}.

Section Runner.

(** [subprocess.run(cmd, shell=True, cwd=workdir, timeout=30, text=True,
    check=False, ...)]: the captured streams, or the exception it raises
    ([TimeoutExpired] once it has killed a child that ran over). *)
Variable subprocess_run : string -> string -> SE os_state (string * string).

(** [traceback.format_exc()] *)
Variable format_exc : exc -> string.

Definition isdir (p : string) : SE os_state bool :=
  fun os => (Ok (os_isdir os p), os).

Definition run_command (req : RunCommandRequest) : SE os_state JSONResponse :=
  let session_id := rc_id req in
  let cmd := rc_cmd req in
  let workdir := safe_dirname session_id in
  do present <- isdir workdir;
  if negb present then raise (HTTPException 400 "Session does not exist")
  else
    try_except
      (do proc <- subprocess_run cmd workdir;
       ret {| status_code := 200; stdout := fst proc; stderr := snd proc;
              resp_id := session_id |})
      (fun e =>
         let tb := format_exc e in
         ret {| status_code := 500; stdout := "";
                stderr := "Exception running command: " +:+ exc_str e +:+
                          String "010"%char tb;
                resp_id := session_id |}).

End Runner.

(** ** The keyword pattern of [_parse_kw]

    [(\w+)\s*=\s*(.+?)(?=,\s*\w+\s*=|$)], matched the way [re] does:
    left to right, greedy repetitions longest first, the lazy one shortest
    first, backtracking into the previous choice on failure. *)

Definition code_of (c : ascii) : N := N_of_ascii c.

Definition between (lo hi : N) (c : ascii) : bool :=
  (lo <=? code_of c)%N && (code_of c <=? hi)%N.

(** [\w]: the alphanumeric code points and "_" *)
Definition is_word (c : ascii) : bool :=
  between 48 57 c || between 65 90 c || (code_of c =? 95)%N
  || between 97 122 c || (code_of c =? 170)%N || between 178 179 c
  || (code_of c =? 181)%N || between 185 186 c || between 188 190 c
  || between 192 214 c || between 216 246 c || between 248 255 c.

(** [\s], also the characters [str.strip()] removes *)
Definition is_space (c : ascii) : bool :=
  between 9 13 c || between 28 32 c || (code_of c =? 133)%N
  || (code_of c =? 160)%N.

(** [.] without DOTALL *)
Definition is_dot (c : ascii) : bool := negb (code_of c =? 10)%N.

Section Regex.
Context {A : Type}.

(** [cls*], greedy.  [acc] is the text taken so far, last character
    first; the continuation gets it and the rest of the subject. *)
Fixpoint star_greedy (cls : ascii -> bool) (acc s : string)
    (k : string -> string -> option A) : option A :=
  match s with
  | String c r =>
      if cls c then
        match star_greedy cls (String c acc) r k with
        | Some x => Some x
        | None => k acc s
        end
      else k acc s
  | EmptyString => k acc s
  end.

(** [cls*?], lazy *)
Fixpoint star_lazy (cls : ascii -> bool) (acc s : string)
    (k : string -> string -> option A) : option A :=
  match k acc s with
  | Some x => Some x
  | None =>
      match s with
      | String c r => if cls c then star_lazy cls (String c acc) r k else None
      | EmptyString => None
      end
  end.

(** [cls+] and [cls+?] *)
Definition plus_greedy (cls : ascii -> bool) (s : string)
    (k : string -> string -> option A) : option A :=
  match s with
  | String c r => if cls c then star_greedy cls (String c EmptyString) r k else None
  | EmptyString => None
  end.

Definition plus_lazy (cls : ascii -> bool) (s : string)
    (k : string -> string -> option A) : option A :=
  match s with
  | String c r => if cls c then star_lazy cls (String c EmptyString) r k else None
  | EmptyString => None
  end.

(** one literal character *)
Definition lit (a : ascii) (s : string) (k : string -> option A) : option A :=
  match s with
  | String c r => if Ascii.eqb c a then k r else None
  | EmptyString => None
  end.

End Regex.

(** [$] without MULTILINE: the end, or just before a final newline. *)
Definition at_end (s : string) : bool :=
  bool_decide (s = "") || bool_decide (s = String "010"%char "").

(** [(?=,\s*\w+\s*=|$)] *)
Definition lookahead (s : string) : bool :=
  match
    lit ","%char s (fun r1 =>
    star_greedy is_space "" r1 (fun _ r2 =>
    plus_greedy is_word r2 (fun _ r3 =>
    star_greedy is_space "" r3 (fun _ r4 =>
    lit "="%char r4 (fun _ => Some tt)))))
  with
  | Some _ => true
  | None => at_end s
  end.

(** A match starting at the head of [s]: group 1, group 2 and what is
    left of [s] after the match. *)
Definition match_here (s : string) : option (string * string * string) :=
  plus_greedy is_word s (fun g1 r1 =>
  star_greedy is_space "" r1 (fun _ r2 =>
  lit "="%char r2 (fun r3 =>
  star_greedy is_space "" r3 (fun _ r4 =>
  plus_lazy is_dot r4 (fun g2 r5 =>
  if lookahead r5 then Some (String.rev g1, String.rev g2, r5) else None))))).

(** [re.finditer(pattern, s)]: the groups of the successive matches.  A
    match is never empty, so scanning resumes where it ended; [skip] counts
    the characters of the last match still to be passed. *)
Fixpoint finditer_go (skip : nat) (s : string) : list (string * string) :=
  match s with
  | EmptyString => []
  | String _ r =>
      match skip with
      | S k => finditer_go k r
      | O =>
          match match_here s with
          | Some (g1, g2, rest) =>
              (g1, g2) :: finditer_go (String.length s - String.length rest - 1) r
          | None => finditer_go 0 r
          end
      end
  end.

Definition finditer (s : string) : list (string * string) := finditer_go 0 s.

(** [s.strip()] *)
Fixpoint lstrip (s : string) : string :=
  match s with
  | String c r => if is_space c then lstrip r else s
  | EmptyString => EmptyString
  end.

Definition strip (s : string) : string :=
  String.rev (lstrip (String.rev (lstrip s))).

(** ** The worker: [_run_single_case] *)

Inductive resource : Type := RLIMIT_AS | RLIMIT_CPU.

(** The Python interpreter of a worker process.  [world] is the state of
    the process, the [exec_globals] dict included; every primitive may
    change it and may raise. *)
Class PyRuntime : Type := {
  value : Type;
  world : Type;
  (** [resource.setrlimit(r, (soft, hard))] *)
  py_setrlimit : resource -> Z -> Z -> SE world unit;
  (** [exec_globals = {}; exec(code, exec_globals)] *)
  py_exec : string -> SE world unit;
  (** [eval(text, exec_globals)] *)
  py_eval : string -> SE world value;
  (** [ast.literal_eval(text)]: a parser of literals, it runs no code and
      touches no state; what it raises is an [Exception] *)
  py_literal_eval : string -> res value;
  py_literal_eval_raises : forall text e,
    py_literal_eval text = Raise e -> is_exception e = true;
  (** [inspect.getfullargspec(f).args] *)
  py_getfullargspec : value -> SE world (list string);
  (** the call of [f] on the unpacked list [args] *)
  py_call : value -> list value -> SE world value;
  (** [a == b] *)
  py_eq : value -> value -> SE world bool;
  (** [traceback.format_exc()] while [e] is being handled *)
  py_format_exc : exc -> string
}.

Section Worker.
Context {R : PyRuntime}.

(** What a worker asks of its interpreter, in the order it asks. *)
Inductive call : Type :=
| Setrlimit (r : resource) (soft hard : Z)
| Exec (code : string)
| Eval (text : string)
| LiteralEval (text : string)
| GetFullArgSpec (f : value)
| Call (f : value) (args : list value)
| Compare (a b : value).

Record event : Type := { ev_call : call; ev_ok : bool }.

Record pstate : Type := { ps_world : world; ps_trace : list event }.

Definition logged {A} (c : call) (m : SE world A) : SE pstate A :=
  fun s =>
    let (r, w) := m (ps_world s) in
    (r, {| ps_world := w;
           ps_trace := ps_trace s ++ [{| ev_call := c; ev_ok := is_ok r |}] |}).

Definition setrlimit (r : resource) (soft hard : Z) : SE pstate unit :=
  logged (Setrlimit r soft hard) (py_setrlimit r soft hard).
Definition exec (code : string) : SE pstate unit :=
  logged (Exec code) (py_exec code).
Definition eval (text : string) : SE pstate value :=
  logged (Eval text) (py_eval text).
Definition literal_eval (text : string) : SE pstate value :=
  logged (LiteralEval text) (lift (py_literal_eval text)).
Definition getfullargspec (f : value) : SE pstate (list string) :=
  logged (GetFullArgSpec f) (py_getfullargspec f).
Definition apply_func (f : value) (args : list value) : SE pstate value :=
  logged (Call f args) (py_call f args).
Definition equals (a b : value) : SE pstate bool :=
  logged (Compare a b) (py_eq a b).

(** [d[key]] *)
Definition getitem {S V} (d : gmap string V) (key : string) : SE S V :=
  match d !! key with
  | Some v => ret v
  | None => raise (KeyError key)
  end.

(** A field of a result dict: [None], a text, or a value computed by the
    interpreter. *)
Inductive field : Type :=
| PyNone
| PyText (s : string)
| PyValue (v : value).

Definition of_get (o : option string) : field :=
  match o with Some s => PyText s | None => PyNone end.

(** The dict a worker returns. *)
Record worker_result : Type := {
  wr_passed : bool;
  wr_got : field;
  wr_expected : field;
  wr_error : option string
}.

Fixpoint parse_kw_loop (ms : list (string * string)) (out : gmap string value)
    : SE pstate (gmap string value) :=
  match ms with
  | [] => ret out
  | (g1, g2) :: rest =>
      let k := strip g1 in
      let v := strip g2 in
      do out' <- try_except
                   (do x <- literal_eval v; ret (<[k := x]> out))
                   (fun _ => ret out);
      parse_kw_loop rest out'
  end.

Definition _parse_kw (input_str : string) : SE pstate (gmap string value) :=
  parse_kw_loop (finditer input_str) ∅.

Definition _parse_list (input_str : string) : SE pstate (list value) :=
  try_except
    (do x <- literal_eval (strip input_str); ret [x])
    (fun _ => ret []).

(** [not params] *)
Definition is_empty (params : gmap string value) : bool :=
  bool_decide (size params = 0).

(** [[params[a] for a in arg_names]] *)
Fixpoint lookup_all (params : gmap string value) (arg_names : list string)
    : SE pstate (list value) :=
  match arg_names with
  | [] => ret []
  | a :: rest =>
      do x <- getitem params a;
      do xs <- lookup_all params rest;
      ret (x :: xs)
  end.

(** [arg_spec.args[1:] if arg_spec.args and arg_spec.args[0] == "self"
    else arg_spec.args] *)
Definition drop_self (spec_args : list string) : list string :=
  match spec_args with
  | a :: rest => if bool_decide (a = "self") then rest else spec_args
  | [] => spec_args
  end.

(** The [try] block, in the four parts its comments mark. *)

(** the block that sets the two resource limits of the process *)
Definition self_limit (mem_limit_mb cpu_seconds : Z) : SE pstate unit :=
  let soft := (mem_limit_mb * 1024 * 1024)%Z in
  let hard := (mem_limit_mb * 1024 * 1024)%Z in
  do _ <- setrlimit RLIMIT_AS soft hard;
  setrlimit RLIMIT_CPU cpu_seconds (cpu_seconds + 1)%Z.

(** "Build the arg-list exactly as before", up to [got = func(...)] *)
Definition invoke (entry_point : string) (case : gmap string string)
    : SE pstate value :=
  do input <- getitem case "input";
  do params <- _parse_kw input;
  do list_params <- (if is_empty params
                     then do input <- getitem case "input"; _parse_list input
                     else ret []);
  do func <- eval entry_point;
  do spec_args <- getfullargspec func;
  let arg_names := drop_self spec_args in
  do args <- (if is_empty params then ret list_params
              else lookup_all params arg_names);
  apply_func func args.

(** the expected value and the dict returned *)
Definition verdict (case : gmap string string) (got : value)
    : SE pstate worker_result :=
  do expected <- try_except
                   (do output <- getitem case "output"; literal_eval output)
                   (fun _ => do output <- getitem case "output"; eval output);
  do passed <- equals got expected;
  ret {| wr_passed := passed; wr_got := PyValue got;
         wr_expected := PyValue expected; wr_error := None |}.

Definition run_case_body (code entry_point : string) (case : gmap string string)
    (mem_limit_mb cpu_seconds : Z) : SE pstate worker_result :=
  do _ <- self_limit mem_limit_mb cpu_seconds;
  (* "run the user's code" *)
  do _ <- exec code;
  do got <- invoke entry_point case;
  verdict case got.

Definition newline : string := String "010"%char "".

(** The [except Exception as e] block. *)
Definition failed_case (case : gmap string string) (e : exc) : worker_result :=
  {| wr_passed := false; wr_got := PyNone;
     wr_expected := of_get (case !! "output");
     wr_error := Some (exc_name e +:+ ": " +:+ exc_str e +:+ newline
                       +:+ py_format_exc e) |}.

Definition _run_single_case (code entry_point : string)
    (case : gmap string string) (mem_limit_mb cpu_seconds : Z)
    : SE pstate worker_result :=
  try_except (run_case_body code entry_point case mem_limit_mb cpu_seconds)
             (fun e => ret (failed_case case e)).

(** ** The orchestrator: [evaluate_cases] *)

(** How a submitted call ends in the pool: the worker process, started in
    world [w0], runs [_run_single_case] to its end, and the future holds
    what it returned or what it raised; or the pool raises when the result
    is asked for (a broken pool, a result that cannot be transported). *)
Inductive completion : Type :=
| Finished (w0 : world)
| Broke (e : exc).

(** The completions that arrive before their result is asked for, in the
    order the workers complete; the first component is the position of the
    case in the submission.  A future with no entry is still pending when
    its wait ends. *)
Definition completion_log : Type := list (nat * completion).

Fixpoint find_completion (log : completion_log) (idx : nat) : option completion :=
  match log with
  | [] => None
  | (i, c) :: rest => if Nat.eqb i idx then Some c else find_completion rest idx
  end.

(** A result dict of the batch: the worker's dict with the two keys the
    orchestrator adds. *)
Record case_result : Type := {
  passed : bool;
  got : field;
  expected : field;
  error : option string;
  case_index : nat;
  input_text : option string
}.

Section Batch.
Variables (code entry_point : string) (mem_limit_mb cpu_seconds : Z).

(** [fut.result(timeout=timeout)] for the future of [case] at [idx]: the
    value returned by the call, the exception it raised, raised again, or
    [TimeoutError]. *)
Definition fut_result (log : completion_log) (idx : nat)
    (case : gmap string string) : res worker_result :=
  match find_completion log idx with
  | Some (Finished w0) =>
      fst (_run_single_case code entry_point case mem_limit_mb cpu_seconds
             {| ps_world := w0; ps_trace := [] |})
  | Some (Broke e) => Raise e
  | None => Raise TimeoutError
  end.

(** The [try ... except TimeoutError ... except Exception as e] of the
    collection loop; [fut.cancel()] changes nothing that is returned.  What
    the future raises and is not an [Exception] passes both clauses. *)
Definition collect (case : gmap string string) (r : res worker_result)
    : res worker_result :=
  match r with
  | Ok result => Ok result
  | Raise TimeoutError =>
      Ok {| wr_passed := false; wr_got := PyNone;
            wr_expected := of_get (case !! "output");
            wr_error := Some "Timeout" |}
  | Raise e =>
      if is_exception e then
        Ok {| wr_passed := false; wr_got := PyNone;
              wr_expected := of_get (case !! "output");
              wr_error := Some (exc_name e +:+ ": " +:+ exc_str e) |}
      else Raise e
  end.

(** [result["case"] = idx; result["input"] = case.get("input")] *)
Definition stamp (idx : nat) (case : gmap string string) (result : worker_result)
    : case_result :=
  {| passed := wr_passed result; got := wr_got result;
     expected := wr_expected result; error := wr_error result;
     case_index := idx; input_text := case !! "input" |}.

(** The loop over [enumerate(zip(io_cases, futures))], from position [idx]
    on, with the accumulators [all_passed] and [case_results].  An
    exception that leaves the [try] statement leaves the function. *)
Fixpoint collect_loop (log : completion_log) (idx : nat)
    (cases : list (gmap string string))
    (all_passed : bool) (case_results : list case_result)
    : res (bool * list case_result) :=
  match cases with
  | [] => Ok (all_passed, case_results)
  | case :: rest =>
      match collect case (fut_result log idx case) with
      | Ok result =>
          let result := stamp idx case result in
          collect_loop log (S idx) rest
            (all_passed && passed result) (case_results ++ [result])
      | Raise e => Raise e
      end
  end.

(** The function from the collection loop on, the cases being dicts of
    texts as its signature has them.  What comes before the loop (the
    number of workers, the making of the pool and the calls of
    [pool.submit]) gives the loop nothing but the futures; a pool that
    cannot be made or that refuses a submission raises there, and is not
    in the model. *)
Definition evaluate_cases (io_cases : list (gmap string string))
    (log : completion_log) : res (bool * list case_result) :=
  collect_loop log 0 io_cases true [].

(** The result dict of the case at position [idx], from its own case and
    its own future only. *)
Definition result_at (log : completion_log) (idx : nat)
    (case : gmap string string) : res case_result :=
  match collect case (fut_result log idx case) with
  | Ok result => Ok (stamp idx case result)
  | Raise e => Raise e
  end.

(** The results of the cases from position [idx] on, while no future
    raises past the handlers; the first exception that does, otherwise. *)
Fixpoint results_from (log : completion_log) (idx : nat)
    (cases : list (gmap string string)) : res (list case_result) :=
  match cases with
  | [] => Ok []
  | case :: rest =>
      match result_at log idx case with
      | Ok r =>
          match results_from log (S idx) rest with
          | Ok rs => Ok (r :: rs)
          | Raise e => Raise e
          end
      | Raise e => Raise e
      end
  end.

End Batch.
End Worker.

(** ** Another endpoint: [fork_session] *)

Record ForkSessionRequest : Type := { fk_id : string }.

(** The body of the JSON reply, ["new_id"]. *)
Record ForkSessionResponse : Type := { new_id : string }.

Section Fork.

(** [str(uuid.uuid4())], the id drawn by this call. *)
Variable uuid4 : string.

(** [shutil.copytree(src, dst)] *)
Variable copytree : string -> string -> SE os_state unit.

Definition fork_session (req : ForkSessionRequest)
    : SE os_state ForkSessionResponse :=
  let old_id := fk_id req in
  let old_dir := safe_dirname old_id in
  do present <- isdir old_dir;
  if negb present then raise (HTTPException 404 "Session to fork not found")
  else
    let new_id := uuid4 in
    let new_dir := safe_dirname new_id in
    do _ <- try_except (copytree old_dir new_dir)
              (fun e => raise (HTTPException 500
                                 ("Failed to fork session: " +:+ exc_str e)));
    ret {| new_id := new_id |}.

End Fork.

(** ** The client: [src/repl_client.py]

    The methods of [ReplClient] send one HTTP request each and turn the
    response, or the failure of the request, into a model or into a
    [ReplServerError].  The HTTP layer (httpx), the JSON decoder and the
    validation of pydantic are libraries: the first is a parameter
    ([Transport]), a decoded body is a [json] value, and the models are
    built from it by the rules of their field types. *)

Module ReplClient.

(** What [resp.json()] returns. *)
#[warnings="-register-all"] Inductive json : Type :=
| JNull
| JBool (b : bool)
| JNumber (literal : string)
| JString (s : string)
| JArray (items : list json)
| JObject (members : list (string * json)).

(** [d.get(key)] on a decoded object. *)
Fixpoint member (key : string) (members : list (string * json)) : option json :=
  match members with
  | [] => None
  | (k, v) :: rest => if bool_decide (k = key) then Some v else member key rest
  end.

(** A response: its status, its body as text, and the body decoded when
    it is JSON ([resp.json()] raises when it is not). *)
Record response : Type := {
  status_code : Z;
  text : string;
  decoded : option json
}.

(** What the methods raise or meet.  [ReadTimeout] is
    [httpcore.ReadTimeout]; [OtherException] stands for every other class
    that derives from [Exception]; [BaseOnly] for what derives from
    [BaseException] only, such as [asyncio.CancelledError]. *)
Inductive error : Type :=
| ReplServerError (message : string) (status : option Z) (details : json)
| ValidationError (msg : string)
| ReadTimeout (msg : string)
| OtherException (type_name msg : string)
| BaseOnly (type_name msg : string).

Definition is_exception (e : error) : bool :=
  match e with
  | BaseOnly _ _ => false
  | _ => true
  end.

Inductive outcome (A : Type) : Type :=
| Returned (a : A)
| Raised (e : error).
Arguments Returned {A} a.
Arguments Raised {A} e.

(** The HTTP layer and the library functions whose results are texts. *)
Class Transport : Type := {
  (** the network and the server behind it *)
  net : Type;
  (** [await client.post(url, json=payload)] *)
  post : string -> json -> net -> outcome response * net;
  (** [await client.get(url, params=params)] *)
  get : string -> list (string * string) -> net -> outcome response * net;
  (** the message of the [HTTPStatusError] that [resp.raise_for_status()]
      raises, if it raises *)
  status_error : response -> option string;
  (** [str(x)] of a decoded value that is no string, and whether a
      number is zero *)
  str_other : json -> string;
  number_is_zero : string -> bool;
  (** the bool a [bool] field is given, if pydantic accepts the value *)
  as_bool : json -> option bool;
  (** the texts of pydantic's [ValidationError], of the [TypeError] of
      the model called on unpacked data that is no mapping, and of the decoder's
      error *)
  validation_text : string -> json -> string;
  mapping_text : string -> json -> string;
  decode_text : string -> string;
  (** [traceback.format_exc()] *)
  format_exc : error -> string
}.

Section Methods.
Context {T : Transport}.

(** [str(x)] and [bool(x)] of a decoded value. *)
Definition py_str (v : json) : string :=
  match v with
  | JString s => s
  | _ => str_other v
  end.

Definition truthy (v : json) : bool :=
  match v with
  | JNull => false
  | JBool b => b
  | JNumber literal => negb (number_is_zero literal)
  | JString s => negb (bool_decide (s = ""))
  | JArray items => negb (bool_decide (items = []))
  | JObject members => negb (bool_decide (members = []))
  end.

Definition show_status (status : option Z) : string :=
  match status with
  | Some z => string_of_Z z
  | None => "None"
  end.

(** [str(e)]; [ReplServerError.__init__] builds the text of its own. *)
Definition str (e : error) : string :=
  match e with
  | ReplServerError message status details =>
      message +:+ " (status_code=" +:+ show_status status +:+ ", details="
      +:+ py_str details +:+ ")"
  | ValidationError msg => msg
  | ReadTimeout msg => msg
  | OtherException _ msg => msg
  | BaseOnly _ msg => msg
  end.

(** *** The response models *)

Record ScriptResponse : Type := {
  sr_stdout : string; sr_stderr : string; sr_id : string
}.

Record WriteFileResponse : Type := {
  wr_success : bool; wr_id : string; wr_rel_path : string
}.

Record ReadFileResponse : Type := {
  rf_content : string; rf_id : string; rf_rel_path : string
}.

Record DeleteFileResponse : Type := {
  dr_success : bool; dr_id : string; dr_rel_path : string
}.

Record RenameFileResponse : Type := {
  rn_success : bool; rn_id : string; rn_old_path : string; rn_new_path : string
}.

Record ForkSessionResponse : Type := { fs_new_id : string }.

Record EvaluateCodeResponse : Type := {
  ev_passed : bool; ev_case_results : list json; ev_error : option string
}.

(** A [str] field takes a string and nothing else; a [bool] field what
    pydantic accepts as a bool; a missing field is an error. *)
Definition field_str (m : list (string * json)) (key : string) : option string :=
  match member key m with
  | Some (JString s) => Some s
  | _ => None
  end.

Definition field_bool (m : list (string * json)) (key : string) : option bool :=
  match member key m with
  | Some v => as_bool v
  | None => None
  end.

(** The model called on the unpacked data, [Model] with two stars before
    [data]. *)
Definition construct {A} (model : string) (build : list (string * json) -> option A)
    (data : json) : outcome A :=
  match data with
  | JObject m =>
      match build m with
      | Some a => Returned a
      | None => Raised (ValidationError (validation_text model data))
      end
  | _ => Raised (OtherException "TypeError" (mapping_text model data))
  end.

Definition script_response : json -> outcome ScriptResponse :=
  construct "ScriptResponse" (fun m =>
    match field_str m "stdout", field_str m "stderr", field_str m "id" with
    | Some o, Some e, Some i => Some {| sr_stdout := o; sr_stderr := e; sr_id := i |}
    | _, _, _ => None
    end).

Definition write_file_response : json -> outcome WriteFileResponse :=
  construct "WriteFileResponse" (fun m =>
    match field_bool m "success", field_str m "id", field_str m "rel_path" with
    | Some s, Some i, Some p => Some {| wr_success := s; wr_id := i; wr_rel_path := p |}
    | _, _, _ => None
    end).

Definition read_file_response : json -> outcome ReadFileResponse :=
  construct "ReadFileResponse" (fun m =>
    match field_str m "content", field_str m "id", field_str m "rel_path" with
    | Some c, Some i, Some p => Some {| rf_content := c; rf_id := i; rf_rel_path := p |}
    | _, _, _ => None
    end).

Definition delete_file_response : json -> outcome DeleteFileResponse :=
  construct "DeleteFileResponse" (fun m =>
    match field_bool m "success", field_str m "id", field_str m "rel_path" with
    | Some s, Some i, Some p => Some {| dr_success := s; dr_id := i; dr_rel_path := p |}
    | _, _, _ => None
    end).

Definition rename_file_response : json -> outcome RenameFileResponse :=
  construct "RenameFileResponse" (fun m =>
    match field_bool m "success", field_str m "id",
          field_str m "old_path", field_str m "new_path" with
    | Some s, Some i, Some o, Some n =>
        Some {| rn_success := s; rn_id := i; rn_old_path := o; rn_new_path := n |}
    | _, _, _, _ => None
    end).

Definition fork_session_response : json -> outcome ForkSessionResponse :=
  construct "ForkSessionResponse" (fun m =>
    match field_str m "new_id" with
    | Some i => Some {| fs_new_id := i |}
    | None => None
    end).

(** [error: Optional[str] = None] may be missing or null. *)
Definition evaluate_code_response : json -> outcome EvaluateCodeResponse :=
  construct "EvaluateCodeResponse" (fun m =>
    match field_bool m "passed", member "case_results" m with
    | Some p, Some (JArray rs) =>
        match member "error" m with
        | None | Some JNull =>
            Some {| ev_passed := p; ev_case_results := rs; ev_error := None |}
        | Some (JString e) =>
            Some {| ev_passed := p; ev_case_results := rs; ev_error := Some e |}
        | Some _ => None
        end
    | _, _ => None
    end).

(** *** The methods *)

Record client : Type := { base_url : string }.

(** [s.rstrip("/")] *)
Definition rstrip_slash (s : string) : string :=
  String.rev (rstrip_sep_rev (String.rev s)).

(** [__init__]; the timeout goes to the HTTP layer. *)
Definition init (url : string) : client := {| base_url := rstrip_slash url |}.

(** [try: detail = resp.json().get("detail", "")] and
    [except Exception: detail = resp.text] *)
Definition detail_of (resp : response) : json :=
  match decoded resp with
  | Some (JObject m) => default (JString "") (member "detail" m)
  | _ => JString (text resp)
  end.

(** [resp.json().get("stderr") or resp.json().get("detail", "")], with
    the same handler. *)
Definition stderr_of (resp : response) : json :=
  match decoded resp with
  | Some (JObject m) =>
      match member "stderr" m with
      | Some v => if truthy v then v else default (JString "") (member "detail" m)
      | None => default (JString "") (member "detail" m)
      end
  | _ => JString (text resp)
  end.

(** What follows the request inside the [try]: a status other than 200
    raises [ReplServerError] with the status; otherwise the body is
    decoded and the model built. *)
Definition answer {A} (failed : string) (detail : response -> json)
    (model : json -> outcome A) (resp : response) : outcome A :=
  if negb (status_code resp =? 200)%Z
  then Raised (ReplServerError failed (Some (status_code resp)) (detail resp))
  else
    match decoded resp with
    | Some data => model data
    | None => Raised (OtherException "JSONDecodeError" (decode_text (text resp)))
    end.

(** [try: resp = await request; ... except ...]: the clauses of the
    method are [handler]; what is no [Exception] passes them. *)
Definition attempt {A} (request : net -> outcome response * net)
    (after : response -> outcome A) (handler : error -> error)
    : net -> outcome A * net :=
  fun n =>
    let (r, n') := request n in
    (match (match r with
            | Returned resp => after resp
            | Raised e => Raised e
            end) with
     | Returned a => Returned a
     | Raised e => if is_exception e then Raised (handler e) else Raised e
     end, n').

(** The two clauses most methods have: [except ValidationError as ve] and
    [except Exception as e]. *)
Definition two_clauses (endpoint : string) (e : error) : error :=
  match e with
  | ValidationError _ =>
      ReplServerError ("Invalid response structure from " +:+ endpoint) None
        (JString (str e))
  | _ =>
      ReplServerError ("Error during " +:+ endpoint +:+ " request") None
        (JString (str e))
  end.

Definition fork_session (self : client) (id : string)
    : net -> outcome string * net :=
  let payload := JObject [("id", JString id)] in
  attempt (post (base_url self +:+ "/fork_session") payload)
    (fun resp =>
       match answer "Failed to fork session" detail_of fork_session_response resp with
       | Returned result => Returned (fs_new_id result)
       | Raised e => Raised e
       end)
    (two_clauses "/fork_session").

Definition ping (self : client) : net -> outcome bool * net :=
  attempt (get (base_url self +:+ "/") [])
    (fun resp =>
       match status_error resp with
       | Some msg => Raised (OtherException "HTTPStatusError" msg)
       | None => Returned (bool_decide (strip (text resp) = "ping"))
       end)
    (fun e => ReplServerError "Unable to ping REPL server" None (JString (str e))).

Definition run (self : client) (id cmd : string)
    : net -> outcome ScriptResponse * net :=
  let payload := JObject [("id", JString id); ("cmd", JString cmd)] in
  attempt (post (base_url self +:+ "/run") payload)
    (answer "Failed to execute command" stderr_of script_response)
    (fun e =>
       match e with
       | ValidationError _ =>
           ReplServerError "Invalid response structure from /run" None
             (JString (str e))
       | ReadTimeout _ =>
           ReplServerError
             "Clientside timeout while waiting for REPL server response"
             (Some 408%Z) (JString (str e))
       | ReplServerError _ _ _ => e
       | _ => ReplServerError "Error during /run request" None (JString (str e))
       end).

Definition write_file (self : client) (id rel_path content : string)
    : net -> outcome WriteFileResponse * net :=
  let payload := JObject [("id", JString id); ("rel_path", JString rel_path);
                          ("content", JString content)] in
  attempt (post (base_url self +:+ "/write_file") payload)
    (answer "Failed to write file" detail_of write_file_response)
    (fun e =>
       match e with
       | ValidationError _ =>
           ReplServerError "Invalid response structure from /write_file" None
             (JString (str e))
       | _ =>
           ReplServerError "Error during /write_file request" None
             (JString (str e +:+ newline +:+ newline +:+ "Id: " +:+ id
                       +:+ newline +:+ "Path: " +:+ rel_path
                       +:+ newline +:+ "Content: " +:+ content))
       end).

(** [str(uuid.uuid4())] is [session_id]. *)
Definition create_session (self : client) (session_id : string)
    : net -> outcome string * net :=
  fun n =>
    let (r, n') := write_file self session_id "placeholder.txt" "" n in
    (match r with
     | Returned _ => Returned session_id
     | Raised e => Raised e
     end, n').

Definition read_file (self : client) (id rel_path : string)
    : net -> outcome ReadFileResponse * net :=
  let params := [("id", id); ("rel_path", rel_path)] in
  attempt (get (base_url self +:+ "/read_file") params)
    (answer "Failed to read file" detail_of read_file_response)
    (two_clauses "/read_file").

Definition delete_file (self : client) (id rel_path : string)
    : net -> outcome DeleteFileResponse * net :=
  let payload := JObject [("id", JString id); ("rel_path", JString rel_path)] in
  attempt (post (base_url self +:+ "/delete_file") payload)
    (answer "Failed to delete file" detail_of delete_file_response)
    (two_clauses "/delete_file").

Definition rename_file (self : client) (id old_path new_path : string)
    : net -> outcome RenameFileResponse * net :=
  let payload := JObject [("id", JString id); ("old_path", JString old_path);
                          ("new_path", JString new_path)] in
  attempt (post (base_url self +:+ "/rename_file") payload)
    (answer "Failed to rename file" detail_of rename_file_response)
    (two_clauses "/rename_file").

(** The request goes through a client of its own, made with the timeout
    of the call. *)
Definition evaluate_code (self : client) (id code entry_point : string)
    (io_cases : list json) : net -> outcome EvaluateCodeResponse * net :=
  let payload := JObject [("id", JString id); ("code", JString code);
                          ("entry_point", JString entry_point);
                          ("io_cases", JArray io_cases)] in
  attempt (post (base_url self +:+ "/evaluate_code") payload)
    (answer "Failed to evaluate code" detail_of evaluate_code_response)
    (fun e =>
       match e with
       | ValidationError _ =>
           ReplServerError "Invalid response structure from /evaluate_code" None
             (JString (str e))
       | ReadTimeout _ =>
           ReplServerError
             "Clientside timeout while waiting for REPL server response"
             (Some 408%Z) (JString (str e))
       | _ =>
           ReplServerError "Error during /evaluate_code request" None
             (JString (str e +:+ newline +:+ newline +:+ format_exc e))
       end).

End Methods.

End ReplClient.

(** ** A small interpreter, to run the worker on concrete cases

    It knows integers and two programs: the one of the specification's
    example, [def add(a, b): return a + b], and one whose function leaves
    through [sys.exit] when its argument is 0. *)

Inductive toy_value : Type :=
| TInt (z : Z)
| TAdd
| TQuit.

Fixpoint digits_go (acc : Z) (s : string) : option Z :=
  match s with
  | EmptyString => Some acc
  | String c r =>
      if between 48 57 c
      then digits_go (10 * acc + (Z.of_N (code_of c) - 48))%Z r
      else None
  end.

Definition toy_literal (text : string) : res toy_value :=
  match strip text with
  | EmptyString => Raise (OtherError "SyntaxError" "invalid syntax")
  | s =>
      match digits_go 0 s with
      | Some z => Ok (TInt z)
      | None => Raise (ValueError "malformed node or string")
      end
  end.

Lemma toy_literal_raises text e :
  toy_literal text = Raise e -> is_exception e = true.
Proof.
  unfold toy_literal. destruct (strip text); [by intros [= <-]|].
  destruct (digits_go _ _); [done|by intros [= <-]].
Qed.

Definition add_source : string := "def add(a, b): return a + b".

(** [import sys], then [def quit(a):] with the body [if a == 0:
    sys.exit(3)] and [return a]. *)
Definition quit_source : string :=
  "import sys" +:+ String "010"%char (
  "def quit(a):" +:+ String "010"%char (
  "    if a == 0:" +:+ String "010"%char (
  "        sys.exit(3)" +:+ String "010"%char
  "    return a"))).

(** The world of the toy interpreter: what [exec_globals] holds. *)
Inductive toy_world : Type := Fresh | HasAdd | HasQuit.

Definition toy_exec (code : string) : SE toy_world unit := fun _ =>
  if bool_decide (code = add_source) then (Ok tt, HasAdd)
  else if bool_decide (code = quit_source) then (Ok tt, HasQuit)
  else (Raise (OtherError "SyntaxError" "invalid syntax"), Fresh).

Definition toy_eval (text : string) : SE toy_world toy_value := fun w =>
  match w with
  | HasAdd => if bool_decide (text = "add") then (Ok TAdd, w)
              else (toy_literal text, w)
  | HasQuit => if bool_decide (text = "quit") then (Ok TQuit, w)
               else (toy_literal text, w)
  | Fresh => (toy_literal text, w)
  end.

Definition toy_runtime : PyRuntime := {|
  value := toy_value;
  world := toy_world;
  py_setrlimit := fun _ _ _ => ret tt;
  py_exec := toy_exec;
  py_eval := toy_eval;
  py_literal_eval := toy_literal;
  py_literal_eval_raises := toy_literal_raises;
  py_getfullargspec := fun f =>
    match f with
    | TAdd => ret ["a"; "b"]
    | TQuit => ret ["a"]
    | TInt _ => raise (OtherError "TypeError" "unsupported callable")
    end;
  py_call := fun f args =>
    match f, args with
    | TAdd, [TInt a; TInt b] => ret (TInt (a + b))
    | TQuit, [TInt a] =>
        if (a =? 0)%Z then raise (ExitSignal "SystemExit" "3") else ret (TInt a)
    | _, _ => raise (OtherError "TypeError" "bad call")
    end;
  py_eq := fun a b =>
    ret (match a, b with
         | TInt x, TInt y => (x =? y)%Z
         | TAdd, TAdd => true
         | TQuit, TQuit => true
         | _, _ => false
         end);
  py_format_exc := fun _ => "Traceback (most recent call last): ..."
|}.

(** An [io_cases] entry [{"input": i, "output": o}]. *)
Definition io_case (i o : string) : gmap string string :=
  <["input" := i]> (<["output" := o]> ∅).

(** ** A second small interpreter, for an entry point that is a bound method

    The source defines [class Solution] with the method
    [def add(self, a, b): return a + b]; the entry point [Solution().add]
    is a bound method, for which [getfullargspec] lists the receiver
    first and which is called on the other two arguments. *)

Definition method_source : string :=
  "class Solution:" +:+ String "010"%char
  "    def add(self, a, b): return a + b".

Inductive method_value : Type :=
| MInt (z : Z)
| MBoundAdd.

Inductive method_world : Type := NoClass | HasSolution.

Definition method_literal (text : string) : res method_value :=
  match toy_literal text with
  | Ok (TInt z) => Ok (MInt z)
  | Ok _ => Raise (ValueError "malformed node or string")
  | Raise e => Raise e
  end.

Lemma method_literal_raises text e :
  method_literal text = Raise e -> is_exception e = true.
Proof.
  unfold method_literal. destruct (toy_literal text) as [[z| |]|e'] eqn:E;
    try done; try by intros [= <-].
  intros [= <-]. by apply (toy_literal_raises text).
Qed.

Definition method_runtime : PyRuntime := {|
  value := method_value;
  world := method_world;
  py_setrlimit := fun _ _ _ => ret tt;
  py_exec := fun code _ =>
    if bool_decide (code = method_source) then (Ok tt, HasSolution)
    else (Raise (OtherError "SyntaxError" "invalid syntax"), NoClass);
  py_eval := fun text w =>
    match w with
    | HasSolution =>
        if bool_decide (text = "Solution().add") then (Ok MBoundAdd, w)
        else (method_literal text, w)
    | NoClass => (method_literal text, w)
    end;
  py_literal_eval := method_literal;
  py_literal_eval_raises := method_literal_raises;
  py_getfullargspec := fun f =>
    match f with
    | MBoundAdd => ret ["self"; "a"; "b"]
    | MInt _ => raise (OtherError "TypeError" "unsupported callable")
    end;
  py_call := fun f args =>
    match f, args with
    | MBoundAdd, [MInt a; MInt b] => ret (MInt (a + b))
    | _, _ => raise (OtherError "TypeError" "bad call")
    end;
  py_eq := fun a b =>
    ret (match a, b with
         | MInt x, MInt y => (x =? y)%Z
         | MBoundAdd, MBoundAdd => true
         | _, _ => false
         end);
  py_format_exc := fun _ => "Traceback (most recent call last): ..."
|}.

(** ** Vocabulary of the statements about the worker *)

Section WorkerVocabulary.
Context {R : PyRuntime}.

(** [m] only adds events to the trace, and every event it adds has [P]. *)
Definition appends {A} (P : event -> Prop) (m : SE pstate A) : Prop :=
  forall s, exists t, ps_trace (snd (m s)) = ps_trace s ++ t /\ Forall P t.

(** An event that is not one of the limits block. *)
Definition after_limits (code entry_point : string) (case : gmap string string)
    (ev : event) : Prop :=
  match ev_call ev with
  | Setrlimit _ _ _ => False
  | Exec text => text = code
  | Eval text => text = entry_point \/ case !! "output" = Some text
  | _ => True
  end.

(** The two [setrlimit] calls of the worker, as events. *)
Definition limit_as (mem_limit_mb : Z) (ok : bool) : event :=
  {| ev_call := Setrlimit RLIMIT_AS (mem_limit_mb * 1024 * 1024)
                  (mem_limit_mb * 1024 * 1024);
     ev_ok := ok |}.

Definition limit_cpu (cpu_seconds : Z) (ok : bool) : event :=
  {| ev_call := Setrlimit RLIMIT_CPU cpu_seconds (cpu_seconds + 1);
     ev_ok := ok |}.

(** The keyword pairs of an input: a (name, value) for every match of the
    pattern whose value text parses as a literal. *)
Definition pair_of (m : string * string) : option (string * value) :=
  match py_literal_eval (strip (snd m)) with
  | Ok x => Some (strip (fst m), x)
  | Raise _ => None
  end.

Definition keyword_pairs (input : string) : list (string * value) :=
  omap pair_of (finditer input).

(** The value given to [name]; a later pair replaces an earlier one. *)
Fixpoint last_value (pairs : list (string * value)) (name : string)
    : option value :=
  match pairs with
  | [] => None
  | (k, x) :: rest =>
      match last_value rest name with
      | Some y => Some y
      | None => if bool_decide (k = name) then Some x else None
      end
  end.

(** The values in the order of the declared parameter names. *)
Fixpoint values_by_name (pairs : list (string * value)) (names : list string)
    : res (list value) :=
  match names with
  | [] => Ok []
  | a :: rest =>
      match last_value pairs a with
      | None => Raise (KeyError a)
      | Some x =>
          match values_by_name pairs rest with
          | Ok xs => Ok (x :: xs)
          | Raise e => Raise e
          end
      end
  end.

(** The arguments of the call: the keyword form first, the whole input as
    one literal when there is no keyword pair, nothing when that fails. *)
Definition bound_args (input : string) (spec_args : list string)
    : res (list value) :=
  match keyword_pairs input with
  | [] =>
      match py_literal_eval (strip input) with
      | Ok x => Ok [x]
      | Raise _ => Ok []
      end
  | pairs => values_by_name pairs (drop_self spec_args)
  end.

(** The calls [f(...)] a trace records. *)
Definition calls_made (trace : list event) : list (value * list value) :=
  omap (fun ev => match ev_call ev with
                  | Call f args => Some (f, args)
                  | _ => None
                  end) trace.

(** One turn of the loop of [_parse_kw], and the event it leaves. *)
Definition kw_step (out : gmap string value) (m : string * string)
    : gmap string value :=
  match pair_of m with
  | Some (k, x) => <[k := x]> out
  | None => out
  end.

Definition kw_event (m : string * string) : event :=
  {| ev_call := LiteralEval (strip (snd m));
     ev_ok := is_ok (py_literal_eval (strip (snd m))) |}.

(** The event [_parse_list] leaves. *)
Definition list_event (input : string) : event :=
  {| ev_call := LiteralEval (strip input);
     ev_ok := is_ok (py_literal_eval (strip input)) |}.

(** The interpreter lets the worker reach the call: both limits are set,
    the code loads, and the entry point evaluates to [func], whose declared
    parameters are [spec_args]; [w5] is the world before the call. *)
Definition reaches_call (code entry_point : string) (mem_limit_mb cpu_seconds : Z)
    (w0 : world) (func : value) (spec_args : list string) (w5 : world) : Prop :=
  exists w1 w2 w3 w4,
    py_setrlimit RLIMIT_AS (mem_limit_mb * 1024 * 1024)
      (mem_limit_mb * 1024 * 1024) w0 = (Ok tt, w1) /\
    py_setrlimit RLIMIT_CPU cpu_seconds (cpu_seconds + 1) w1 = (Ok tt, w2) /\
    py_exec code w2 = (Ok tt, w3) /\
    py_eval entry_point w3 = (Ok func, w4) /\
    py_getfullargspec func w4 = (Ok spec_args, w5).

(** An event that is not a call of a function value. *)
Definition no_call (ev : event) : Prop := calls_made [ev] = [].

(** The only texts the worker has the interpreter run are the submitted
    code, the entry point and the expected-output text. *)
Definition runs_only_submitted (code entry_point : string)
    (case : gmap string string) (ev : event) : Prop :=
  match ev_call ev with
  | Exec text => text = code
  | Eval text => text = entry_point \/ case !! "output" = Some text
  | _ => True
  end.

(** What Python does with the example of the specification: the source
    loads, "add" names a function of the parameters a and b, the texts
    "2", "3", "5", "6" are literals, add(2, 3) returns the value of "5",
    which equals itself and differs from the value of "6". *)
Definition python_runs_add (mem_limit_mb cpu_seconds : Z) (w0 : world)
    (two three five six : value) : Prop :=
  exists func w5 w6,
    reaches_call add_source "add" mem_limit_mb cpu_seconds w0 func ["a"; "b"] w5 /\
    py_literal_eval "2" = Ok two /\ py_literal_eval "3" = Ok three /\
    py_literal_eval "5" = Ok five /\ py_literal_eval "6" = Ok six /\
    py_call func [two; three] w5 = (Ok five, w6) /\
    (exists w7, py_eq five five w6 = (Ok true, w7)) /\
    (exists w7, py_eq five six w6 = (Ok false, w7)).

End WorkerVocabulary.

(** ** Vocabulary of the statements about paths and trees *)

(** A component of a normalised relative path. *)
Definition clean (c : string) : Prop :=
  c <> "" /\ c <> "." /\ c <> ".." /\ contains "/" c = false.

(** A tree that holds no symbolic link. *)
Definition symlink_free (t : gmap (list string) node) : Prop :=
  forall q target, t !! q <> Some (Symlink target).

(** The key of the node a session path names when no link is on the way:
    the components of the text the endpoints build, empty ones and "."
    left out. *)
Definition place (session_id rel : string) : list string :=
  kept (split (posixpath.join2 (safe_dirname session_id) rel) posixpath.sep).

(** The name [safe_dirname] gives a session under the root. *)
Definition name_of (session_id : string) : string :=
  str_replace (str_replace session_id "/" "_") ".." "__".

(** No key on the way to [cur] holds a link. *)
Definition link_free_to (t : gmap (list string) node) (cur : list string) : Prop :=
  forall n target, 0 < n <= length cur -> t !! take n cur <> Some (Symlink target).

(** An error a caller of the client can meet: a [ReplServerError], or
    what is no [Exception]. *)
Definition wrapped (e : ReplClient.error) : Prop :=
  (exists message status details,
     e = ReplClient.ReplServerError message status details) \/
  ReplClient.is_exception e = false.

(** The HTTP response made of the [JSONResponse] of [run_command]: the
    status, and the three keys as a JSON object; [body] is its text. *)
Definition http_of (body : string) (r : JSONResponse) : ReplClient.response :=
  {| ReplClient.status_code := status_code r;
     ReplClient.text := body;
     ReplClient.decoded :=
       Some (ReplClient.JObject
               [("stdout", ReplClient.JString (stdout r));
                ("stderr", ReplClient.JString (stderr r));
                ("id", ReplClient.JString (resp_id r))]) |}.

(** The error a method with the two usual clauses raises for a response
    whose status is not 200. *)
Definition lost_status {T : ReplClient.Transport} (endpoint failed : string)
    (resp : ReplClient.response) : ReplClient.error :=
  ReplClient.ReplServerError ("Error during " +:+ endpoint +:+ " request") None
    (ReplClient.JString
       (ReplClient.str
          (ReplClient.ReplServerError failed
             (Some (ReplClient.status_code resp)) (ReplClient.detail_of resp)))).

(** ** Sample worlds *)

(** A session "s" holding a file and a link that leaves the session. *)
Definition linked_os : os_state := {|
  os_cwd := "/";
  os_tree := list_to_map [
    (["tmp"], Dir);
    (["tmp"; "genie_repl"], Dir);
    (["tmp"; "genie_repl"; "s"], Dir);
    (["tmp"; "genie_repl"; "s"; "a.txt"], File "kept");
    (["tmp"; "genie_repl"; "s"; "link"], Symlink "/etc");
    (["etc"], Dir);
    (["etc"; "passwd"], File "root")
  ]
|}.

(** A shell whose command runs over the 30 seconds. *)
Definition slow_shell : string -> string -> SE os_state (string * string) :=
  fun cmd _ => raise (OtherError "TimeoutExpired"
                        ("Command '" +:+ cmd +:+ "' timed out after 30 seconds")).

Definition plain_traceback : exc -> string :=
  fun _ => "Traceback (most recent call last): ...".

(** A fresh worker process of the toy interpreter. *)
Definition toy_start : @pstate toy_runtime :=
  @Build_pstate toy_runtime Fresh [].

(** A fresh worker process of the interpreter of the bound method. *)
Definition method_start : @pstate method_runtime :=
  @Build_pstate method_runtime NoClass [].

(** A passing or failing dict of the toy interpreter. *)
Definition toy_verdict (p : bool) (g e : Z) : @worker_result toy_runtime :=
  @Build_worker_result toy_runtime p (@PyValue toy_runtime (TInt g))
    (@PyValue toy_runtime (TInt e)) None.

(** The result dict of a case of the toy interpreter that passed with the
    value [v]. *)
Definition toy_passed (idx : nat) (input : string) (v : Z)
    : @case_result toy_runtime :=
  @Build_case_result toy_runtime true (@PyValue toy_runtime (TInt v))
    (@PyValue toy_runtime (TInt v)) None idx (Some input).

(** Three cases for the program that leaves through [sys.exit] on 0, every
    worker completing in time. *)
Definition quit_cases : list (gmap string string) :=
  [io_case "a=1" "1"; io_case "a=0" "0"; io_case "a=2" "2"].

Definition all_finished : @completion_log toy_runtime :=
  [(0, @Finished toy_runtime Fresh); (1, @Finished toy_runtime Fresh);
   (2, @Finished toy_runtime Fresh)].

(** Two sessions "s" and "t", each holding a file, and no link. *)
Definition plain_os : os_state := {|
  os_cwd := "/";
  os_tree := list_to_map [
    (["tmp"], Dir);
    (["tmp"; "genie_repl"], Dir);
    (["tmp"; "genie_repl"; "s"], Dir);
    (["tmp"; "genie_repl"; "s"; "a.txt"], File "kept");
    (["tmp"; "genie_repl"; "t"], Dir);
    (["tmp"; "genie_repl"; "t"; "b.txt"], File "other")
  ]
|}.

(** A server that gives every request the same response. *)
Definition answering (resp : ReplClient.response) : ReplClient.Transport := {|
  ReplClient.net := unit;
  ReplClient.post := fun _ _ n => (ReplClient.Returned resp, n);
  ReplClient.get := fun _ _ n => (ReplClient.Returned resp, n);
  ReplClient.status_error := fun r =>
    if (400 <=? ReplClient.status_code r)%Z then Some "error status" else None;
  ReplClient.str_other := fun _ => "<value>";
  ReplClient.number_is_zero := fun literal => bool_decide (literal = "0");
  ReplClient.as_bool := fun v =>
    match v with ReplClient.JBool b => Some b | _ => None end;
  ReplClient.validation_text := fun model _ => "validation error for " +:+ model;
  ReplClient.mapping_text := fun _ _ => "argument after ** must be a mapping";
  ReplClient.decode_text := fun _ => "Expecting value";
  ReplClient.format_exc := fun _ => "Traceback (most recent call last): ..."
|}.

(** The response of the server to a path it rejects. *)
Definition rejected : ReplClient.response := {|
  ReplClient.status_code := 400;
  ReplClient.text := "{...}";
  ReplClient.decoded :=
    Some (ReplClient.JObject [("detail", ReplClient.JString "Invalid path")])
|}.

(** A copy that is refused. *)
Definition refused_copy : string -> string -> SE os_state unit :=
  fun _ _ => raise (OtherError "PermissionError" "Permission denied").

(** * Properties *)

(** ** Sanity checks of the text functions against Python *)

Example safe_dirname_examples :
  safe_dirname "abc" = "/tmp/genie_repl/abc" /\
  safe_dirname "../../etc" = "/tmp/genie_repl/______etc" /\
  safe_dirname "..." = "/tmp/genie_repl/__." /\
  safe_dirname "" = "/tmp/genie_repl/".
Proof. repeat split; vm_compute; reflexivity. Qed.

Example normpath_examples :
  posixpath.normpath "a//b/../c/." = "a/c" /\
  posixpath.normpath "../../etc/passwd" = "../../etc/passwd" /\
  posixpath.normpath "a/../../x" = "../x" /\
  posixpath.normpath "//etc" = "//etc" /\
  posixpath.normpath "///etc/.." = "/" /\
  posixpath.normpath "" = ".".
Proof. repeat split; vm_compute; reflexivity. Qed.

Example safe_rel_path_examples :
  safe_rel_path "../../etc/passwd" = Raise (ValueError "Invalid path") /\
  safe_rel_path ".." = Raise (ValueError "Invalid path: Parent traversal not allowed") /\
  safe_rel_path "/etc/passwd" = Raise (ValueError "Invalid path") /\
  safe_rel_path "a/./b.txt" = Ok "a/b.txt".
Proof. repeat split; vm_compute; reflexivity. Qed.

Example dirname_examples :
  dirname "/tmp/genie_repl/s/a/b.txt" = "/tmp/genie_repl/s/a" /\
  dirname "b.txt" = "" /\ dirname "//" = "//" /\ dirname "a//b" = "a".
Proof. repeat split; vm_compute; reflexivity. Qed.

Example finditer_examples :
  finditer "a=2, b=3" = [("a", "2"); ("b", "3")] /\
  finditer "nums = [1, 2, 3], target=9" = [("nums", "[1, 2, 3]"); ("target", "9")] /\
  finditer "x = 'a=b', y=2" = [("x", "'a=b'"); ("y", "2")] /\
  finditer "a = 1 , b = 2" = [("a", "1 "); ("b", "2")] /\
  finditer "a=   " = [("a", " ")] /\
  finditer "ab==c" = [("ab", "=c")] /\
  finditer "[1, 2, 3]" = [].
Proof. repeat split; vm_compute; reflexivity. Qed.

(** ** The orchestrator *)

Section BatchFacts.
Context {R : PyRuntime}.
Variables (code entry_point : string) (mem_limit_mb cpu_seconds : Z).

Local Abbreviation fut := (fut_result code entry_point mem_limit_mb cpu_seconds).
Local Abbreviation loop := (collect_loop code entry_point mem_limit_mb cpu_seconds).
Local Abbreviation batch := (evaluate_cases code entry_point mem_limit_mb cpu_seconds).
Local Abbreviation body := (run_case_body code entry_point).
Local Abbreviation worker := (_run_single_case code entry_point).
Local Abbreviation own_result := (result_at code entry_point mem_limit_mb cpu_seconds).
Local Abbreviation own_results := (results_from code entry_point mem_limit_mb cpu_seconds).

Lemma collect_loop_unfold log cases : forall idx all_passed acc,
  loop log idx cases all_passed acc =
  match own_results log idx cases with
  | Ok rs => Ok (all_passed && forallb passed rs, acc ++ rs)
  | Raise e => Raise e
  end.
Proof.
  induction cases as [|case rest IH]; intros idx all_passed acc; simpl.
  - by rewrite andb_true_r, app_nil_r.
  - unfold result_at.
    destruct (collect case (fut log idx case)) as [r|e]; [|done].
    rewrite IH. destruct (own_results log (S idx) rest) as [rs|e]; [|done].
    simpl. by rewrite <- andb_assoc, <- app_assoc.
Qed.

Lemma evaluate_cases_unfold io_cases log :
  batch io_cases log =
  match own_results log 0 io_cases with
  | Ok rs => Ok (forallb passed rs, rs)
  | Raise e => Raise e
  end.
Proof. unfold evaluate_cases. by rewrite collect_loop_unfold. Qed.

Lemma result_at_fields log idx case r :
  own_result log idx case = Ok r ->
  case_index r = idx /\ input_text r = case !! "input".
Proof.
  unfold result_at. destruct (collect _ _); [|done]. by intros [= <-].
Qed.

Lemma results_from_shape log cases : forall idx rs,
  own_results log idx cases = Ok rs ->
  length rs = length cases /\
  map case_index rs = seq idx (length cases) /\
  map input_text rs = map (fun case : gmap string string => case !! "input") cases.
Proof.
  induction cases as [|c rest IH]; intros idx rs; simpl.
  - by intros [= <-].
  - destruct (own_result log idx c) as [r|e] eqn:Hr; [|done].
    destruct (own_results log (S idx) rest) as [rs'|e] eqn:Hrs; [|done].
    intros [= <-]. destruct (IH _ _ Hrs) as (Hl & Hi & Hin).
    destruct (result_at_fields _ _ _ _ Hr) as [Hci Hit].
    simpl. by rewrite Hl, Hi, Hin, Hci, Hit.
Qed.

Lemma results_from_lookup log cases : forall idx rs i case,
  own_results log idx cases = Ok rs ->
  cases !! i = Some case ->
  exists r, rs !! i = Some r /\ own_result log (idx + i) case = Ok r.
Proof.
  induction cases as [|c rest IH]; intros idx rs i case Hrs Hi; [done|].
  simpl in Hrs.
  destruct (own_result log idx c) as [r|e] eqn:Hr; [|done].
  destruct (own_results log (S idx) rest) as [rs'|e] eqn:Hrs'; [|done].
  injection Hrs as <-. destruct i as [|i]; simpl in *.
  - injection Hi as <-. exists r. by rewrite Nat.add_0_r.
  - destruct (IH _ _ _ _ Hrs' Hi) as (r' & Hl & Hr'). exists r'.
    split; [done|]. by replace (idx + S i) with (S idx + i) by lia.
Qed.

(** Whatever the cases and however the workers complete, what the
    collection loop returns, when it returns, has one result per case, in
    submission order: the ['case'] fields are 0, 1, ..., n-1 and the
    ['input'] fields are the cases' own input texts, position by
    position. *)
Lemma returned_batch_shape
    (io_cases : list (gmap string string)) (log : completion_log)
    (all_passed : bool) (case_results : list case_result) :
  batch io_cases log = Ok (all_passed, case_results) ->
  length case_results = length io_cases /\
  map case_index case_results = seq 0 (length io_cases) /\
  map input_text case_results
  = map (fun case : gmap string string => case !! "input") io_cases.
Proof.
  rewrite evaluate_cases_unfold.
  destruct (own_results log 0 io_cases) as [rs|e] eqn:Hrs; [|done].
  intros [= _ <-]. exact (results_from_shape log io_cases 0 rs Hrs).
Qed.

(** C2. The [all_passed] that [evaluate_cases] returns is the conjunction
    of the ['passed'] fields of the results it returns; an empty batch
    gives [(True, [])]. *)
Theorem all_passed_is_conjunction
    (io_cases : list (gmap string string)) (log : completion_log) :
  match batch io_cases log with
  | Ok (all_passed, case_results) => all_passed = forallb passed case_results
  | Raise _ => True
  end /\
  batch [] log = Ok (true, []).
Proof.
  rewrite evaluate_cases_unfold. split; [|done].
  by destruct (own_results log 0 io_cases).
Qed.

(** *** What the handlers contain, and what they do not *)

Lemma run_single_case_failure case s e s' :
  body case mem_limit_mb cpu_seconds s = (Raise e, s') ->
  worker case mem_limit_mb cpu_seconds s
  = (if is_exception e then Ok (failed_case case e) else Raise e, s').
Proof.
  intros H. unfold _run_single_case, try_except. rewrite H.
  by destruct (is_exception e).
Qed.

(** The result of a case depends on the log only through the entry of its
    own future. *)
Lemma result_at_own_future log log' idx case :
  find_completion log' idx = find_completion log idx ->
  own_result log' idx case = own_result log idx case.
Proof. intros H. unfold result_at, fut_result. by rewrite H. Qed.

(** A future still pending when its wait ends gives exactly the "Timeout"
    dict. *)
Lemma result_at_timeout log idx case :
  find_completion log idx = None ->
  own_result log idx case
  = Ok {| passed := false; got := PyNone;
          expected := of_get (case !! "output");
          error := Some "Timeout";
          case_index := idx; input_text := case !! "input" |}.
Proof. intros H. unfold result_at, fut_result. by rewrite H. Qed.

(** An [Exception] raised in the worker's [try] block gives a failed
    dict with the error text. *)
Lemma result_at_worker_exception log idx case w0 e s' :
  find_completion log idx = Some (Finished w0) ->
  body case mem_limit_mb cpu_seconds {| ps_world := w0; ps_trace := [] |}
    = (Raise e, s') ->
  is_exception e = true ->
  own_result log idx case
  = Ok {| passed := false; got := PyNone;
          expected := of_get (case !! "output");
          error := Some (exc_name e +:+ ": " +:+ exc_str e +:+ newline
                         +:+ py_format_exc e);
          case_index := idx; input_text := case !! "input" |}.
Proof.
  intros Hf Hb He. unfold result_at, fut_result.
  by rewrite Hf, (run_single_case_failure _ _ _ _ Hb), He.
Qed.

(** An [Exception] raised by the pool gives a failed dict too. *)
Lemma result_at_pool_exception log idx case e :
  find_completion log idx = Some (Broke e) ->
  is_exception e = true ->
  exists r, own_result log idx case = Ok r /\ passed r = false /\
            got r = PyNone /\ is_Some (error r).
Proof.
  intros Hf He. unfold result_at, fut_result. rewrite Hf.
  destruct e; simpl in *; try done; eauto 10.
Qed.

(** What is no [Exception] passes the worker's handler and the two of the
    collection loop: the batch is given up at the first such future. *)
Lemma exit_signal_leaves_worker case s e s' :
  body case mem_limit_mb cpu_seconds s = (Raise e, s') ->
  is_exception e = false ->
  worker case mem_limit_mb cpu_seconds s = (Raise e, s').
Proof. intros Hb He. by rewrite (run_single_case_failure _ _ _ _ Hb), He. Qed.

Lemma exit_signal_leaves_batch io_cases log i case w0 e s' :
  io_cases !! i = Some case ->
  find_completion log i = Some (Finished w0) ->
  body case mem_limit_mb cpu_seconds {| ps_world := w0; ps_trace := [] |}
    = (Raise e, s') ->
  is_exception e = false ->
  exists e', batch io_cases log = Raise e'.
Proof.
  intros Hi Hf Hb He. rewrite evaluate_cases_unfold.
  destruct (own_results log 0 io_cases) as [rs|e'] eqn:Hrs; [|eauto].
  destruct (results_from_lookup _ _ _ _ _ _ Hrs Hi) as (r & _ & Hr).
  unfold result_at, fut_result in Hr. simpl in Hr.
  rewrite Hf, (exit_signal_leaves_worker _ _ _ _ Hb He) in Hr. simpl in Hr.
  by destruct e.
Qed.

End BatchFacts.

(** The order in which the workers complete is not observed: two logs with
    the same completions, one per future, give the same batch. *)
Section CompletionOrder.
Context {R : PyRuntime}.

Lemma find_completion_perm (log log' : completion_log) (idx : nat) :
  Permutation log log' -> NoDup (map fst log) ->
  find_completion log idx = find_completion log' idx.
Proof.
  induction 1 as [|[j c] l l' Hp IH|[j c] [k d] l|l1 l2 l3 H12 IH12 H23 IH23];
    intros Hnd; simpl in *.
  - done.
  - apply NoDup_cons in Hnd as [_ Hnd]. by rewrite IH.
  - apply NoDup_cons in Hnd as [Hjk _].
    destruct (Nat.eqb_spec j idx), (Nat.eqb_spec k idx); try done.
    subst. exfalso. apply Hjk. set_solver.
  - rewrite IH12 by done. apply IH23.
    assert (Hm : Permutation (map fst l1) (map fst l2)) by (by apply Permutation_map).
    by rewrite <- Hm.
Qed.

Lemma collect_loop_perm code entry_point mem cpu (log log' : completion_log) cases :
  Permutation log log' -> NoDup (map fst log) ->
  forall idx all_passed acc,
  collect_loop code entry_point mem cpu log idx cases all_passed acc
  = collect_loop code entry_point mem cpu log' idx cases all_passed acc.
Proof.
  intros Hp Hnd. induction cases as [|c rest IH]; intros; simpl; [done|].
  unfold fut_result. rewrite (find_completion_perm log log' idx Hp Hnd).
  destruct (collect c _); [apply IH|done].
Qed.

Lemma evaluate_cases_completion_order code entry_point mem cpu
    (io_cases : list (gmap string string)) (log log' : completion_log) :
  Permutation log log' -> NoDup (map fst log) ->
  evaluate_cases code entry_point mem cpu io_cases log
  = evaluate_cases code entry_point mem cpu io_cases log'.
Proof. intros. by apply collect_loop_perm. Qed.

End CompletionOrder.

(** C3 on the code.  A case whose code calls [sys.exit]: [SystemExit] is
    no [Exception], so the worker's [except Exception] does not fold it
    into a dict, the future raises it again and the two handlers of the
    collection loop let it pass: [evaluate_cases] raises and returns no
    result, for this case or for its siblings.  Without that case the
    other two are reported as passed. *)
Theorem system_exit_leaves_the_batch :
  fst (_run_single_case (R := toy_runtime) quit_source "quit"
         (io_case "a=0" "0") 2048 4 toy_start)
  = Raise (ExitSignal "SystemExit" "3") /\
  evaluate_cases (R := toy_runtime) quit_source "quit" 2048 4
    quit_cases all_finished
  = Raise (ExitSignal "SystemExit" "3") /\
  evaluate_cases (R := toy_runtime) quit_source "quit" 2048 4
    [io_case "a=1" "1"; io_case "a=2" "2"] all_finished
  = Ok (true, [toy_passed 0 "a=1" 1; toy_passed 1 "a=2" 2]).
Proof. repeat split; vm_compute; reflexivity. Qed.

(** C1 on the code.  Two cases, the second of which calls [sys.exit]: the
    future of the first holds a passed result, the future of the second
    raises [SystemExit], which no handler of the collection loop catches,
    and [evaluate_cases] raises: two cases in, no result out.  This is the
    defect of C3. *)
Theorem exit_in_the_last_case_loses_the_first :
  result_at (R := toy_runtime) quit_source "quit" 2048 4 all_finished 0
    (io_case "a=1" "1")
  = Ok (toy_passed 0 "a=1" 1) /\
  fut_result (R := toy_runtime) quit_source "quit" 2048 4 all_finished 1
    (io_case "a=0" "0")
  = Raise (ExitSignal "SystemExit" "3") /\
  evaluate_cases (R := toy_runtime) quit_source "quit" 2048 4
    [io_case "a=1" "1"; io_case "a=0" "0"] all_finished
  = Raise (ExitSignal "SystemExit" "3").
Proof. repeat split; vm_compute; reflexivity. Qed.

(** ** Session directories and the path guard *)

Section PathFacts.
Local Arguments Ascii.eqb : simpl never.

Lemma app_cons c a b : String c a +:+ b = String c (a +:+ b).
Proof. reflexivity. Qed.

Lemma contains_cons sub c s :
  contains sub (String c s) = startswith (String c s) sub || contains sub s.
Proof. reflexivity. Qed.

Lemma replace_slash_cons c r :
  str_replace (String c r) "/" "_" =
  String (if Ascii.eqb "/" c then "_"%char else c) (str_replace r "/" "_").
Proof. unfold str_replace. simpl. by destruct (Ascii.eqb "/" c). Qed.

Lemma replace_slash_clean s : contains "/" (str_replace s "/" "_") = false.
Proof.
  induction s as [|c r IH]; [done|].
  rewrite replace_slash_cons, contains_cons, IH. simpl.
  destruct (Ascii.eqb_spec "/" c) as [<-|Hne]; [done|].
  by destruct (Ascii.eqb_spec "/" c).
Qed.

Lemma dots_nil : dots "" = "".
Proof. reflexivity. Qed.

Lemma dots_dotdot r : dots (String "." (String "." r)) = String "_" (String "_" (dots r)).
Proof. reflexivity. Qed.

Lemma dots_other c r :
  startswith (String c r) ".." = false ->
  dots (String c r) = String c (dots r).
Proof. unfold dots, str_replace. cbn [replace_go]. by intros ->. Qed.

Lemma startswith_dotdot_inv s :
  startswith s ".." = true -> exists r, s = String "." (String "." r).
Proof.
  destruct s as [|c [|d r]]; simpl; try done.
  - by destruct (Ascii.eqb "." c).
  - destruct (Ascii.eqb_spec "." c) as [<-|]; [|done].
    destruct (Ascii.eqb_spec "." d) as [<-|]; [|done]. eauto.
Qed.

Lemma dots_cases s :
  s = "" \/ (exists r, s = String "." (String "." r)) \/
  (exists c r, s = String c r /\ startswith s ".." = false).
Proof.
  destruct s as [|c r]; [by left|right].
  destruct (startswith (String c r) "..") eqn:E.
  - left. by apply startswith_dotdot_inv.
  - right. eauto.
Qed.

Lemma string_length_ind (P : string -> Prop) :
  (forall s, (forall t, String.length t < String.length s -> P t) -> P s) ->
  forall s, P s.
Proof.
  intros H s. remember (String.length s) as n eqn:Hn.
  revert s Hn. induction (lt_wf n) as [n _ IH]. intros s ->.
  apply H. intros t Ht. by eapply IH.
Qed.

Lemma dots_head s :
  startswith (dots s) "." = true -> startswith s "." = true.
Proof.
  destruct (dots_cases s) as [->|[[r ->]|(c & r & -> & Hno)]]; try done.
  rewrite (dots_other _ _ Hno). done.
Qed.

Lemma dots_clean s : contains ".." (dots s) = false.
Proof.
  induction s as [s IH] using string_length_ind.
  destruct (dots_cases s) as [->|[[r ->]|(c & r & -> & Hno)]].
  - done.
  - rewrite dots_dotdot, !contains_cons. simpl. apply IH. simpl. lia.
  - rewrite (dots_other _ _ Hno), contains_cons, IH by (simpl; lia).
    rewrite orb_false_r. simpl.
    destruct (Ascii.eqb_spec "." c) as [<-|]; [|done].
    destruct (startswith (dots r) ".") eqn:E; [|simpl in E |- *].
    + apply dots_head in E. simpl in Hno.
      destruct r as [|d r]; [done|]. simpl in *.
      destruct (Ascii.eqb "." d); done.
    + destruct (dots r) as [|d t]; [done|].
      destruct (Ascii.eqb "." d); done.
Qed.

Lemma dots_keeps_clean s : contains "/" s = false -> contains "/" (dots s) = false.
Proof.
  induction s as [s IH] using string_length_ind. intros Hs.
  destruct (dots_cases s) as [->|[[r ->]|(c & r & -> & Hno)]].
  - done.
  - rewrite dots_dotdot, !contains_cons. simpl. apply IH; [simpl; lia|].
    rewrite !contains_cons in Hs. simpl in Hs. done.
  - rewrite (dots_other _ _ Hno), contains_cons.
    rewrite contains_cons in Hs. apply orb_false_iff in Hs as [H1 H2].
    rewrite IH by (done || simpl; lia). rewrite orb_false_r. exact H1.
Qed.

Lemma contains_false_head sub s : contains sub s = false -> startswith s sub = false.
Proof. destruct s; simpl; intros H; by apply orb_false_iff in H as [? _]. Qed.

Lemma rev_app_append a : forall b r, String.rev_app a b +:+ r = String.rev_app a (b +:+ r).
Proof. induction a as [|c a IH]; intros; simpl; [done|]. by rewrite IH. Qed.

Lemma split_go_clean s : forall cur,
  contains "/" s = false ->
  split_go posixpath.sep cur s = [String.rev cur +:+ s].
Proof.
  induction s as [|c r IH]; intros cur Hs.
  - simpl. unfold String.rev. by rewrite rev_app_append.
  - rewrite contains_cons in Hs. apply orb_false_iff in Hs as [Hc Hr].
    simpl in Hc. simpl. unfold posixpath.sep.
    rewrite Ascii.eqb_sym. destruct (Ascii.eqb "/" c); [done|].
    rewrite IH by done. unfold String.rev. simpl.
    by rewrite !rev_app_append.
Qed.

Lemma root_child_eq name : root_child name = TMP_ROOT +:+ "/" +:+ name.
Proof. reflexivity. Qed.

Lemma join2_root name :
  contains "/" name = false -> posixpath.join2 TMP_ROOT name = root_child name.
Proof.
  intros H. unfold posixpath.join2. by rewrite (contains_false_head _ _ H).
Qed.

Lemma normpath_root_child name :
  contains "/" name = false -> contains ".." name = false ->
  posixpath.normpath (root_child name) =
    if bool_decide (name = "") || bool_decide (name = ".") then TMP_ROOT
    else root_child name.
Proof.
  intros Hs Hd. unfold posixpath.normpath.
  change (bool_decide (root_child name = "")) with false. cbv iota.
  change (posixpath.initial_slashes (root_child name)) with 1.
  change (split (root_child name) posixpath.sep)
    with ("" :: "tmp" :: "genie_repl" :: split_go posixpath.sep "" name).
  rewrite (split_go_clean name "" Hs).
  change (String.rev "" +:+ name) with name.
  change (fold_left (posixpath.normpath_step 1) ["" ; "tmp"; "genie_repl"; name] [])
    with (posixpath.normpath_step 1 ["genie_repl"; "tmp"] name).
  unfold posixpath.normpath_step.
  destruct (bool_decide (name = "") || bool_decide (name = ".")); [done|].
  assert (Hne : name <> "..") by (intros ->; done).
  rewrite (bool_decide_eq_false_2 _ Hne). simpl. done.
Qed.

Lemma abspath_absolute cwd p :
  startswith p "/" = true -> posixpath.abspath cwd p = posixpath.normpath p.
Proof. intros H. unfold posixpath.abspath. by rewrite H. Qed.

(** The shape of a session directory: the root, a slash, a clean name. *)
Lemma safe_dirname_shape (session_id : string) :
  let name := str_replace (str_replace session_id "/" "_") ".." "__" in
  safe_dirname session_id = root_child name /\
  contains "/" name = false /\
  contains ".." name = false.
Proof.
  intros name.
  assert (Hs : contains "/" name = false).
  { apply dots_keeps_clean, replace_slash_clean. }
  split; [|split; [done|apply dots_clean]].
  unfold safe_dirname. fold name. by apply join2_root.
Qed.

Lemma abspath_root_child cwd name :
  contains "/" name = false -> contains ".." name = false ->
  posixpath.abspath cwd (root_child name)
  = (if bool_decide (name = "") || bool_decide (name = ".")
     then TMP_ROOT else root_child name).
Proof.
  intros Hs Hd. rewrite abspath_absolute by done. by apply normpath_root_child.
Qed.

Lemma startswith_app p s : startswith (p +:+ s) p = true.
Proof.
  induction p as [|c p IH]; [done|]. rewrite app_cons. simpl.
  rewrite Ascii.eqb_refl. exact IH.
Qed.

Lemma startswith_app_l p x y : startswith x p = true -> startswith (x +:+ y) p = true.
Proof.
  revert x. induction p as [|c p IH]; intros x; [done|].
  destruct x as [|d x]; [done|]. rewrite app_cons. simpl.
  destruct (Ascii.eqb c d); [apply IH|done].
Qed.

Lemma startswith_refl p : startswith p p = true.
Proof. induction p as [|c p IH]; [done|]. simpl. by rewrite Ascii.eqb_refl. Qed.

Lemma string_app_assoc a b c : (a +:+ b) +:+ c = a +:+ (b +:+ c).
Proof. induction a as [|x a IH]; [done|]. rewrite !app_cons. by rewrite IH. Qed.

Lemma string_app_nil_r a : a +:+ "" = a.
Proof. induction a as [|x a IH]; [done|]. rewrite app_cons. by rewrite IH. Qed.

(** splitting a text whose first component is known *)
Lemma split_go_first name : forall cur r,
  contains "/" name = false ->
  split_go posixpath.sep cur (name +:+ String posixpath.sep r)
  = (String.rev cur +:+ name) :: split_go posixpath.sep "" r.
Proof.
  induction name as [|c name IH]; intros cur r Hs.
  - change ("" +:+ String posixpath.sep r) with (String posixpath.sep r).
    simpl. by rewrite string_app_nil_r.
  - rewrite contains_cons in Hs. apply orb_false_iff in Hs as [Hc Hr].
    simpl in Hc. rewrite app_cons. simpl. unfold posixpath.sep at 1.
    rewrite Ascii.eqb_sym. destruct (Ascii.eqb "/" c); [done|].
    rewrite IH by done. unfold String.rev. simpl.
    by rewrite !rev_app_append.
Qed.


Lemma normpath_fold_no_dotdot slashes comps : forall stack,
  ".." ∉ comps ->
  fold_left (posixpath.normpath_step slashes) comps stack
  = rev (kept comps) ++ stack.
Proof.
  induction comps as [|c rest IH]; intros stack Hno; [done|].
  apply not_elem_of_cons in Hno as [Hc Hrest].
  cbn [fold_left]. rewrite IH by done. unfold kept.
  unfold posixpath.normpath_step.
  destruct (decide (c = "")) as [->|Hne].
  { rewrite filter_cons_False by (by intros [? ?]). done. }
  destruct (decide (c = ".")) as [->|Hnd].
  { rewrite filter_cons_False by (by intros [? ?]). done. }
  rewrite (bool_decide_eq_false_2 _ Hne), (bool_decide_eq_false_2 _ Hnd).
  assert (Hc' : c <> "..") by congruence.
  rewrite (bool_decide_eq_false_2 _ Hc'). simpl.
  rewrite filter_cons_True by done. simpl. by rewrite <- app_assoc.
Qed.


Lemma root_split x :
  split (root_child x) posixpath.sep
  = "" :: "tmp" :: "genie_repl" :: split_go posixpath.sep "" x.
Proof. reflexivity. Qed.

Lemma normpath_under_root x :
  ".." ∉ split x posixpath.sep ->
  posixpath.normpath (root_child x)
  = "/" +:+ join "/" ("tmp" :: "genie_repl" :: kept (split x posixpath.sep)).
Proof.
  intros Hno. unfold posixpath.normpath.
  change (bool_decide (root_child x = "")) with false. cbv iota.
  change (posixpath.initial_slashes (root_child x)) with 1.
  rewrite root_split.
  change (fold_left (posixpath.normpath_step 1)
            ("" :: "tmp" :: "genie_repl" :: split_go posixpath.sep "" x) [])
    with (fold_left (posixpath.normpath_step 1) (split x posixpath.sep)
            ["genie_repl"; "tmp"]).
  rewrite normpath_fold_no_dotdot by done.
  rewrite rev_app_distr, rev_involutive.
  change (rev ["genie_repl"; "tmp"] ++ kept (split x posixpath.sep))
    with ("tmp" :: "genie_repl" :: kept (split x posixpath.sep)).
  reflexivity.
Qed.

Lemma startswith_rev_app s : forall acc,
  startswith (String.rev_app s acc) "/" = true ->
  contains "/" s = true \/ (s = "" /\ startswith acc "/" = true).
Proof.
  induction s as [|c s IH]; intros acc H; [by right|]. left.
  simpl in H. apply IH in H as [H|[-> H]].
  - rewrite contains_cons, H. apply orb_true_r.
  - simpl in H. rewrite contains_cons. simpl. by destruct (Ascii.eqb "/" c).
Qed.

Lemma rev_app_app a : forall b acc,
  String.rev_app (a +:+ b) acc = String.rev_app b (String.rev_app a acc).
Proof. induction a as [|c a IH]; intros; [done|]. rewrite app_cons. simpl. apply IH. Qed.

(** the target of an endpoint, in terms of the name of the session *)
Lemma join2_session name r :
  contains "/" name = false -> startswith r "/" = false ->
  posixpath.join2 (root_child name) r
  = root_child (if bool_decide (name = "") then r else name +:+ "/" +:+ r).
Proof.
  intros Hname Hr. case_bool_decide as Hn.
  - subst. unfold posixpath.join2. rewrite Hr. reflexivity.
  - assert (E : startswith (String.rev (root_child name)) "/" = false).
    { destruct (startswith (String.rev (root_child name)) "/") eqn:E; [|done].
      exfalso. unfold String.rev in E.
      change (root_child name) with ("/tmp/genie_repl/" +:+ name) in E.
      rewrite rev_app_app in E.
      apply startswith_rev_app in E as [E|[E _]]; congruence. }
    unfold posixpath.join2. rewrite Hr, E.
    change (bool_decide (root_child name = "")) with false. reflexivity.
Qed.

Lemma join_under_root l :
  startswith ("/" +:+ join "/" ("tmp" :: "genie_repl" :: l)) TMP_ROOT = true.
Proof. by destruct l. Qed.

Lemma join_under_session name l :
  startswith ("/" +:+ join "/" ("tmp" :: "genie_repl" :: name :: l)) (root_child name)
  = true.
Proof.
  destruct l as [|a l].
  - apply startswith_refl.
  - change ("/" +:+ join "/" ("tmp" :: "genie_repl" :: name :: a :: l))
      with (root_child (name +:+ "/" +:+ join "/" (a :: l))).
    change (root_child (name +:+ "/" +:+ join "/" (a :: l)))
      with ("/tmp/genie_repl/" +:+ name +:+ "/" +:+ join "/" (a :: l)).
    change (root_child name) with ("/tmp/genie_repl/" +:+ name).
    rewrite <- string_app_assoc. apply startswith_app.
Qed.

(** Once [safe_rel_path] has let a path through, the comparison of the
    two [abspath] texts cannot fail: it looks at nothing but the text. *)
Lemma prefix_check_passes cwd session_id rel_path rel :
  safe_rel_path rel_path = Ok rel ->
  startswith (posixpath.abspath cwd (posixpath.join2 (safe_dirname session_id) rel))
             (posixpath.abspath cwd (safe_dirname session_id))
  = true.
Proof.
  intros Hrel. unfold safe_rel_path in Hrel.
  destruct (startswith (posixpath.normpath rel_path) "../"
            || startswith (posixpath.normpath rel_path) "/") eqn:E; [done|].
  apply orb_false_iff in E as [_ Habs].
  case_bool_decide as Hdd; [done|]. injection Hrel as <-.
  set (r := posixpath.normpath rel_path) in *.
  destruct (safe_dirname_shape session_id) as (Hw & Hslash & Hdots).
  set (name := str_replace (str_replace session_id "/" "_") ".." "__") in *.
  rewrite Hw, abspath_root_child, join2_session by done.
  rewrite abspath_absolute by (by case_bool_decide).
  assert (Hname : name <> "..") by (intros Heq; rewrite Heq in Hdots; done).
  destruct (decide (name = "")) as [Hn|Hn].
  - rewrite !(bool_decide_eq_true_2 _ Hn). simpl orb. cbv iota.
    rewrite normpath_under_root by done. apply join_under_root.
  - rewrite !(bool_decide_eq_false_2 _ Hn). simpl orb.
    assert (Hsplit : split (name +:+ "/" +:+ r) posixpath.sep
                     = name :: split r posixpath.sep).
    { unfold split.
      change (name +:+ "/" +:+ r) with (name +:+ String posixpath.sep r).
      by rewrite (split_go_first name "" r Hslash). }
    rewrite normpath_under_root; rewrite Hsplit;
      [|apply not_elem_of_cons; split; [congruence|done]].
    unfold kept. destruct (decide (name = ".")) as [Hd|Hd].
    + rewrite (bool_decide_eq_true_2 _ Hd).
      rewrite filter_cons_False by (by intros [? ?]). apply join_under_root.
    + rewrite (bool_decide_eq_false_2 _ Hd).
      rewrite filter_cons_True by done. apply join_under_session.
Qed.

End PathFacts.


(** ** The file endpoints *)

Section FileFacts.

Lemma safe_rel_path_raises p e :
  safe_rel_path p = Raise e -> exists msg, e = ValueError msg.
Proof.
  unfold safe_rel_path. repeat case_match; intros [= <-]; eauto.
Qed.

Lemma safe_rel_path_guard p :
  startswith (posixpath.normpath p) "/" = true \/
  ".." ∈ split (posixpath.normpath p) posixpath.sep ->
  exists msg, safe_rel_path p = Raise (ValueError msg).
Proof.
  intros H. unfold safe_rel_path.
  destruct (startswith (posixpath.normpath p) "../"
            || startswith (posixpath.normpath p) "/") eqn:E; [eauto|].
  apply orb_false_iff in E as [_ E].
  destruct H as [H|H]; [congruence|].
  rewrite bool_decide_eq_true_2 by done. eauto.
Qed.

Lemma write_file_invalid req os msg :
  safe_rel_path (wf_rel_path req) = Raise (ValueError msg) ->
  write_file req os = (Raise (HTTPException 400 msg), os).
Proof.
  intros H. unfold write_file, except_400_500, try_except, bind, lift.
  by rewrite H.
Qed.


Lemma safe_rel_path_ok p rel :
  safe_rel_path p = Ok rel -> rel = posixpath.normpath p.
Proof. unfold safe_rel_path. repeat case_match; by intros [= <-]. Qed.

(** The part of the path check that works.  A write whose normalised
    relative path is absolute or has a parent-directory segment fails with
    status 400 (path-invalid) and leaves the file tree as it was; a path
    that [safe_rel_path], which reads the text of the path and nothing of
    the tree, lets through goes on to [makedirs] and [open] whatever the
    tree holds, the comparison of the two [abspath] texts never failing. *)
Lemma write_file_rejects_lexical_escape (req : WriteFileRequest) (os : os_state) :
  let rel := posixpath.normpath (wf_rel_path req) in
  let target :=
    posixpath.abspath (os_cwd os) (posixpath.join2 (safe_dirname (wf_id req)) rel) in
  (startswith rel "/" = true \/ ".." ∈ split rel posixpath.sep ->
   exists detail, write_file req os = (Raise (HTTPException 400 detail), os)) /\
  (is_ok (safe_rel_path (wf_rel_path req)) = true ->
   write_file req os
   = except_400_500
       (do _ <- os_makedirs (dirname target);
        do _ <- os_write_text target (wf_content req);
        ret {| pr_success := true; pr_id := wf_id req;
               pr_rel_path := wf_rel_path req |}) os).
Proof.
  split.
  - intros H. destruct (safe_rel_path_guard _ H) as [msg Hmsg].
    exists msg. by apply write_file_invalid.
  - intros Hok.
    destruct (safe_rel_path (wf_rel_path req)) as [rel'|e] eqn:E; [|done].
    pose proof (safe_rel_path_ok _ _ E) as ->.
    unfold write_file, except_400_500, try_except, bind, lift, os_abspath.
    rewrite E. cbv beta iota zeta.
    rewrite (prefix_check_passes _ _ _ _ E). reflexivity.
Qed.

End FileFacts.

Lemma lexical_escape_is_rejected :
  exists detail,
    write_file {| wf_id := "s"; wf_rel_path := "../../etc/passwd";
                  wf_content := "x" |} linked_os
    = (Raise (HTTPException 400 detail), linked_os).
Proof.
  apply (write_file_rejects_lexical_escape
           {| wf_id := "s"; wf_rel_path := "../../etc/passwd"; wf_content := "x" |}
           linked_os).
  right. vm_compute. set_solver.
Qed.

(** C4 on the code.  The session "s" holds a link to "/etc" (a command
    run in the session can make one).  The target of this write resolves,
    through the link, to "/etc/passwd" outside the session root; the
    check that is to "prevent writes outside session dir" compares
    [abspath] texts, which follow no link: the write is not rejected and
    the file outside the root is overwritten. *)
Theorem write_file_follows_symlink :
  let req := {| wf_id := "s"; wf_rel_path := "link/passwd";
                wf_content := "overwritten" |} in
  realpath (os_tree linked_os) (safe_dirname "s")
    = Some ["tmp"; "genie_repl"; "s"] /\
  realpath (os_tree linked_os)
    (posixpath.join2 (safe_dirname "s") (posixpath.normpath "link/passwd"))
    = Some ["etc"; "passwd"] /\
  fst (write_file req linked_os)
    = Ok {| pr_success := true; pr_id := "s"; pr_rel_path := "link/passwd" |} /\
  os_tree linked_os !! ["etc"; "passwd"] = Some (File "root") /\
  os_tree (snd (write_file req linked_os)) !! ["etc"; "passwd"]
    = Some (File "overwritten").
Proof. repeat split; vm_compute; reflexivity. Qed.


Section FileKinds.

Lemma delete_file_absent req os rel :
  safe_rel_path (df_rel_path req) = Ok rel ->
  os_isfile os (posixpath.abspath (os_cwd os)
                  (posixpath.join2 (safe_dirname (df_id req)) rel)) = false ->
  exists detail, delete_file req os = (Raise (HTTPException 500 detail), os).
Proof.
  intros Hrel Habsent.
  unfold delete_file, except_400_500, try_except, bind, lift, raise, ret,
    os_abspath, isfile.
  rewrite Hrel. cbv beta iota zeta.
  destruct (negb (startswith _ _)); simpl; [eauto|].
  rewrite Habsent. simpl. eauto.
Qed.

Lemma rename_file_absent req os old_rel new_rel :
  safe_rel_path (rn_old_path req) = Ok old_rel ->
  safe_rel_path (rn_new_path req) = Ok new_rel ->
  os_isfile os (posixpath.join2 (safe_dirname (rn_id req)) old_rel) = false ->
  exists detail, rename_file req os = (Raise (HTTPException 500 detail), os).
Proof.
  intros Hold Hnew Habsent.
  unfold rename_file, except_400_500, try_except, bind, lift, raise, ret,
    os_abspath, isfile.
  rewrite Hold, Hnew. cbv beta iota zeta.
  destruct (negb (startswith _ _) || negb (startswith _ _)); simpl; [eauto|].
  rewrite Habsent. simpl. eauto.
Qed.

End FileKinds.

(** C6 on the code.  Deleting or renaming a file that is not there: the
    handler raises the 404 inside its own [try], the [except Exception]
    clause catches it and answers 500.  [read_file], which has no such
    clause, answers 404. *)
Theorem absent_file_reports_500 :
  delete_file {| df_id := "s"; df_rel_path := "missing.txt" |} linked_os
    = (Raise (HTTPException 500 "404: File does not exist"), linked_os) /\
  rename_file {| rn_id := "s"; rn_old_path := "missing.txt";
                 rn_new_path := "b.txt" |} linked_os
    = (Raise (HTTPException 500 "404: Old file does not exist"), linked_os) /\
  read_file "s" "missing.txt" linked_os
    = (Raise (HTTPException 404 "File does not exist"), linked_os) /\
  failure_of (fst (delete_file {| df_id := "s"; df_rel_path := "missing.txt" |}
                     linked_os)) = Some IOFailure.
Proof. repeat split; vm_compute; reflexivity. Qed.

(** ** The command runner *)

Section RunnerFacts.
Variable subprocess_run : string -> string -> SE os_state (string * string).
Variable format_exc : exc -> string.

Local Abbreviation run := (run_command subprocess_run format_exc).

(** C5, as the code has it.  When the session directory exists, the call
    returns a response and raises nothing: the captured streams with status
    200 when [subprocess.run] returns, and an empty stdout with the text
    "Exception running command: ..." in stderr, status 500, when it raises
    (a timeout included); what [subprocess.run] raises is taken to be an
    [Exception], as [TimeoutExpired] and [OSError] are. *)
Theorem run_command_returns_streams (req : RunCommandRequest) (os : os_state) :
  os_isdir os (safe_dirname (rc_id req)) = true ->
  (forall e os',
     subprocess_run (rc_cmd req) (safe_dirname (rc_id req)) os = (Raise e, os') ->
     is_exception e = true) ->
  (exists resp os', run req os = (Ok resp, os')) /\
  (forall out err os',
     subprocess_run (rc_cmd req) (safe_dirname (rc_id req)) os = (Ok (out, err), os') ->
     run req os = (Ok {| status_code := 200; stdout := out; stderr := err;
                         resp_id := rc_id req |}, os')) /\
  (forall e os',
     subprocess_run (rc_cmd req) (safe_dirname (rc_id req)) os = (Raise e, os') ->
     run req os = (Ok {| status_code := 500; stdout := "";
                         stderr := "Exception running command: " +:+ exc_str e
                                   +:+ String "010"%char (format_exc e);
                         resp_id := rc_id req |}, os')).
Proof.
  intros Hdir Hexc.
  unfold run_command, bind, isdir, try_except, ret. rewrite Hdir. simpl.
  destruct (subprocess_run (rc_cmd req) (safe_dirname (rc_id req)) os)
    as [[[out err]|e] os1] eqn:E; simpl.
  - split; [eauto|]. split; [by intros ? ? ? [= <- <- <-]|done].
  - rewrite (Hexc e os1 eq_refl).
    split; [eauto|]. split; [done|by intros ? ? [= <- <-]].
Qed.

End RunnerFacts.

Lemma run_command_returns_streams_witness :
  exists resp os',
    run_command slow_shell plain_traceback
      {| rc_id := "s"; rc_cmd := "sleep 60" |} linked_os = (Ok resp, os').
Proof.
  apply (run_command_returns_streams slow_shell plain_traceback
           {| rc_id := "s"; rc_cmd := "sleep 60" |} linked_os).
  - vm_compute. reflexivity.
  - intros e os'. unfold slow_shell, raise. by intros [= <- _].
Defined.

(** C5 as stated fails: for a session id that has no directory the call
    raises the 400 error instead of returning stdout and stderr. *)
Lemma run_command_missing_session :
  run_command slow_shell plain_traceback
    {| rc_id := "nobody"; rc_cmd := "ls" |} linked_os
  = (Raise (HTTPException 400 "Session does not exist"), linked_os).
Proof. vm_compute. reflexivity. Qed.


(** ** The worker *)

Section WorkerFacts.
Context {R : PyRuntime}.

Lemma appends_ret {A} P (a : A) : appends P (ret a).
Proof. intros s. exists []. by rewrite app_nil_r. Qed.

Lemma appends_raise {A} P e : appends P (@raise pstate A e).
Proof. intros s. exists []. by rewrite app_nil_r. Qed.

Lemma appends_bind {A B} P (m : SE pstate A) (k : A -> SE pstate B) :
  appends P m -> (forall a, appends P (k a)) -> appends P (bind m k).
Proof.
  intros Hm Hk s. unfold bind. destruct (Hm s) as (t & Ht & HP).
  destruct (m s) as [[a|e] s1]; simpl in *.
  - destruct (Hk a s1) as (t' & Ht' & HP'). exists (t ++ t').
    rewrite Ht', Ht, app_assoc. split; [done|]. by apply Forall_app.
  - eauto.
Qed.

Lemma appends_try {A} P (m : SE pstate A) (h : exc -> SE pstate A) :
  appends P m -> (forall e, appends P (h e)) -> appends P (try_except m h).
Proof.
  intros Hm Hh s. unfold try_except. destruct (Hm s) as (t & Ht & HP).
  destruct (m s) as [[a|e] s1]; simpl in *.
  - eauto.
  - destruct (is_exception e); [|by eauto].
    destruct (Hh e s1) as (t' & Ht' & HP'). exists (t ++ t').
    rewrite Ht', Ht, app_assoc. split; [done|]. by apply Forall_app.
Qed.

Lemma appends_logged {A} (P : event -> Prop) c (m : SE world A) :
  (forall ok, P {| ev_call := c; ev_ok := ok |}) -> appends P (logged c m).
Proof.
  intros HP s. unfold logged. destruct (m (ps_world s)) as [r w]. simpl.
  eexists. split; [done|]. by constructor.
Qed.

Lemma appends_getitem {V} P (d : gmap string V) key : appends P (getitem d key).
Proof. unfold getitem. destruct (d !! key); [apply appends_ret|apply appends_raise]. Qed.

Lemma appends_if {A} P (b : bool) (m1 m2 : SE pstate A) :
  appends P m1 -> appends P m2 -> appends P (if b then m1 else m2).
Proof. by destruct b. Qed.

Lemma appends_lookup_all P params names : appends P (lookup_all params names).
Proof.
  induction names as [|a rest IH]; simpl; [apply appends_ret|].
  apply appends_bind; [apply appends_getitem|]. intros x.
  apply appends_bind; [apply IH|]. intros xs. apply appends_ret.
Qed.

Lemma appends_parse_kw_loop P ms :
  (forall text ok, P {| ev_call := LiteralEval text; ev_ok := ok |}) ->
  forall out, appends P (parse_kw_loop ms out).
Proof.
  intros HP. induction ms as [|[g1 g2] rest IH]; intros out; simpl.
  - apply appends_ret.
  - apply appends_bind; [|intros; apply IH].
    apply appends_try; [|intros; apply appends_ret].
    apply appends_bind; [|intros; apply appends_ret].
    by apply appends_logged.
Qed.

Lemma appends_parse_list P input :
  (forall text ok, P {| ev_call := LiteralEval text; ev_ok := ok |}) ->
  appends P (_parse_list input).
Proof.
  intros HP. apply appends_try; [|intros; apply appends_ret].
  apply appends_bind; [|intros; apply appends_ret].
  by apply appends_logged.
Qed.

Lemma appends_invoke code entry_point case :
  appends (after_limits code entry_point case) (invoke entry_point case).
Proof.
  unfold invoke.
  repeat first
    [ apply appends_bind; [|intros]
    | apply appends_if
    | apply appends_getitem
    | apply appends_ret
    | apply appends_lookup_all
    | apply appends_parse_kw_loop; intros
    | apply appends_parse_list; intros
    | apply appends_logged; intros
    | by (unfold after_limits; simpl; auto) ].
Qed.

Lemma appends_verdict code entry_point case got :
  appends (after_limits code entry_point case) (verdict case got).
Proof.
  unfold verdict.
  apply appends_bind; [|intros; apply appends_bind;
                         [by apply appends_logged|intros; apply appends_ret]].
  apply appends_try; [|intros].
  - unfold getitem. destruct (case !! "output"); [|apply appends_raise].
    unfold bind at 1, ret. by apply appends_logged.
  - unfold getitem. destruct (case !! "output") eqn:E; [|apply appends_raise].
    unfold bind at 1, ret. apply appends_logged. intros. right. done.
Qed.

(** The three ways the limits block can go. *)
Lemma self_limit_cases mem cpu w0 :
  let out := self_limit mem cpu {| ps_world := w0; ps_trace := [] |} in
  (is_ok (fst out) = false /\ ps_trace (snd out) = [limit_as mem false]) \/
  (is_ok (fst out) = false /\
   ps_trace (snd out) = [limit_as mem true; limit_cpu cpu false]) \/
  (is_ok (fst out) = true /\
   ps_trace (snd out) = [limit_as mem true; limit_cpu cpu true]).
Proof.
  unfold self_limit, bind, setrlimit, logged; simpl.
  destruct (py_setrlimit RLIMIT_AS _ _ w0) as [[[]|e] w1]; simpl; [|by left].
  right.
  destruct (py_setrlimit RLIMIT_CPU _ _ w1) as [[[]|e] w2]; simpl; [by right|by left].
Qed.

Lemma worker_trace code entry_point case mem cpu w0 :
  let s0 := {| ps_world := w0; ps_trace := [] |} in
  exists t,
    ps_trace (snd (_run_single_case code entry_point case mem cpu s0))
    = ps_trace (snd (self_limit mem cpu s0)) ++ t /\
    Forall (after_limits code entry_point case) t /\
    (is_ok (fst (self_limit mem cpu s0)) = false -> t = []).
Proof.
  intros s0. unfold _run_single_case, try_except, run_case_body.
  unfold bind at 1.
  destruct (self_limit mem cpu s0) as [[[]|e] s1]; simpl.
  - assert (Hrest : appends (after_limits code entry_point case)
              (do _ <- exec code; do got <- invoke entry_point case;
               verdict case got)).
    { apply appends_bind; [by apply appends_logged|intros].
      apply appends_bind; [apply appends_invoke|intros].
      apply appends_verdict. }
    destruct (Hrest s1) as (t & Ht & HP). exists t.
    split; [|by split].
    destruct (bind _ _ s1) as [[r|e] s2]; [done|].
    by destruct (is_exception e).
  - exists []. rewrite app_nil_r. by destruct (is_exception e).
Qed.

(** C7. In a run of the worker, whatever the interpreter answers, an event
    that is not a [setrlimit] call (the [exec] of the submitted source
    among them) comes after two successful calls: the address-space limit
    with soft = hard = [mem_limit_mb * 1024 * 1024] bytes, and the CPU
    limit with soft = [cpu_seconds] and hard = [cpu_seconds + 1]. *)
Theorem limits_precede_user_code (code entry_point : string)
    (case : gmap string string) (mem_limit_mb cpu_seconds : Z)
    (w0 : world) (i : nat) (ev : event) :
  let trace :=
    ps_trace (snd (_run_single_case code entry_point case mem_limit_mb
                     cpu_seconds {| ps_world := w0; ps_trace := [] |})) in
  trace !! i = Some ev ->
  (forall r soft hard, ev_call ev <> Setrlimit r soft hard) ->
  trace !! 0 = Some {| ev_call := Setrlimit RLIMIT_AS
                                    (mem_limit_mb * 1024 * 1024)
                                    (mem_limit_mb * 1024 * 1024);
                       ev_ok := true |} /\
  trace !! 1 = Some {| ev_call := Setrlimit RLIMIT_CPU cpu_seconds
                                    (cpu_seconds + 1);
                       ev_ok := true |} /\
  2 <= i.
Proof.
  intros trace Hi Hev. subst trace.
  destruct (worker_trace code entry_point case mem_limit_mb cpu_seconds w0)
    as (t & Ht & _ & Hnil).
  rewrite Ht in Hi |- *. clear Ht.
  destruct (self_limit_cases mem_limit_mb cpu_seconds w0) as [[Hf Hs]|[[Hf Hs]|[_ Hs]]];
    rewrite Hs in Hi |- *.
  - rewrite (Hnil Hf) in Hi. destruct i as [|[|i]]; simplify_eq/=.
    by destruct (Hev RLIMIT_AS (mem_limit_mb * 1024 * 1024)%Z
                   (mem_limit_mb * 1024 * 1024)%Z).
  - rewrite (Hnil Hf) in Hi. destruct i as [|[|[|i]]]; simplify_eq/=.
    + by destruct (Hev RLIMIT_AS (mem_limit_mb * 1024 * 1024)%Z
                     (mem_limit_mb * 1024 * 1024)%Z).
    + by destruct (Hev RLIMIT_CPU cpu_seconds (cpu_seconds + 1)%Z).
  - split; [done|]. split; [done|].
    destruct i as [|[|i]]; simplify_eq/=; [| |lia].
    + by destruct (Hev RLIMIT_AS (mem_limit_mb * 1024 * 1024)%Z
                     (mem_limit_mb * 1024 * 1024)%Z).
    + by destruct (Hev RLIMIT_CPU cpu_seconds (cpu_seconds + 1)%Z).
Qed.


(** *** Argument binding, in the words of the specification *)

Lemma calls_made_app t1 t2 : calls_made (t1 ++ t2) = calls_made t1 ++ calls_made t2.
Proof. apply omap_app. Qed.

(** *** The loop of [_parse_kw] *)

Lemma parse_kw_loop_run ms : forall out s,
  parse_kw_loop ms out s
  = (Ok (fold_left kw_step ms out),
     {| ps_world := ps_world s; ps_trace := ps_trace s ++ map kw_event ms |}).
Proof.
  induction ms as [|[g1 g2] rest IH]; intros out s; simpl.
  - unfold ret. rewrite app_nil_r. by destruct s.
  - unfold bind at 1, try_except, bind at 1, literal_eval, logged, lift, ret.
    unfold kw_step at 2, pair_of, kw_event at 1. simpl.
    destruct (py_literal_eval (strip g2)) as [x|e] eqn:E; simpl;
      [|rewrite (py_literal_eval_raises _ _ E)];
      rewrite IH; simpl; by rewrite <- app_assoc.
Qed.

Lemma omap_pair_cons m rest :
  omap pair_of (m :: rest)
  = match pair_of m with
    | Some p => p :: omap pair_of rest
    | None => omap pair_of rest
    end.
Proof. reflexivity. Qed.

Lemma kw_map_lookup ms name : forall out,
  fold_left kw_step ms out !! name
  = match last_value (omap pair_of ms) name with
    | Some y => Some y
    | None => out !! name
    end.
Proof.
  induction ms as [|m rest IH]; intros out; [done|].
  rewrite omap_pair_cons. cbn [fold_left]. rewrite IH. unfold kw_step.
  destruct (pair_of m) as [[k x]|]; [|done]. cbn [last_value].
  destruct (last_value (omap pair_of rest) name); [done|].
  case_bool_decide; subst; [by rewrite lookup_insert_eq|by rewrite lookup_insert_ne].
Qed.

Lemma kw_map_no_pairs ms out : omap pair_of ms = [] -> fold_left kw_step ms out = out.
Proof.
  revert out. induction ms as [|m rest IH]; intros out; [done|].
  rewrite omap_pair_cons. cbn [fold_left]. unfold kw_step.
  destruct (pair_of m) as [[k x]|]; [done|]. apply IH.
Qed.

Lemma last_value_some pairs : pairs <> [] -> exists name y, last_value pairs name = Some y.
Proof.
  destruct pairs as [|[k x] rest]; [done|]. intros _. exists k. simpl.
  destruct (last_value rest k); [eauto|]. rewrite bool_decide_eq_true_2 by done. eauto.
Qed.

Lemma is_empty_keyword_pairs input :
  is_empty (fold_left kw_step (finditer input) ∅)
  = bool_decide (keyword_pairs input = []).
Proof.
  unfold is_empty, keyword_pairs.
  destruct (decide (omap pair_of (finditer input) = [])) as [Hp|Hp].
  - rewrite kw_map_no_pairs by done.
    rewrite (bool_decide_eq_true_2 _ Hp). by apply bool_decide_eq_true_2.
  - rewrite (bool_decide_eq_false_2 _ Hp). apply bool_decide_eq_false_2.
    intros Hsize. apply map_size_empty_inv in Hsize.
    destruct (last_value_some _ Hp) as (name & y & Hy).
    pose proof (kw_map_lookup (finditer input) name ∅) as Hl.
    rewrite Hy, Hsize, lookup_empty in Hl. done.
Qed.

Lemma lookup_all_run params pairs names s :
  (forall name, params !! name = last_value pairs name) ->
  lookup_all params names s = (values_by_name pairs names, s).
Proof.
  intros Hl. induction names as [|a rest IH]; simpl; [done|].
  unfold bind at 1, getitem. rewrite Hl.
  destruct (last_value pairs a); simpl; [|done].
  unfold bind at 1. rewrite IH. by destruct (values_by_name pairs rest).
Qed.

Lemma parse_list_run input s :
  _parse_list input s
  = (Ok (match py_literal_eval (strip input) with Ok x => [x] | Raise _ => [] end),
     {| ps_world := ps_world s; ps_trace := ps_trace s ++ [list_event input] |}).
Proof.
  unfold _parse_list, try_except, bind, literal_eval, logged, lift, ret, list_event.
  simpl. destruct (py_literal_eval (strip input)) as [x|e] eqn:E; simpl; [done|].
  by rewrite (py_literal_eval_raises _ _ E).
Qed.

Lemma calls_made_kw ms : calls_made (map kw_event ms) = [].
Proof. induction ms; simpl; auto. Qed.


(** *** From the input text to the call *)

Ltac run_step := cbv beta iota; cbn [ps_world ps_trace fst snd is_ok].

(** What [invoke] does when the entry point resolves to [func] with the
    declared parameters [spec_args] and the arguments can be bound: events
    that are no calls, then the call of [func] on the bound arguments. *)
Lemma invoke_run entry_point case input func spec_args args s w4 w5 :
  case !! "input" = Some input ->
  py_eval entry_point (ps_world s) = (Ok func, w4) ->
  py_getfullargspec func w4 = (Ok spec_args, w5) ->
  bound_args input spec_args = Ok args ->
  exists pre,
    calls_made pre = [] /\
    invoke entry_point case s
    = (fst (py_call func args w5),
       {| ps_world := snd (py_call func args w5);
          ps_trace := ps_trace s ++ pre ++
                      [{| ev_call := Call func args;
                          ev_ok := is_ok (fst (py_call func args w5)) |}] |}).
Proof.
  intros Hin Hev Hspec Hargs.
  unfold invoke, getitem, _parse_kw. rewrite Hin.
  unfold bind at 1, ret at 1. unfold bind at 1. rewrite parse_kw_loop_run.
  rewrite is_empty_keyword_pairs.
  unfold bound_args in Hargs.
  destruct (keyword_pairs input) as [|p ps] eqn:Hpairs.
  - (* no keyword pair: the positional-literal fallback *)
    rewrite bool_decide_eq_true_2 by done.
    unfold bind, ret, eval, getfullargspec, apply_func, logged.
    rewrite parse_list_run. run_step. rewrite Hev. run_step.
    rewrite Hspec. run_step.
    assert (Hl : (match py_literal_eval (strip input) with
                  | Ok x => [x] | Raise _ => [] end) = args).
    { destruct (py_literal_eval (strip input)); by injection Hargs. }
    rewrite Hl.
    exists (map kw_event (finditer input) ++ [list_event input]
            ++ [{| ev_call := Eval entry_point; ev_ok := true |};
                {| ev_call := GetFullArgSpec func; ev_ok := true |}]).
    split.
    { rewrite !calls_made_app, calls_made_kw. reflexivity. }
    destruct (py_call func args w5) as [r w6]. run_step.
    by rewrite <- !app_assoc.
  - (* keyword form *)
    rewrite bool_decide_eq_false_2 by done.
    unfold bind, ret, eval, getfullargspec, apply_func, logged.
    run_step. rewrite Hev. run_step. rewrite Hspec. run_step.
    rewrite (lookup_all_run _ (p :: ps)); cycle 1.
    { intros name. rewrite kw_map_lookup, lookup_empty.
      unfold keyword_pairs in Hpairs. rewrite Hpairs.
      by destruct (last_value (p :: ps) name). }
    rewrite Hargs. run_step.
    exists (map kw_event (finditer input)
            ++ [{| ev_call := Eval entry_point; ev_ok := true |};
                {| ev_call := GetFullArgSpec func; ev_ok := true |}]).
    split.
    { rewrite !calls_made_app, calls_made_kw. reflexivity. }
    destruct (py_call func args w5) as [r w6]. run_step.
    by rewrite <- !app_assoc.
Qed.

Lemma calls_made_no_call t : Forall no_call t -> calls_made t = [].
Proof.
  induction 1 as [|ev t Hev _ IH]; [done|].
  change (ev :: t) with ([ev] ++ t). by rewrite calls_made_app, Hev, IH.
Qed.

Lemma verdict_no_call case got : appends no_call (verdict case got).
Proof.
  unfold verdict.
  apply appends_bind; [|intros; apply appends_bind;
                         [by apply appends_logged|intros; apply appends_ret]].
  apply appends_try; [|intros].
  - unfold getitem. destruct (case !! "output"); [|apply appends_raise].
    unfold bind at 1, ret. by apply appends_logged.
  - unfold getitem. destruct (case !! "output"); [|apply appends_raise].
    unfold bind at 1, ret. by apply appends_logged.
Qed.

(** The run of the worker up to and including the call. *)
Lemma worker_run_to_call code entry_point case mem cpu w0 w5
    input func spec_args args :
  reaches_call code entry_point mem cpu w0 func spec_args w5 ->
  case !! "input" = Some input ->
  bound_args input spec_args = Ok args ->
  exists pre,
    calls_made pre = [] /\
    _run_single_case code entry_point case mem cpu
      {| ps_world := w0; ps_trace := [] |}
    = match py_call func args w5 with
      | (Ok got, w6) =>
          try_except (verdict case got) (fun e => ret (failed_case case e))
            {| ps_world := w6;
               ps_trace := pre ++ [{| ev_call := Call func args; ev_ok := true |}] |}
      | (Raise e, w6) =>
          (if is_exception e then Ok (failed_case case e) else Raise e,
           {| ps_world := w6;
              ps_trace := pre ++ [{| ev_call := Call func args; ev_ok := false |}] |})
      end.
Proof.
  intros (w1 & w2 & w3 & w4 & H1 & H2 & H3 & H4 & H5) Hin Hargs.
  unfold _run_single_case, run_case_body, self_limit.
  unfold try_except at 1, bind at 1, bind at 1, setrlimit, logged.
  cbn [ps_world ps_trace]. rewrite H1. cbn [ps_world ps_trace is_ok].
  rewrite H2. cbn [ps_world ps_trace is_ok].
  unfold bind at 1, exec, logged. cbn [ps_world ps_trace]. rewrite H3.
  cbn [is_ok]. unfold bind at 1.
  edestruct (invoke_run entry_point case input func spec_args args) as (pre & Hpre & ->);
    [exact Hin|exact H4|exact H5|exact Hargs|].
  cbn [ps_world ps_trace].
  exists ([limit_as mem true; limit_cpu cpu true;
           {| ev_call := Exec code; ev_ok := true |}] ++ pre).
  split.
  { rewrite calls_made_app, Hpre. reflexivity. }
  destruct (py_call func args w5) as [[got|e] w6]; cbn [fst snd is_ok].
  - unfold try_except. rewrite <- !app_assoc. reflexivity.
  - unfold ret. rewrite <- !app_assoc. by destruct (is_exception e).
Qed.

Lemma worker_calls code entry_point case mem cpu w0 w5
    input func spec_args args :
  reaches_call code entry_point mem cpu w0 func spec_args w5 ->
  case !! "input" = Some input ->
  bound_args input spec_args = Ok args ->
  calls_made (ps_trace (snd (_run_single_case code entry_point case mem cpu
                               {| ps_world := w0; ps_trace := [] |})))
  = [(func, args)].
Proof.
  intros Hreach Hin Hargs.
  destruct (worker_run_to_call _ _ _ _ _ _ _ _ _ _ _ Hreach Hin Hargs)
    as (pre & Hpre & ->).
  destruct (py_call func args w5) as [[got|e] w6]; cbn [snd ps_trace].
  - unfold try_except.
    destruct (verdict_no_call case got
                {| ps_world := w6;
                   ps_trace := pre ++ [{| ev_call := Call func args; ev_ok := true |}] |})
      as (t & Ht & Hno).
    assert (Hfinal : forall e s, ps_trace (snd (ret (failed_case case e) s)) = ps_trace s)
      by done.
    destruct (verdict case got _) as [[r|e] s1]; [|destruct (is_exception e)];
      cbn [snd ps_trace] in *;
      rewrite ?Hfinal, Ht, !calls_made_app, Hpre, (calls_made_no_call t Hno);
      reflexivity.
  - by rewrite calls_made_app, Hpre.
Qed.

Lemma worker_runs_only_submitted code entry_point case mem cpu w0 :
  Forall (runs_only_submitted code entry_point case)
    (ps_trace (snd (_run_single_case code entry_point case mem cpu
                      {| ps_world := w0; ps_trace := [] |}))).
Proof.
  destruct (worker_trace code entry_point case mem cpu w0) as (t & -> & Ht & _).
  apply Forall_app. split.
  - destruct (self_limit_cases mem cpu w0) as [[_ ->]|[[_ ->]|[_ ->]]];
      repeat constructor.
  - eapply Forall_impl; [exact Ht|].
    intros ev. unfold after_limits, runs_only_submitted.
    by destruct (ev_call ev).
Qed.

Lemma no_match_no_pairs input : finditer input = [] -> keyword_pairs input = [].
Proof. unfold keyword_pairs. by intros ->. Qed.

Lemma drop_self_spec spec_args names :
  spec_args = "self" :: names \/
    (head spec_args <> Some "self" /\ names = spec_args) ->
  drop_self spec_args = names.
Proof.
  intros [->|[Hh ->]]; [done|].
  destruct spec_args as [|a rest]; [done|]. simpl.
  case_bool_decide; [|done]. by subst.
Qed.

(** C8. When the worker reaches the call of the entry point [func]: if the
    input has keyword pairs (matches of the pattern whose value parses as a
    literal), [func] is called on their values placed in the order of the
    names [names], which are its declared parameter names without the
    first when the first is "self", and all of them otherwise; if the
    input has no keyword pair, and in particular if the pattern matches
    nowhere, the whole input is parsed as one literal and [func] is called
    on that one value; if that fails too, [func] is called on no argument.
    No other call is made, and no text but the submitted code, the entry
    point and the expected output is ever executed or evaluated: the input
    goes to [literal_eval] only. *)
Theorem arguments_are_bound (code entry_point : string)
    (case : gmap string string) (mem_limit_mb cpu_seconds : Z)
    (w0 w5 : world) (input : string) (func : value) (spec_args : list string) :
  reaches_call code entry_point mem_limit_mb cpu_seconds w0 func spec_args w5 ->
  case !! "input" = Some input ->
  let trace :=
    ps_trace (snd (_run_single_case code entry_point case mem_limit_mb
                     cpu_seconds {| ps_world := w0; ps_trace := [] |})) in
  (keyword_pairs input <> [] ->
   forall names args,
     spec_args = "self" :: names \/
       (head spec_args <> Some "self" /\ names = spec_args) ->
     values_by_name (keyword_pairs input) names = Ok args ->
     calls_made trace = [(func, args)]) /\
  (keyword_pairs input = [] ->
   forall x, py_literal_eval (strip input) = Ok x ->
     calls_made trace = [(func, [x])]) /\
  (keyword_pairs input = [] ->
   forall e, py_literal_eval (strip input) = Raise e ->
     calls_made trace = [(func, [])]) /\
  (finditer input = [] -> keyword_pairs input = []) /\
  Forall (runs_only_submitted code entry_point case) trace.
Proof.
  intros Hreach Hin trace.
  assert (Hcall : forall args, bound_args input spec_args = Ok args ->
                    calls_made trace = [(func, args)]).
  { intros args Hargs. by eapply worker_calls. }
  split; [|split; [|split; [|split]]].
  - intros Hne names args Hnames Hargs. apply Hcall. unfold bound_args.
    rewrite (drop_self_spec _ _ Hnames).
    by destruct (keyword_pairs input).
  - intros Hnil x Hx. apply Hcall. unfold bound_args. by rewrite Hnil, Hx.
  - intros Hnil e He. apply Hcall. unfold bound_args. by rewrite Hnil, He.
  - apply no_match_no_pairs.
  - apply worker_runs_only_submitted.
Qed.

(** *** The expected value and the verdict *)

Lemma verdict_literal case got output v b s w7 :
  case !! "output" = Some output ->
  py_literal_eval output = Ok v ->
  py_eq got v (ps_world s) = (Ok b, w7) ->
  fst (try_except (verdict case got) (fun e => ret (failed_case case e)) s)
  = Ok {| wr_passed := b; wr_got := PyValue got;
          wr_expected := PyValue v; wr_error := None |}.
Proof.
  intros Hout Hlit Heq.
  unfold verdict, try_except, bind, getitem, literal_eval, equals, logged, lift, ret.
  rewrite Hout. run_step. rewrite Hlit. run_step. rewrite Heq. reflexivity.
Qed.

Lemma verdict_fallback case got output e v b s w7 w8 :
  case !! "output" = Some output ->
  py_literal_eval output = Raise e ->
  py_eval output (ps_world s) = (Ok v, w7) ->
  py_eq got v w7 = (Ok b, w8) ->
  fst (try_except (verdict case got) (fun e => ret (failed_case case e)) s)
  = Ok {| wr_passed := b; wr_got := PyValue got;
          wr_expected := PyValue v; wr_error := None |}.
Proof.
  intros Hout Hlit Hev Heq.
  unfold verdict, try_except, bind, getitem, literal_eval, eval, equals,
    logged, lift, ret.
  rewrite Hout. run_step. rewrite Hlit. run_step.
  rewrite (py_literal_eval_raises _ _ Hlit). rewrite Hev. run_step.
  rewrite Heq. reflexivity.
Qed.

Lemma worker_verdict code entry_point case mem cpu w0 w5 w6
    input func spec_args args got :
  reaches_call code entry_point mem cpu w0 func spec_args w5 ->
  case !! "input" = Some input ->
  bound_args input spec_args = Ok args ->
  py_call func args w5 = (Ok got, w6) ->
  exists trace,
    _run_single_case code entry_point case mem cpu
      {| ps_world := w0; ps_trace := [] |}
    = try_except (verdict case got) (fun e => ret (failed_case case e))
        {| ps_world := w6; ps_trace := trace |}.
Proof.
  intros Hreach Hin Hargs Hcall.
  destruct (worker_run_to_call _ _ _ _ _ _ _ _ _ _ _ Hreach Hin Hargs)
    as (pre & _ & ->).
  rewrite Hcall. eauto.
Qed.

Lemma finditer_example : finditer "a=2, b=3" = [("a", "2"); ("b", "3")].
Proof. vm_compute. reflexivity. Qed.

Lemma bound_args_example two three :
  py_literal_eval "2" = Ok two -> py_literal_eval "3" = Ok three ->
  bound_args "a=2, b=3" ["a"; "b"] = Ok [two; three].
Proof.
  intros H2 H3. unfold bound_args, keyword_pairs. rewrite finditer_example.
  rewrite !omap_pair_cons. unfold pair_of.
  change (strip (snd ("a", "2"))) with "2".
  change (strip (snd ("b", "3"))) with "3".
  rewrite H2, H3. reflexivity.
Qed.

Lemma add_example mem cpu w0 two three five six :
  python_runs_add mem cpu w0 two three five six ->
  fst (_run_single_case add_source "add" (io_case "a=2, b=3" "5") mem cpu
         {| ps_world := w0; ps_trace := [] |})
  = Ok {| wr_passed := true; wr_got := PyValue five;
          wr_expected := PyValue five; wr_error := None |} /\
  fst (_run_single_case add_source "add" (io_case "a=2, b=3" "6") mem cpu
         {| ps_world := w0; ps_trace := [] |})
  = Ok {| wr_passed := false; wr_got := PyValue five;
          wr_expected := PyValue six; wr_error := None |}.
Proof.
  intros (func & w5 & w6 & Hreach & H2 & H3 & H5 & H6 & Hcall & [w7 Heq] & [w7' Hne]).
  pose proof (bound_args_example two three H2 H3) as Hargs.
  split.
  - destruct (worker_verdict add_source "add" (io_case "a=2, b=3" "5") mem cpu
                w0 w5 w6 "a=2, b=3" func ["a"; "b"] [two; three] five
                Hreach eq_refl Hargs Hcall) as (trace & ->).
    by eapply (verdict_literal _ _ "5").
  - destruct (worker_verdict add_source "add" (io_case "a=2, b=3" "6") mem cpu
                w0 w5 w6 "a=2, b=3" func ["a"; "b"] [two; three] five
                Hreach eq_refl Hargs Hcall) as (trace & ->).
    by eapply (verdict_literal _ _ "6").
Qed.

(** C9. After the call has returned [got]: the worker takes the expected
    value from [literal_eval] of the output text, or, when that raises,
    from [eval] of the output text in [exec_globals] as the call left it,
    and [passed] is the outcome of [got == expected].  On the example of
    the specification, with what Python does there, the case with output
    "5" passes with got = expected = 5 and the case with output "6" fails
    with got = 5 and expected = 6. *)
Theorem expected_and_verdict :
  (forall (code entry_point : string) (case : gmap string string)
          (mem_limit_mb cpu_seconds : Z) (w0 w5 w6 : world)
          (input output : string) (func : value) (spec_args : list string)
          (args : list value) (got : value),
     reaches_call code entry_point mem_limit_mb cpu_seconds w0 func spec_args w5 ->
     case !! "input" = Some input ->
     case !! "output" = Some output ->
     bound_args input spec_args = Ok args ->
     py_call func args w5 = (Ok got, w6) ->
     let result :=
       fst (_run_single_case code entry_point case mem_limit_mb cpu_seconds
              {| ps_world := w0; ps_trace := [] |}) in
     (forall v b w7,
        py_literal_eval output = Ok v ->
        py_eq got v w6 = (Ok b, w7) ->
        result = Ok {| wr_passed := b; wr_got := PyValue got;
                       wr_expected := PyValue v; wr_error := None |}) /\
     (forall e v b w7 w8,
        py_literal_eval output = Raise e ->
        py_eval output w6 = (Ok v, w7) ->
        py_eq got v w7 = (Ok b, w8) ->
        result = Ok {| wr_passed := b; wr_got := PyValue got;
                       wr_expected := PyValue v; wr_error := None |})) /\
  (forall (mem_limit_mb cpu_seconds : Z) (w0 : world)
          (two three five six : value),
     python_runs_add mem_limit_mb cpu_seconds w0 two three five six ->
     fst (_run_single_case add_source "add" (io_case "a=2, b=3" "5")
            mem_limit_mb cpu_seconds {| ps_world := w0; ps_trace := [] |})
     = Ok {| wr_passed := true; wr_got := PyValue five;
             wr_expected := PyValue five; wr_error := None |} /\
     fst (_run_single_case add_source "add" (io_case "a=2, b=3" "6")
            mem_limit_mb cpu_seconds {| ps_world := w0; ps_trace := [] |})
     = Ok {| wr_passed := false; wr_got := PyValue five;
             wr_expected := PyValue six; wr_error := None |}).
Proof.
  split.
  - intros code entry_point case mem cpu w0 w5 w6 input output func spec_args
      args got Hreach Hin Hout Hargs Hcall result.
    destruct (worker_verdict _ _ _ _ _ _ _ _ _ _ _ _ _ Hreach Hin Hargs Hcall)
      as (trace & Hrun).
    subst result. rewrite Hrun. split.
    + intros v b w7 Hlit Heq. by eapply verdict_literal.
    + intros e v b w7 w8 Hlit Hev Heq. by eapply verdict_fallback.
  - apply add_example.
Qed.

End WorkerFacts.

(** The [exec] of the example's source on the toy interpreter is the third
    event of the run. *)
Lemma limits_precede_user_code_witness :
  let trace :=
    ps_trace (snd (_run_single_case (R := toy_runtime) add_source "add"
                     (io_case "a=2, b=3" "5") 2048 4 toy_start)) in
  trace !! 2 = Some {| ev_call := Exec add_source; ev_ok := true |} /\
  trace !! 0 = Some {| ev_call := Setrlimit RLIMIT_AS 2147483648 2147483648;
                       ev_ok := true |} /\
  trace !! 1 = Some {| ev_call := Setrlimit RLIMIT_CPU 4 5; ev_ok := true |} /\
  2 <= 2.
Proof.
  intros trace.
  assert (H2 : trace !! 2 = Some {| ev_call := Exec add_source; ev_ok := true |})
    by (vm_compute; reflexivity).
  split; [exact H2|].
  apply (limits_precede_user_code (R := toy_runtime) add_source "add"
           (io_case "a=2, b=3" "5") 2048 4 Fresh 2 _ H2).
  intros r soft hard. simpl. discriminate.
Defined.

Lemma toy_reaches_call :
  reaches_call (R := toy_runtime) add_source "add" 2048 4 Fresh TAdd ["a"; "b"] HasAdd.
Proof. by exists Fresh, Fresh, HasAdd, HasAdd. Qed.

Lemma method_reaches_call :
  reaches_call (R := method_runtime) method_source "Solution().add" 2048 4
    NoClass MBoundAdd ["self"; "a"; "b"] HasSolution.
Proof. by exists NoClass, NoClass, HasSolution, HasSolution. Qed.

(** The bound method [Solution().add] declares self, a and b: the input
    "b=3, a=2" has it called on 2 and 3, the values of a and b in the
    order of the declaration, the receiver left out. *)
Lemma arguments_are_bound_witness :
  calls_made (ps_trace (snd (_run_single_case (R := method_runtime) method_source
                               "Solution().add" (io_case "b=3, a=2" "5")
                               2048 4 method_start)))
  = [(MBoundAdd, [MInt 2; MInt 3])].
Proof.
  destruct (arguments_are_bound (R := method_runtime) method_source
              "Solution().add" (io_case "b=3, a=2" "5") 2048 4 NoClass
              HasSolution "b=3, a=2" MBoundAdd ["self"; "a"; "b"]
              method_reaches_call eq_refl) as (Hkw & _).
  apply (Hkw ltac:(vm_compute; discriminate) ["a"; "b"]);
    [by left|vm_compute; reflexivity].
Defined.

Lemma toy_runs_add :
  python_runs_add (R := toy_runtime) 2048 4 Fresh (TInt 2) (TInt 3) (TInt 5) (TInt 6).
Proof.
  exists TAdd, HasAdd, HasAdd. split; [exact toy_reaches_call|].
  repeat split; try reflexivity; by exists HasAdd.
Qed.

(** The two cases of the example, run on the toy interpreter. *)
Lemma expected_and_verdict_witness :
  fst (_run_single_case (R := toy_runtime) add_source "add"
         (io_case "a=2, b=3" "5") 2048 4 toy_start)
  = Ok (toy_verdict true 5 5) /\
  fst (_run_single_case (R := toy_runtime) add_source "add"
         (io_case "a=2, b=3" "6") 2048 4 toy_start)
  = Ok (toy_verdict false 5 6).
Proof.
  split.
  - destruct (proj1 (expected_and_verdict (R := toy_runtime)) add_source "add"
                (io_case "a=2, b=3" "5") 2048%Z 4%Z Fresh HasAdd HasAdd
                "a=2, b=3" "5" TAdd ["a"; "b"] [TInt 2; TInt 3] (TInt 5)
                toy_reaches_call eq_refl eq_refl eq_refl eq_refl) as [Hlit _].
    exact (Hlit (TInt 5) true HasAdd eq_refl eq_refl).
  - exact (proj2 (proj2 (expected_and_verdict (R := toy_runtime)) 2048%Z 4%Z Fresh
                    (TInt 2) (TInt 3) (TInt 5) (TInt 6) toy_runs_add)).
Defined.

(** * Further properties of the code *)

(** ** Normal forms of relative paths *)

Section NormalForms.
Local Arguments Ascii.eqb : simpl never.

Lemma contains_slash_cons c s :
  contains "/" (String c s) = Ascii.eqb "/" c || contains "/" s.
Proof. rewrite contains_cons. simpl. by destruct (Ascii.eqb "/" c). Qed.

Lemma contains_slash_rev_app a : forall b,
  contains "/" (String.rev_app a b) = contains "/" a || contains "/" b.
Proof.
  induction a as [|c a IH]; intros b; [done|].
  simpl String.rev_app. rewrite IH, !contains_slash_cons.
  destruct (Ascii.eqb "/" c), (contains "/" a), (contains "/" b); done.
Qed.

(** The components [split] gives hold no separator. *)
Lemma split_go_slashless s : forall cur,
  contains "/" cur = false ->
  Forall (fun c => contains "/" c = false) (split_go posixpath.sep cur s).
Proof.
  induction s as [|c r IH]; intros cur Hcur; simpl.
  - constructor; [|done]. unfold String.rev.
    by rewrite contains_slash_rev_app, Hcur.
  - unfold posixpath.sep. destruct (Ascii.eqb_spec c "/") as [->|Hne].
    + constructor; [|by apply IH]. unfold String.rev.
      by rewrite contains_slash_rev_app, Hcur.
    + apply IH. rewrite contains_slash_cons, Hcur.
      destruct (Ascii.eqb_spec "/" c); [congruence|done].
Qed.

Lemma split_slashless s :
  Forall (fun c => contains "/" c = false) (split s posixpath.sep).
Proof. by apply split_go_slashless. Qed.

(** [split] undoes [join]. *)
Lemma split_join cs :
  cs <> [] -> Forall (fun c => contains "/" c = false) cs ->
  split (join "/" cs) posixpath.sep = cs.
Proof.
  unfold split. destruct cs as [|c cs]; [done|]. intros _ H.
  revert c H. induction cs as [|d cs IH]; intros c H.
  - apply Forall_inv in H. simpl join. by rewrite split_go_clean.
  - change (join "/" (c :: d :: cs)) with (c +:+ String posixpath.sep (join "/" (d :: cs))).
    rewrite split_go_first by (by apply Forall_inv in H).
    rewrite IH by (by apply Forall_inv_tail in H). done.
Qed.

Lemma kept_clean cs : Forall clean cs -> kept cs = cs.
Proof.
  induction 1 as [|c cs (? & ? & _) _ IH]; [done|].
  unfold kept. rewrite filter_cons_True by done. by rewrite <- IH at 2.
Qed.

Lemma join_nonempty c cs : c <> "" -> join "/" (c :: cs) <> "".
Proof. destruct c, cs; done. Qed.

Lemma startswith_slash_app c r :
  c <> "" -> startswith (c +:+ r) "/" = startswith c "/".
Proof. by destruct c. Qed.

Lemma join_head_slash c cs :
  c <> "" -> contains "/" c = false -> startswith (join "/" (c :: cs)) "/" = false.
Proof.
  intros Hne Hc. apply contains_false_head in Hc.
  destruct cs; simpl join; [done|]. by rewrite startswith_slash_app.
Qed.

(** A joined list of clean components is its own normal form. *)
Lemma normpath_join_clean cs :
  cs <> [] -> Forall clean cs -> posixpath.normpath (join "/" cs) = join "/" cs.
Proof.
  intros Hne Hclean. destruct cs as [|c cs]; [done|].
  pose proof (Forall_inv Hclean) as (Hc1 & _ & _ & Hc4).
  assert (Hsl : Forall (fun c => contains "/" c = false) (c :: cs)).
  { eapply Forall_impl; [exact Hclean|]. by intros ? (_ & _ & _ & ?). }
  unfold posixpath.normpath.
  rewrite (bool_decide_eq_false_2 _ (join_nonempty c cs Hc1)).
  unfold posixpath.initial_slashes. rewrite (join_head_slash c cs Hc1 Hc4).
  rewrite split_join by done.
  rewrite normpath_fold_no_dotdot; cycle 1.
  { intros Hin. rewrite Forall_forall in Hclean.
    by destruct (Hclean _ Hin) as (_ & _ & ? & _). }
  rewrite kept_clean by done. rewrite app_nil_r, rev_involutive.
  change (posixpath.repeat_sep 0 +:+ join "/" (c :: cs)) with (join "/" (c :: cs)).
  by rewrite (bool_decide_eq_false_2 _ (join_nonempty c cs Hc1)).
Qed.

End NormalForms.

Section RelativeShape.
Local Arguments Ascii.eqb : simpl never.

Lemma normpath_fold_good slashes comps : forall stack,
  Forall (fun c => contains "/" c = false) comps ->
  Forall (fun c => c <> "" /\ c <> "." /\ contains "/" c = false) stack ->
  Forall (fun c => c <> "" /\ c <> "." /\ contains "/" c = false)
    (fold_left (posixpath.normpath_step slashes) comps stack).
Proof.
  induction comps as [|c rest IH]; intros stack Hc Hs; [done|].
  cbn [fold_left]. apply IH; [by apply Forall_inv_tail in Hc|].
  apply Forall_inv in Hc. unfold posixpath.normpath_step.
  destruct (decide (c = "")) as [->|H1]; [done|].
  destruct (decide (c = ".")) as [->|H2]; [done|].
  rewrite (bool_decide_eq_false_2 _ H1), (bool_decide_eq_false_2 _ H2).
  cbn [orb]. case_match.
  - by constructor.
  - destruct stack; [done|]. by apply Forall_inv_tail in Hs.
Qed.

Lemma normpath_absolute p :
  startswith p "/" = true -> startswith (posixpath.normpath p) "/" = true.
Proof.
  intros H. unfold posixpath.normpath.
  case_bool_decide as Hp; [by subst|].
  unfold posixpath.initial_slashes. rewrite H.
  destruct (startswith p "//" && negb (startswith p "///")); by case_bool_decide.
Qed.

(** What [safe_rel_path] lets through: ".", or clean components joined
    by single slashes. *)
Lemma safe_rel_path_shape p rel :
  safe_rel_path p = Ok rel ->
  rel = "." \/ exists cs, cs <> [] /\ Forall clean cs /\ rel = join "/" cs.
Proof.
  unfold safe_rel_path.
  destruct (startswith (posixpath.normpath p) "../"
            || startswith (posixpath.normpath p) "/") eqn:E; [done|].
  apply orb_false_iff in E as [_ Habs].
  case_bool_decide as Hdd; [done|]. intros [= <-].
  destruct (startswith p "/") eqn:Hp.
  { by rewrite normpath_absolute in Habs. }
  revert Hdd. unfold posixpath.normpath.
  case_bool_decide as Hne; [by left|].
  unfold posixpath.initial_slashes. rewrite Hp.
  set (stack := fold_left (posixpath.normpath_step 0) (split p posixpath.sep) []).
  change (posixpath.repeat_sep 0 +:+ join "/" (rev stack)) with (join "/" (rev stack)).
  assert (Hgood : Forall (fun c => c <> "" /\ c <> "." /\ contains "/" c = false)
                    (rev stack)).
  { apply Forall_rev, normpath_fold_good; [apply split_slashless|done]. }
  destruct (rev stack) as [|c cs] eqn:Hrev; [by left|].
  pose proof (Forall_inv Hgood) as (Hc & _).
  rewrite (bool_decide_eq_false_2 _ (join_nonempty c cs Hc)).
  intros Hdd. right. exists (c :: cs). split; [done|]. split; [|done].
  rewrite split_join in Hdd; cycle 1; [done| |].
  { eapply Forall_impl; [exact Hgood|]. by intros ? (_ & _ & ?). }
  rewrite Forall_forall in Hgood. apply Forall_forall. intros x Hx.
  destruct (Hgood x Hx) as (? & ? & ?). repeat split; try done.
  by intros ->.
Qed.

Lemma safe_rel_path_normal p rel :
  safe_rel_path p = Ok rel -> posixpath.normpath rel = rel.
Proof.
  intros H. destruct (safe_rel_path_shape _ _ H) as [->|(cs & Hne & Hcl & ->)];
    [done|by apply normpath_join_clean].
Qed.

(** X1. The path [safe_rel_path] returns is a fixed point: asked again
    about its own answer, it accepts it and returns it unchanged. *)
Theorem safe_rel_path_idempotent (p rel : string) :
  safe_rel_path p = Ok rel -> safe_rel_path rel = Ok rel.
Proof.
  intros H. pose proof (safe_rel_path_normal _ _ H) as Hn.
  pose proof (safe_rel_path_ok _ _ H) as Hrel.
  revert H. unfold safe_rel_path. rewrite Hn, <- Hrel.
  by repeat case_match.
Qed.

End RelativeShape.

Lemma safe_rel_path_idempotent_witness :
  safe_rel_path "a/./b/../c.txt" = Ok "a/c.txt" /\
  safe_rel_path "a/c.txt" = Ok "a/c.txt".
Proof.
  split; [vm_compute; reflexivity|].
  apply (safe_rel_path_idempotent "a/./b/../c.txt" "a/c.txt").
  vm_compute. reflexivity.
Defined.

(** ** Session names *)

Section SessionNames.
Local Arguments Ascii.eqb : simpl never.

Lemma replace_slash_id s : contains "/" s = false -> str_replace s "/" "_" = s.
Proof.
  induction s as [|c r IH]; [done|].
  rewrite contains_slash_cons, replace_slash_cons.
  intros H. apply orb_false_iff in H as [-> Hr]. by rewrite IH.
Qed.

Lemma dots_id s : contains ".." s = false -> dots s = s.
Proof.
  induction s as [|c r IH]; [done|].
  rewrite contains_cons. intros H. apply orb_false_iff in H as [Hh Hr].
  rewrite (dots_other _ _ Hh). by rewrite IH.
Qed.

Lemma safe_dirname_clean_id s :
  contains "/" s = false -> contains ".." s = false ->
  safe_dirname s = root_child s.
Proof.
  intros Hs Hd. destruct (safe_dirname_shape s) as (-> & _).
  rewrite (replace_slash_id s Hs). fold (dots s). by rewrite (dots_id s Hd).
Qed.

Lemma replace_slash_app a b :
  str_replace (a +:+ b) "/" "_" = str_replace a "/" "_" +:+ str_replace b "/" "_".
Proof.
  induction a as [|c a IH]; [done|].
  by rewrite app_cons, !replace_slash_cons, IH.
Qed.

(** X2. The sanitiser of [safe_dirname] is not injective: an id with a
    "/" and the id with "_" in its place are given the same directory, and
    so are an id with ".." and the id with "__" there. *)
Theorem safe_dirname_collides (a b : string) :
  safe_dirname (a +:+ "/" +:+ b) = safe_dirname (a +:+ "_" +:+ b) /\
  a +:+ "/" +:+ b <> a +:+ "_" +:+ b /\
  safe_dirname ".." = safe_dirname "__".
Proof.
  split; [|split; [|reflexivity]].
  - unfold safe_dirname. by rewrite !replace_slash_app.
  - induction a as [|c a IH]; [done|]. rewrite !app_cons. by intros [= ?].
Qed.

Lemma replace_slash_length s :
  String.length (str_replace s "/" "_") = String.length s.
Proof.
  induction s as [|c r IH]; [done|]. rewrite replace_slash_cons. simpl. by rewrite IH.
Qed.

Lemma dots_length s : String.length (dots s) = String.length s.
Proof.
  induction s as [s IH] using string_length_ind.
  destruct (dots_cases s) as [->|[[r ->]|(c & r & -> & Hno)]].
  - done.
  - rewrite dots_dotdot. simpl. rewrite IH; [done|simpl; lia].
  - rewrite (dots_other _ _ Hno). simpl. rewrite IH; [done|simpl; lia].
Qed.

Lemma name_of_dot session_id : name_of session_id = "." -> session_id = ".".
Proof.
  intros H. pose proof (f_equal String.length H) as Hlen.
  unfold name_of in Hlen. fold (dots (str_replace session_id "/" "_")) in Hlen.
  rewrite dots_length, replace_slash_length in Hlen.
  destruct session_id as [|c [|d r]]; try done.
  revert H. unfold name_of. rewrite replace_slash_cons.
  destruct (Ascii.eqb_spec "/" c) as [<-|Hne]; [done|].
  change (str_replace "" "/" "_") with "".
  fold (dots (String c "")). rewrite dots_other by (cbn [startswith]; by destruct (Ascii.eqb "." c)).
  by intros [= ->].
Qed.

Lemma name_of_empty session_id : name_of session_id = "" -> session_id = "".
Proof.
  intros H. pose proof (f_equal String.length H) as Hlen.
  unfold name_of in Hlen. fold (dots (str_replace session_id "/" "_")) in Hlen.
  rewrite dots_length, replace_slash_length in Hlen.
  by destruct session_id.
Qed.

(** C10, as the code has it.  For every session id, [safe_dirname] returns
    the root joined with one name, the id with every "/" turned into "_"
    and then every ".." into "__": the name holds no "/" and no "..", so
    no id reaches a directory outside "/tmp/genie_repl".  For every id but
    "" and "." the name is a clean component and the path is the child of
    the root of that name; for those two ids the path is the root
    itself. *)
Theorem safe_dirname_under_root (session_id : string) :
  let name := name_of session_id in
  safe_dirname session_id = TMP_ROOT +:+ "/" +:+ name /\
  contains "/" name = false /\
  contains ".." name = false /\
  forall cwd,
    if bool_decide (session_id = "") || bool_decide (session_id = ".")
    then posixpath.abspath cwd (safe_dirname session_id) = TMP_ROOT
    else clean name /\
         posixpath.abspath cwd (safe_dirname session_id)
         = TMP_ROOT +:+ "/" +:+ name.
Proof.
  intros name.
  destruct (safe_dirname_shape session_id) as (Hj & Hs & Hd).
  fold (name_of session_id) in Hj, Hs, Hd. fold name in Hj, Hs, Hd.
  split; [by rewrite Hj|]. split; [done|]. split; [done|].
  intros cwd. rewrite Hj, (abspath_root_child cwd name Hs Hd).
  destruct (decide (session_id = "")) as [->|He]; [done|].
  destruct (decide (session_id = ".")) as [->|Hp]; [done|].
  rewrite (bool_decide_eq_false_2 _ He), (bool_decide_eq_false_2 _ Hp).
  assert (Hne : name <> "") by (intros H; by apply He, name_of_empty).
  assert (Hnp : name <> ".") by (intros H; by apply Hp, name_of_dot).
  rewrite (bool_decide_eq_false_2 _ Hne), (bool_decide_eq_false_2 _ Hnp).
  cbn [orb]. split; [|done].
  repeat split; try done. intros H. by rewrite H in Hd.
Qed.

(** X3. An id that holds no "/" and no ".." and is neither "" nor "." is
    used as it is: the absolute path of its directory is the root, a
    slash and the id, so two different ids of that kind are given
    different paths. *)
Theorem safe_dirname_keeps_clean_ids (s t cwd : string) :
  contains "/" s = false -> contains ".." s = false -> s <> "" -> s <> "." ->
  contains "/" t = false -> contains ".." t = false -> t <> "" -> t <> "." ->
  posixpath.abspath cwd (safe_dirname s) = TMP_ROOT +:+ "/" +:+ s /\
  (posixpath.abspath cwd (safe_dirname s) = posixpath.abspath cwd (safe_dirname t)
   -> s = t).
Proof.
  intros Hs1 Hs2 Hs3 Hs4 Ht1 Ht2 Ht3 Ht4.
  assert (H : forall u, contains "/" u = false -> contains ".." u = false ->
                u <> "" -> u <> "." ->
                posixpath.abspath cwd (safe_dirname u) = root_child u).
  { intros u H1 H2 H3 H4.
    rewrite (safe_dirname_clean_id u H1 H2), (abspath_root_child cwd u H1 H2).
    by rewrite (bool_decide_eq_false_2 _ H3), (bool_decide_eq_false_2 _ H4). }
  rewrite !H by done. split; [done|].
  unfold root_child. by intros [= ?].
Qed.

End SessionNames.

(** C10 as stated fails: the ids "" and "." are given the root itself, not
    a path under it. *)
Lemma empty_id_names_the_root :
  safe_dirname "" = "/tmp/genie_repl/" /\
  posixpath.abspath "/" (safe_dirname "") = TMP_ROOT /\
  posixpath.abspath "/" (safe_dirname ".") = TMP_ROOT /\
  ~ (exists name,
       posixpath.abspath "/" (safe_dirname "") = TMP_ROOT +:+ "/" +:+ name).
Proof.
  repeat split; try (vm_compute; reflexivity).
  intros [name H]. vm_compute in H. discriminate.
Qed.

Lemma safe_dirname_keeps_clean_ids_witness :
  posixpath.abspath "/" (safe_dirname "3f2a-77") = TMP_ROOT +:+ "/" +:+ "3f2a-77" /\
  (posixpath.abspath "/" (safe_dirname "3f2a-77")
   = posixpath.abspath "/" (safe_dirname "3f2a-78") -> "3f2a-77" = "3f2a-78").
Proof.
  apply (safe_dirname_keeps_clean_ids "3f2a-77" "3f2a-78" "/");
    (reflexivity || discriminate).
Defined.

(** ** Texts, components and [dirname] *)

Section TextFacts.
Local Arguments Ascii.eqb : simpl never.

Lemma rev_app_spec a b : String.rev_app a b = String.rev a +:+ b.
Proof. unfold String.rev. by rewrite rev_app_append. Qed.

Lemma string_rev_app a b : String.rev (a +:+ b) = String.rev b +:+ String.rev a.
Proof.
  unfold String.rev at 1. rewrite rev_app_app. by rewrite rev_app_spec.
Qed.

Lemma string_rev_involutive a : String.rev (String.rev a) = a.
Proof.
  induction a as [|c a IH]; [done|].
  change (String.rev (String c a)) with (String.rev_app a (String c "")).
  rewrite rev_app_spec, string_rev_app, IH. done.
Qed.

Lemma string_rev_nil a : String.rev a = "" -> a = "".
Proof. intros H. by rewrite <- (string_rev_involutive a), H. Qed.

Lemma split_go_nonempty s : forall cur, split_go posixpath.sep cur s <> [].
Proof.
  induction s as [|c r IH]; intros cur; simpl; [done|].
  destruct (Ascii.eqb c posixpath.sep); [done|apply IH].
Qed.

(** [join] undoes [split]. *)
Lemma join_split_go s : forall cur,
  join "/" (split_go posixpath.sep cur s) = String.rev cur +:+ s.
Proof.
  induction s as [|c r IH]; intros cur.
  - simpl. by rewrite string_app_nil_r.
  - simpl. unfold posixpath.sep. destruct (Ascii.eqb_spec c "/") as [->|Hne].
    + specialize (IH ""). change (String.rev "" +:+ r) with r in IH.
      destruct (split_go "/" "" r) eqn:E.
      * by destruct (split_go_nonempty r "").
      * change (join "/" (String.rev cur :: s :: l))
          with (String.rev cur +:+ "/" +:+ join "/" (s :: l)).
        change (split_go posixpath.sep "" r) with (split_go "/" "" r) in IH.
        rewrite E in IH. by rewrite IH.
    + rewrite IH.
      change (String.rev (String c cur)) with (String.rev_app cur (String c "")).
      rewrite rev_app_spec, string_app_assoc. done.
Qed.

Lemma join_split s : join "/" (split s posixpath.sep) = s.
Proof. apply join_split_go. Qed.

Lemma join_snoc L l : L <> [] -> join "/" (L ++ [l]) = join "/" L +:+ "/" +:+ l.
Proof.
  induction L as [|c L IH]; [done|]. intros _.
  destruct L as [|d L]; [done|].
  change (join "/" ((c :: d :: L) ++ [l]))
    with (c +:+ "/" +:+ join "/" ((d :: L) ++ [l])).
  rewrite IH by done.
  change (join "/" (c :: d :: L)) with (c +:+ "/" +:+ join "/" (d :: L)).
  by rewrite !string_app_assoc.
Qed.

(** The last component closes the joined text. *)
Lemma join_ends L c : last L = Some c -> exists y, join "/" L = y +:+ c.
Proof.
  intros H. destruct (decide (L = [])) as [->|Hne]; [done|].
  destruct (exists_last Hne) as (L' & c' & ->).
  rewrite last_snoc in H. injection H as ->.
  destruct (decide (L' = [])) as [->|Hne']; [by exists ""|].
  rewrite join_snoc by done. exists (join "/" L' +:+ "/").
  by rewrite !string_app_assoc.
Qed.

Lemma drop_to_sep_rev_app rl ra :
  contains "/" rl = false ->
  drop_to_sep_rev (rl +:+ String "/" ra) = String "/" ra.
Proof.
  induction rl as [|c rl IH]; [done|].
  rewrite contains_slash_cons. intros H. apply orb_false_iff in H as [Hc Hr].
  rewrite app_cons. simpl. unfold posixpath.sep. rewrite Ascii.eqb_sym, Hc.
  by apply IH.
Qed.

Lemma rev_slash_app a l :
  String.rev (a +:+ "/" +:+ l) = String.rev l +:+ String "/" (String.rev a).
Proof.
  rewrite !string_rev_app. change (String.rev "/") with "/".
  by rewrite string_app_assoc.
Qed.

(** [dirname] of a text whose components are known. *)
Lemma dirname_split s L l c :
  split s posixpath.sep = L ++ [l] -> last L = Some c -> c <> "" ->
  dirname s = join "/" L.
Proof.
  intros Hsplit Hlast Hc.
  assert (HL : L <> []) by (by intros ->).
  assert (Hsl : Forall (fun c => contains "/" c = false) (L ++ [l])).
  { rewrite <- Hsplit. apply split_slashless. }
  apply Forall_app in Hsl as [HslL Hsl]. apply Forall_inv in Hsl.
  assert (Hcs : contains "/" c = false).
  { rewrite Forall_forall in HslL. apply HslL. by apply last_Some_elem_of. }
  rewrite <- (join_split s), Hsplit, join_snoc by done.
  destruct (join_ends L c Hlast) as [y Hy].
  set (a := join "/" L) in *.
  unfold dirname. rewrite rev_slash_app.
  rewrite drop_to_sep_rev_app; cycle 1.
  { unfold String.rev. by rewrite contains_slash_rev_app, Hsl. }
  assert (Hhead : exists d r, String.rev a = String d r /\ Ascii.eqb d "/" = false).
  { rewrite Hy, string_rev_app.
    destruct (String.rev c) as [|d r] eqn:E; [by apply string_rev_nil in E|].
    exists d, (r +:+ String.rev y). split; [done|].
    assert (Hrc : contains "/" (String.rev c) = false).
    { unfold String.rev. by rewrite contains_slash_rev_app, Hcs. }
    rewrite E, contains_slash_cons in Hrc. apply orb_false_iff in Hrc as [Hd _].
    by rewrite Ascii.eqb_sym. }
  destruct Hhead as (d & r & Hrev & Hd).
  rewrite Hrev. cbn [rstrip_sep_rev]. unfold posixpath.sep.
  change (Ascii.eqb "/" "/") with true. cbv iota. cbn [rstrip_sep_rev].
  unfold posixpath.sep. rewrite Hd.
  rewrite bool_decide_eq_false_2 by done.
  by rewrite <- Hrev, string_rev_involutive.
Qed.

End TextFacts.

(** ** The text the endpoints build for a session and a path *)

Section SessionPaths.
Local Arguments Ascii.eqb : simpl never.

Lemma safe_rel_path_facts p rel :
  safe_rel_path p = Ok rel ->
  startswith rel "/" = false /\ ".." ∉ split rel posixpath.sep.
Proof.
  unfold safe_rel_path.
  destruct (startswith (posixpath.normpath p) "../"
            || startswith (posixpath.normpath p) "/") eqn:E; [done|].
  apply orb_false_iff in E as [_ Habs].
  case_bool_decide as Hdd; [done|]. by intros [= <-].
Qed.

(** The text an endpoint builds for a session and an accepted path: the
    root, then the session name unless it is empty, then the path. *)
Lemma file_path_root session_id p rel :
  safe_rel_path p = Ok rel ->
  exists x,
    posixpath.join2 (safe_dirname session_id) rel = root_child x /\
    (".." ∉ split x posixpath.sep) /\
    (split x posixpath.sep
     = (if bool_decide (name_of session_id = "") then [] else [name_of session_id])
       ++ split rel posixpath.sep).
Proof.
  intros Hrel. destruct (safe_rel_path_facts _ _ Hrel) as [Habs Hdd].
  destruct (safe_dirname_shape session_id) as (Hw & Hslash & Hdots).
  fold (name_of session_id) in Hw, Hslash, Hdots.
  set (name := name_of session_id) in *.
  rewrite Hw, join2_session by done.
  case_bool_decide as Hn.
  - by exists rel.
  - exists (name +:+ "/" +:+ rel).
    assert (Hsplit : split (name +:+ "/" +:+ rel) posixpath.sep
                     = name :: split rel posixpath.sep).
    { unfold split.
      change (name +:+ "/" +:+ rel) with (name +:+ String posixpath.sep rel).
      by rewrite (split_go_first name "" rel Hslash). }
    split; [done|]. split; [|done].
    rewrite Hsplit. apply not_elem_of_cons. split; [|done].
    intros Heq. by rewrite <- Heq in Hdots.
Qed.

Lemma place_root x :
  kept (split (root_child x) posixpath.sep)
  = "tmp" :: "genie_repl" :: kept (split x posixpath.sep).
Proof. by rewrite root_split. Qed.

Lemma root_no_dotdot x :
  ".." ∉ split x posixpath.sep -> ".." ∉ split (root_child x) posixpath.sep.
Proof.
  intros H. rewrite root_split. fold (split x posixpath.sep).
  repeat (apply not_elem_of_cons; split; [done|]). done.
Qed.

Lemma file_path_no_dotdot session_id p rel :
  safe_rel_path p = Ok rel ->
  ".." ∉ split (posixpath.join2 (safe_dirname session_id) rel) posixpath.sep.
Proof.
  intros Hrel. destruct (file_path_root session_id _ _ Hrel) as (x & -> & Hx & _).
  by apply root_no_dotdot.
Qed.

Lemma place_eq session_id p rel :
  safe_rel_path p = Ok rel ->
  place session_id rel
  = "tmp" :: "genie_repl"
    :: kept (if bool_decide (name_of session_id = "") then []
             else [name_of session_id])
    ++ kept (split rel posixpath.sep).
Proof.
  intros Hrel. unfold place.
  destruct (file_path_root session_id _ _ Hrel) as (x & -> & _ & Hx).
  rewrite place_root, Hx. unfold kept. by rewrite filter_app.
Qed.

(** The normalised absolute text of the target is the root followed by
    the components of [place]. *)
Lemma abspath_file_path cwd session_id p rel :
  safe_rel_path p = Ok rel ->
  posixpath.abspath cwd (posixpath.join2 (safe_dirname session_id) rel)
  = "/" +:+ join "/" (place session_id rel).
Proof.
  intros Hrel. unfold place.
  destruct (file_path_root session_id _ _ Hrel) as (x & -> & Hx & _).
  rewrite abspath_absolute by done.
  by rewrite normpath_under_root, place_root.
Qed.

Lemma kept_good cs :
  Forall (fun c => c <> "" /\ c <> ".") (kept cs).
Proof.
  unfold kept. apply Forall_forall. intros c Hc.
  by apply list_elem_of_filter in Hc as [? _].
Qed.

Lemma kept_sub cs c : c ∈ kept cs -> c ∈ cs.
Proof. unfold kept. intros H. by apply list_elem_of_filter in H as [_ ?]. Qed.

Lemma place_slashless session_id rel :
  Forall (fun c => contains "/" c = false) (place session_id rel).
Proof.
  unfold place. apply Forall_forall. intros c Hc. apply kept_sub in Hc.
  pose proof (split_slashless (posixpath.join2 (safe_dirname session_id) rel)) as H.
  rewrite Forall_forall in H. by apply H.
Qed.

Lemma place_no_dotdot session_id p rel :
  safe_rel_path p = Ok rel -> ".." ∉ place session_id rel.
Proof.
  intros Hrel Hin. apply kept_sub in Hin.
  by apply (file_path_no_dotdot session_id _ _ Hrel).
Qed.

Lemma place_clean session_id p rel :
  safe_rel_path p = Ok rel -> Forall clean (place session_id rel).
Proof.
  intros Hrel. apply Forall_forall. intros c Hc.
  pose proof (kept_good (split (posixpath.join2 (safe_dirname session_id) rel)
                           posixpath.sep)) as Hg.
  pose proof (place_slashless session_id rel) as Hs.
  rewrite Forall_forall in Hg, Hs.
  destruct (Hg c Hc) as [? ?]. repeat split; try done.
  - intros ->. by apply (place_no_dotdot session_id _ _ Hrel).
  - by apply Hs.
Qed.

(** The components of the normalised absolute text. *)
Lemma split_abs cs :
  cs <> [] -> Forall (fun c => contains "/" c = false) cs ->
  split ("/" +:+ join "/" cs) posixpath.sep = "" :: cs.
Proof.
  intros Hne Hs. destruct cs as [|c cs]; [done|].
  change ("/" +:+ join "/" (c :: cs)) with (join "/" ("" :: c :: cs)).
  apply split_join; [done|]. by constructor.
Qed.

Lemma place_nonempty session_id p rel :
  safe_rel_path p = Ok rel -> place session_id rel <> [].
Proof. intros Hrel. by rewrite (place_eq _ _ _ Hrel). Qed.

End SessionPaths.

(** ** Trees without links *)

Section TreeFacts.

Lemma kept_nil : kept [] = [].
Proof. reflexivity. Qed.

Lemma kept_cons_skip c cs : c = "" \/ c = "." -> kept (c :: cs) = kept cs.
Proof. intros H. unfold kept. apply filter_cons_False. intros [? ?]. by destruct H. Qed.

Lemma kept_cons_keep c cs : c <> "" -> c <> "." -> kept (c :: cs) = c :: kept cs.
Proof. intros ? ?. unfold kept. by apply filter_cons_True. Qed.

(** Resolution in a tree without links reads the text only. *)
Lemma resolve_plain t :
  symlink_free t -> forall f cur todo,
  ".." ∉ todo ->
  resolve f t cur todo
  = if decide (length todo < f) then Some (cur ++ kept todo) else None.
Proof.
  intros Hfree. induction f as [|f IH]; intros cur todo Hdd.
  { cbn [resolve]. destruct (decide (length todo < 0)); [lia|done]. }
  destruct todo as [|c rest].
  { cbn [resolve length]. destruct (decide (0 < S f)); [|lia].
    by rewrite kept_nil, app_nil_r. }
  apply not_elem_of_cons in Hdd as [Hc Hrest].
  cbn [resolve length].
  destruct (decide (c = "")) as [->|H1].
  { cbn [bool_decide decide_rel orb]. rewrite IH by done.
    rewrite kept_cons_skip by auto.
    destruct (decide (length rest < f)), (decide (S (length rest) < S f)); done || lia. }
  destruct (decide (c = ".")) as [->|H2].
  { rewrite IH by done. rewrite kept_cons_skip by auto.
    destruct (decide (length rest < f)), (decide (S (length rest) < S f)); done || lia. }
  rewrite (bool_decide_eq_false_2 _ H1), (bool_decide_eq_false_2 _ H2).
  assert (H3 : c <> "..") by congruence.
  rewrite (bool_decide_eq_false_2 _ H3). cbn [orb].
  rewrite kept_cons_keep by done.
  assert (Hgo : resolve f t (cur ++ [c]) rest
                = if decide (S (length rest) < S f)
                  then Some (cur ++ c :: kept rest) else None).
  { rewrite IH by done. rewrite <- app_assoc.
    destruct (decide (length rest < f)), (decide (S (length rest) < S f)); done || lia. }
  destruct (t !! (cur ++ [c])) as [[| |target]|] eqn:E; try exact Hgo.
  by destruct (Hfree _ _ E).
Qed.

Lemma realpath_plain t s :
  symlink_free t -> ".." ∉ split s posixpath.sep ->
  realpath t s
  = if decide (length (split s posixpath.sep) < resolve_fuel)
    then Some (kept (split s posixpath.sep)) else None.
Proof. intros Hfree Hdd. unfold realpath. by rewrite resolve_plain. Qed.

Lemma removelast_kept_no_dotdot cs : ".." ∉ cs -> ".." ∉ removelast (kept cs).
Proof.
  intros H Hin. apply H, kept_sub.
  destruct (decide (kept cs = [])) as [E|E].
  { rewrite E in Hin. by apply elem_of_nil in Hin. }
  destruct (exists_last E) as (l' & a & Heq). rewrite Heq in Hin |- *.
  rewrite removelast_last in Hin. apply elem_of_app. by left.
Qed.

Lemma kept_all cs : Forall (fun c => c <> "" /\ c <> ".") cs -> kept cs = cs.
Proof.
  induction 1 as [|c cs Hc _ IH]; [done|].
  destruct Hc. rewrite kept_cons_keep by done. by rewrite IH.
Qed.

Lemma kept_removelast cs : kept (removelast (kept cs)) = removelast (kept cs).
Proof.
  destruct (decide (kept cs = [])) as [E|E]; [by rewrite E|].
  destruct (exists_last E) as (l' & a & Heq).
  pose proof (kept_good cs) as Hg. rewrite Heq in Hg |- *.
  rewrite removelast_last. apply kept_all. by apply Forall_app in Hg as [? _].
Qed.

Lemma lpath_plain t s :
  symlink_free t -> ".." ∉ split s posixpath.sep ->
  lpath t s
  = if decide (length (kept (split s posixpath.sep)) <= resolve_fuel)
    then Some (kept (split s posixpath.sep)) else None.
Proof.
  intros Hfree Hdd. unfold lpath. fold (kept (split s posixpath.sep)).
  set (cs := kept (split s posixpath.sep)).
  destruct (decide (cs = [])) as [E|E].
  { rewrite E. cbn [last length].
    destruct (decide (0 <= resolve_fuel)); [done|]. unfold resolve_fuel in *. lia. }
  destruct (exists_last E) as (l' & a & Heq).
  assert (Hrm : removelast cs = l') by (by rewrite Heq, removelast_last).
  rewrite resolve_plain; [|done|by apply removelast_kept_no_dotdot].
  subst cs. rewrite kept_removelast, Hrm. rewrite Heq, last_snoc, length_app. simpl.
  destruct (decide (length l' < resolve_fuel)),
    (decide (length l' + 1 <= resolve_fuel)); done || lia.
Qed.

(** *** [makedirs] *)

Lemma mkdirs_lookup todo : forall t made t1 k,
  mkdirs t made todo = Ok t1 ->
  t1 !! k = t !! k \/ (t !! k = None /\ t1 !! k = Some Dir).
Proof.
  induction todo as [|c rest IH]; intros t made t1 k; simpl.
  { intros [= <-]. by left. }
  destruct (t !! (made ++ [c])) as [[| |]|] eqn:E; try done.
  - apply IH.
  - intros H. destruct (IH _ _ _ k H) as [Hk|[Hk1 Hk2]].
    + destruct (decide (k = made ++ [c])) as [->|Hne].
      * rewrite lookup_insert_eq in Hk. right. by rewrite E.
      * rewrite lookup_insert_ne in Hk by done. by left.
    + destruct (decide (k = made ++ [c])) as [->|Hne].
      * by rewrite lookup_insert_eq in Hk1.
      * rewrite lookup_insert_ne in Hk1 by done. by right.
Qed.

Lemma mkdirs_prefix todo : forall t made t1 n,
  mkdirs t made todo = Ok t1 -> 0 < n <= length todo ->
  t1 !! (made ++ take n todo) = Some Dir.
Proof.
  induction todo as [|c rest IH]; intros t made t1 n; simpl; [lia|].
  intros H Hn.
  assert (Hd : t1 !! (made ++ [c]) = Some Dir).
  { destruct (t !! (made ++ [c])) as [[| |]|] eqn:E; try done.
    - destruct (mkdirs_lookup _ _ _ _ (made ++ [c]) H) as [Hk|[Hk _]]; congruence.
    - destruct (mkdirs_lookup _ _ _ _ (made ++ [c]) H) as [Hk|[Hk _]].
      + by rewrite lookup_insert_eq in Hk.
      + by rewrite lookup_insert_eq in Hk. }
  destruct n as [|n]; [lia|]. cbn [take].
  destruct (decide (n = 0)) as [->|Hn0]; [by rewrite take_0|].
  change (made ++ c :: take n rest) with (made ++ [c] ++ take n rest).
  rewrite app_assoc.
  destruct (t !! (made ++ [c])) as [[| |]|] eqn:E; try done;
    (eapply IH; [exact H|lia]).
Qed.

Lemma mkdirs_symlink_free todo : forall t made t1,
  mkdirs t made todo = Ok t1 -> symlink_free t -> symlink_free t1.
Proof.
  intros t made t1 H Hfree q target Hq.
  destruct (mkdirs_lookup _ _ _ _ q H) as [Hk|[_ Hk]]; [|congruence].
  rewrite Hk in Hq. by destruct (Hfree _ _ Hq).
Qed.

End TreeFacts.

(** ** [read_file] *)

Section ReadFacts.

(** What [read_file] does with a path the guard lets through. *)
Lemma read_file_run id p rel os :
  safe_rel_path p = Ok rel ->
  read_file id p os
  = (match realpath (os_tree os) (posixpath.join2 (safe_dirname id) rel) with
     | Some q =>
         match node_at (os_tree os) q with
         | Some (File c) => Ok {| rd_content := c; rd_id := id; rd_rel_path := rel |}
         | _ => Raise (HTTPException 404 "File does not exist")
         end
     | None => Raise (HTTPException 404 "File does not exist")
     end, os).
Proof.
  intros Hrel.
  unfold read_file, except_400, try_except, bind, lift, os_abspath, isfile,
    os_isfile, os_read_text, raise, ret.
  rewrite Hrel. cbv beta iota zeta.
  rewrite (prefix_check_passes _ _ _ _ Hrel). cbn [negb].
  destruct (realpath (os_tree os) _) as [q|] eqn:Hq; [|done].
  destruct (node_at (os_tree os) q) as [[c| |]|] eqn:Hn;
    cbn [negb]; cbv beta iota; rewrite ?Hq, ?Hn; done.
Qed.

Lemma read_file_invalid id p e os :
  safe_rel_path p = Raise e ->
  read_file id p os = (Raise (HTTPException 400 (exc_str e)), os).
Proof.
  intros H. destruct (safe_rel_path_raises _ _ H) as [msg ->].
  unfold read_file, except_400, try_except, bind, lift. by rewrite H.
Qed.

(** X4. [read_file] never changes the file tree and never answers "Path
    traversal detected".  A path that [safe_rel_path] rejects is answered
    400 with the message of that guard; a path it accepts that names no
    regular file is answered 404; and a reply, when there is one, holds
    the session id, the normalised path and what reading that file
    gave. *)
Theorem read_file_answers (id p : string) (os : os_state) :
  snd (read_file id p os) = os /\
  fst (read_file id p os) <> Raise (HTTPException 400 "Path traversal detected") /\
  match safe_rel_path p with
  | Raise e => fst (read_file id p os) = Raise (HTTPException 400 (exc_str e))
  | Ok rel =>
      rel = posixpath.normpath p /\
      if os_isfile os (posixpath.join2 (safe_dirname id) rel)
      then forall r, fst (read_file id p os) = Ok r ->
             rd_id r = id /\ rd_rel_path r = rel /\
             fst (os_read_text (posixpath.join2 (safe_dirname id) rel) os)
               = Ok (rd_content r)
      else fst (read_file id p os) = Raise (HTTPException 404 "File does not exist")
  end.
Proof.
  destruct (safe_rel_path p) as [rel|e] eqn:Hrel.
  - rewrite (read_file_run _ _ _ _ Hrel).
    unfold os_isfile, os_read_text.
    destruct (realpath (os_tree os) _) as [q|];
      [|by rewrite (safe_rel_path_ok _ _ Hrel)].
    destruct (node_at (os_tree os) q) as [[c| |]|];
      cbn [fst snd]; (split; [done|]); (split; [done|]);
      (split; [by apply safe_rel_path_ok|]); try done.
    by intros r [= <-].
  - rewrite (read_file_invalid _ _ _ _ Hrel). cbn [fst snd].
    split; [done|]. split; [|done].
    unfold safe_rel_path in Hrel. repeat case_match; by simplify_eq.
Qed.

End ReadFacts.

(** ** [write_file], and a write followed by a read *)

Section WriteFacts.
Local Arguments Ascii.eqb : simpl never.
Local Opaque resolve_fuel.

Lemma root_child_join x :
  root_child x = "/" +:+ join "/" ("tmp" :: "genie_repl" :: split x posixpath.sep).
Proof.
  rewrite <- (join_split x) at 1.
  destruct (split x posixpath.sep) eqn:E; [|done].
  by destruct (split_go_nonempty x "").
Qed.

(** When neither the session name nor the path is ".", the text the
    endpoints build is already normal. *)
Lemma target_is_file_path cwd session_id p rel :
  safe_rel_path p = Ok rel -> session_id <> "." -> rel <> "." ->
  posixpath.abspath cwd (posixpath.join2 (safe_dirname session_id) rel)
  = posixpath.join2 (safe_dirname session_id) rel.
Proof.
  intros Hrel Hid Hdot.
  rewrite (abspath_file_path _ _ _ _ Hrel), (place_eq _ _ _ Hrel).
  destruct (file_path_root session_id _ _ Hrel) as (x & -> & _ & Hx).
  rewrite root_child_join, Hx.
  destruct (safe_rel_path_shape _ _ Hrel) as [->|(cs & Hne & Hcl & ->)]; [done|].
  assert (Hsl : Forall (fun c => contains "/" c = false) cs).
  { eapply Forall_impl; [exact Hcl|]. by intros ? (_ & _ & _ & ?). }
  rewrite split_join, (kept_clean cs) by done.
  case_bool_decide as Hn; [done|].
  rewrite kept_cons_keep; [done|done|].
  intros Hd. by apply Hid, name_of_dot.
Qed.

(** A successful [write_file], step by step. *)
Lemma write_file_ok req os r os' rel :
  safe_rel_path (wf_rel_path req) = Ok rel ->
  write_file req os = (Ok r, os') ->
  let target := posixpath.abspath (os_cwd os)
                  (posixpath.join2 (safe_dirname (wf_id req)) rel) in
  exists qd t1 q,
    realpath (os_tree os) (dirname target) = Some qd /\
    mkdirs (os_tree os) [] qd = Ok t1 /\
    realpath t1 target = Some q /\
    node_at t1 q <> Some Dir /\
    node_at t1 (removelast q) = Some Dir /\
    os' = {| os_cwd := os_cwd os; os_tree := <[q := File (wf_content req)]> t1 |}.
Proof.
  intros Hrel. cbv zeta.
  unfold write_file, except_400_500, try_except, bind, lift, os_abspath.
  rewrite Hrel. cbv beta iota zeta.
  rewrite (prefix_check_passes _ _ _ _ Hrel). cbn [negb].
  set (target := posixpath.abspath (os_cwd os) _).
  unfold os_makedirs, raise, ret.
  destruct (realpath (os_tree os) (dirname target)) as [qd|] eqn:Hqd;
    [|cbn [is_exception]; cbv beta iota; by intros [=]].
  destruct (mkdirs (os_tree os) [] qd) as [t1|e] eqn:Hmk;
    [|cbv beta iota; destruct (is_exception e); [destruct e|]; by intros [=]].
  unfold os_write_text. cbn [os_tree set_tree].
  destruct (realpath t1 target) as [q|] eqn:Hq;
    [|cbn [is_exception]; cbv beta iota; by intros [=]].
  destruct (node_at t1 q) as [[c| |]|] eqn:Hn;
    destruct (node_at t1 (removelast q)) as [[c'| |]|] eqn:Hp;
    cbn [is_exception]; cbv beta iota; try (by intros [=]);
    intros [= <- <-]; exists qd, t1, q; repeat split; try done; by rewrite Hn.
Qed.

End WriteFacts.

Section RoundTrip.
Local Opaque resolve_fuel.

Lemma link_free_to_removelast t cur :
  link_free_to t cur -> link_free_to t (removelast cur).
Proof.
  intros H n target Hn. rewrite removelast_firstn_len in Hn |- *.
  rewrite length_take in Hn. rewrite take_take.
  replace (n `min` pred (length cur)) with n by lia. apply H. lia.
Qed.

Lemma link_free_to_snoc t cur c :
  link_free_to t cur ->
  (forall target, t !! (cur ++ [c]) <> Some (Symlink target)) ->
  link_free_to t (cur ++ [c]).
Proof.
  intros H Hc n target Hn. rewrite length_app in Hn. simpl in Hn.
  destruct (decide (n <= length cur)) as [Hle|Hgt].
  - rewrite take_app_le by done. apply H. lia.
  - rewrite take_ge by (rewrite length_app; simpl; lia). apply Hc.
Qed.

(** Resolution never ends on a link. *)
Lemma resolve_link_free t : forall f cur todo q,
  resolve f t cur todo = Some q -> link_free_to t cur -> link_free_to t q.
Proof.
  induction f as [|f IH]; intros cur todo q; [done|].
  destruct todo as [|c rest]; cbn [resolve]; [by intros [= <-]|].
  destruct (bool_decide (c = "") || bool_decide (c = ".")); [apply IH|].
  destruct (bool_decide (c = "..")).
  { intros H Hcur. eapply IH; [exact H|]. by apply link_free_to_removelast. }
  destruct (t !! (cur ++ [c])) as [[| |target]|] eqn:E.
  - intros H Hcur. eapply IH; [exact H|]. apply link_free_to_snoc; [done|].
    intros ?. by rewrite E.
  - intros H Hcur. eapply IH; [exact H|]. apply link_free_to_snoc; [done|].
    intros ?. by rewrite E.
  - intros H Hcur. eapply IH; [exact H|].
    destruct (startswith target "/"); [|done].
    intros n ? Hn. simpl in Hn. lia.
  - intros H Hcur. eapply IH; [exact H|]. apply link_free_to_snoc; [done|].
    intros ?. by rewrite E.
Qed.

Lemma realpath_not_link t p q target :
  realpath t p = Some q -> q <> [] -> t !! q <> Some (Symlink target).
Proof.
  intros H Hq. unfold realpath in H.
  assert (Hfree : link_free_to t q).
  { eapply resolve_link_free; [exact H|]. intros n ? Hn. simpl in Hn. lia. }
  specialize (Hfree (length q) target). rewrite firstn_all in Hfree.
  apply Hfree. destruct q; [done|simpl; lia].
Qed.

(** Putting a regular file where no link was leaves every resolution as
    it was. *)
Lemma resolve_keeps_files t q content :
  (forall target, t !! q <> Some (Symlink target)) ->
  forall f cur todo,
    resolve f (<[q := File content]> t) cur todo = resolve f t cur todo.
Proof.
  intros Hq. induction f as [|f IH]; intros cur todo; [done|].
  destruct todo as [|c rest]; cbn [resolve]; [done|].
  rewrite !IH.
  destruct (decide (q = cur ++ [c])) as [Heq|Hne].
  - rewrite <- Heq, lookup_insert_eq.
    destruct (t !! q) as [[| |target]|] eqn:E; try done.
    by destruct (Hq target).
  - rewrite lookup_insert_ne by done.
    destruct (t !! (cur ++ [c])) as [[| |target]|]; by rewrite ?IH.
Qed.

(** X5. What [write_file] has written, [read_file] returns: after a
    successful write, reading the same path of the same session gives the
    content that was sent, with the normalised path, whatever links the
    tree holds.  The statement leaves out the session id "." and a path
    that normalises to ".", for which the text handed to [open] by the two
    endpoints differs, and content with a carriage return, which a
    text-mode read translates. *)
Theorem write_then_read (req : WriteFileRequest) (os os' : os_state)
    (r : path_reply) :
  write_file req os = (Ok r, os') ->
  wf_id req <> "." ->
  posixpath.normpath (wf_rel_path req) <> "." ->
  contains (String "013"%char "") (wf_content req) = false ->
  read_file (wf_id req) (wf_rel_path req) os'
  = (Ok {| rd_content := wf_content req; rd_id := wf_id req;
           rd_rel_path := posixpath.normpath (wf_rel_path req) |}, os').
Proof.
  intros Hw Hid Hdot _.
  destruct (safe_rel_path (wf_rel_path req)) as [rel|e] eqn:Hrel; cycle 1.
  { destruct (safe_rel_path_raises _ _ Hrel) as [msg ->].
    by rewrite (write_file_invalid _ _ _ Hrel) in Hw. }
  pose proof (safe_rel_path_ok _ _ Hrel) as Hnorm. rewrite <- Hnorm in Hdot |- *.
  destruct (write_file_ok _ _ _ _ _ Hrel Hw)
    as (qd & t1 & q & _ & _ & Hq & Hnd & _ & ->).
  rewrite (target_is_file_path _ _ _ _ Hrel Hid Hdot) in Hq.
  rewrite (read_file_run _ _ _ _ Hrel). cbn [os_tree].
  assert (Hne : q <> []).
  { intros ->. by apply Hnd. }
  unfold realpath. rewrite resolve_keeps_files; cycle 1.
  { intros target. by eapply realpath_not_link. }
  fold (realpath t1 (posixpath.join2 (safe_dirname (wf_id req)) rel)).
  rewrite Hq. unfold node_at. rewrite (bool_decide_eq_false_2 _ Hne).
  by rewrite lookup_insert_eq.
Qed.

End RoundTrip.

(** ** The file endpoints on trees without links *)

Section PlainTrees.
Local Arguments Ascii.eqb : simpl never.

Lemma clean_slashless cs :
  Forall clean cs -> Forall (fun c => contains "/" c = false) cs.
Proof. intros H. eapply Forall_impl; [exact H|]. by intros ? (_ & _ & _ & ?). Qed.

Lemma clean_good cs :
  Forall clean cs -> Forall (fun c => c <> "" /\ c <> ".") cs.
Proof. intros H. eapply Forall_impl; [exact H|]. by intros ? (? & ? & _). Qed.

Lemma clean_no_dotdot cs : Forall clean cs -> ".." ∉ cs.
Proof.
  intros H Hin. rewrite Forall_forall in H. by destruct (H _ Hin) as (_ & _ & ? & _).
Qed.

(** Where an absolute text of clean components leads. *)
Lemma realpath_abs t cs :
  symlink_free t -> cs <> [] -> Forall clean cs ->
  realpath t ("/" +:+ join "/" cs)
  = if decide (S (length cs) < resolve_fuel) then Some cs else None.
Proof.
  intros Hfree Hne Hcl.
  rewrite realpath_plain; [|done|]; rewrite split_abs by (done || by apply clean_slashless).
  - rewrite kept_cons_skip by auto. rewrite kept_all by (by apply clean_good). done.
  - apply not_elem_of_cons. split; [done|by apply clean_no_dotdot].
Qed.

Lemma removelast_clean cs : Forall clean cs -> Forall clean (removelast cs).
Proof.
  intros H. destruct (decide (cs = [])) as [->|Hne]; [done|].
  destruct (exists_last Hne) as (l' & a & ->). rewrite removelast_last.
  by apply Forall_app in H as [? _].
Qed.

(** [dirname] of an absolute text of two clean components or more. *)
Lemma dirname_abs cs :
  2 <= length cs -> Forall clean cs ->
  dirname ("/" +:+ join "/" cs) = "/" +:+ join "/" (removelast cs).
Proof.
  intros Hlen Hcl.
  assert (Hne : cs <> []) by (intros ->; simpl in Hlen; lia).
  destruct (exists_last Hne) as (L & l & ->).
  rewrite removelast_last. rewrite length_app in Hlen. simpl in Hlen.
  assert (HL : L <> []) by (intros ->; simpl in Hlen; lia).
  apply Forall_app in Hcl as [HclL Hl].
  destruct (exists_last HL) as (L' & c & ->).
  assert (Hc : c <> "").
  { apply Forall_app in HclL as [_ Hc]. by apply Forall_inv in Hc as (? & _). }
  rewrite (dirname_split _ ("" :: L' ++ [c]) l c).
  - by destruct L'.
  - rewrite split_abs.
    + done.
    + by destruct L'.
    + apply clean_slashless, Forall_app. by split.
  - change ("" :: L' ++ [c]) with (("" :: L') ++ [c]). apply last_snoc.
  - done.
Qed.

Lemma place_length session_id p rel :
  safe_rel_path p = Ok rel -> 2 <= length (place session_id rel).
Proof. intros Hrel. rewrite (place_eq _ _ _ Hrel). simpl. lia. Qed.

(** A successful [write_file] in a tree without links: the ancestors of
    the place are made, and the file is put at the place. *)
Lemma write_file_plain req os r os' rel :
  symlink_free (os_tree os) ->
  safe_rel_path (wf_rel_path req) = Ok rel ->
  write_file req os = (Ok r, os') ->
  let q := place (wf_id req) rel in
  exists t1,
    mkdirs (os_tree os) [] (removelast q) = Ok t1 /\
    t1 !! q <> Some Dir /\
    os' = {| os_cwd := os_cwd os; os_tree := <[q := File (wf_content req)]> t1 |}.
Proof.
  intros Hfree Hrel Hw q.
  destruct (write_file_ok _ _ _ _ _ Hrel Hw)
    as (qd & t1 & q' & Hqd & Hmk & Hq & Hnd & _ & ->).
  pose proof (place_clean (wf_id req) _ _ Hrel) as Hcl.
  pose proof (place_length (wf_id req) _ _ Hrel) as Hlen.
  pose proof (place_nonempty (wf_id req) _ _ Hrel) as Hne.
  fold q in Hcl, Hlen, Hne.
  rewrite (abspath_file_path _ _ _ _ Hrel) in Hqd, Hq. fold q in Hqd, Hq.
  rewrite dirname_abs in Hqd by done.
  rewrite realpath_abs in Hqd; [|done| |by apply removelast_clean]; cycle 1.
  { intros E. apply (f_equal length) in E.
    destruct (exists_last Hne) as (L & l & HL). rewrite HL in E, Hlen.
    rewrite removelast_last in E. rewrite length_app in Hlen. simpl in *. lia. }
  case_decide; [|done]. injection Hqd as <-.
  rewrite realpath_abs in Hq;
    [|by eapply mkdirs_symlink_free|done|done].
  case_decide; [|done]. injection Hq as <-.
  exists t1. split; [done|]. split; [|done].
  unfold node_at in Hnd. by rewrite bool_decide_eq_false_2 in Hnd.
Qed.

Lemma insert_file_symlink_free t q content :
  symlink_free t -> symlink_free (<[q := File content]> t).
Proof.
  intros H k target. destruct (decide (q = k)) as [->|Hne].
  - by rewrite lookup_insert_eq.
  - rewrite lookup_insert_ne by done. apply H.
Qed.

Lemma realpath_file_path t session_id p rel :
  symlink_free t -> safe_rel_path p = Ok rel ->
  realpath t (posixpath.join2 (safe_dirname session_id) rel) = None \/
  realpath t (posixpath.join2 (safe_dirname session_id) rel)
  = Some (place session_id rel).
Proof.
  intros Hfree Hrel.
  rewrite realpath_plain; [|done|by eapply file_path_no_dotdot].
  case_decide; [by right|by left].
Qed.

(** What [read_file] answers in a tree without links depends on the node
    at the place only. *)
Lemma read_file_plain id p rel os os' :
  symlink_free (os_tree os) -> symlink_free (os_tree os') ->
  safe_rel_path p = Ok rel ->
  (forall c, os_tree os' !! place id rel = Some (File c) <->
             os_tree os !! place id rel = Some (File c)) ->
  fst (read_file id p os') = fst (read_file id p os).
Proof.
  intros Hfree Hfree' Hrel Hsame.
  rewrite !(read_file_run _ _ _ _ Hrel). cbn [fst].
  rewrite !realpath_plain by (done || by eapply file_path_no_dotdot).
  case_decide; [|done]. fold (place id rel).
  pose proof (place_nonempty id _ _ Hrel) as Hne.
  unfold node_at. rewrite (bool_decide_eq_false_2 _ Hne).
  assert (Hf : match os_tree os' !! place id rel with
               | Some (File c) => Some c | _ => None end
               = match os_tree os !! place id rel with
                 | Some (File c) => Some c | _ => None end).
  { destruct (os_tree os' !! place id rel) as [[c| |]|].
    - by rewrite (proj1 (Hsame c) eq_refl).
    - destruct (os_tree os !! place id rel) as [[c| |]|]; try done.
      by pose proof (proj2 (Hsame c) eq_refl).
    - destruct (os_tree os !! place id rel) as [[c| |]|]; try done.
      by pose proof (proj2 (Hsame c) eq_refl).
    - destruct (os_tree os !! place id rel) as [[c| |]|]; try done.
      by pose proof (proj2 (Hsame c) eq_refl). }
  destruct (os_tree os' !! place id rel) as [[c| |]|];
    destruct (os_tree os !! place id rel) as [[c0| |]|]; by simplify_eq.
Qed.

End PlainTrees.

Section AfterWrite.
Local Arguments Ascii.eqb : simpl never.

Lemma kept_name name :
  kept (if bool_decide (name = "") then [] else [name]) = kept [name].
Proof.
  case_bool_decide as H; [|done]. subst. by rewrite kept_cons_skip by auto.
Qed.

(** Where the session directory is, in a tree without links. *)
Lemma realpath_session t session_id :
  symlink_free t ->
  realpath t (safe_dirname session_id)
  = Some ("tmp" :: "genie_repl" :: kept [name_of session_id]).
Proof.
  intros Hfree.
  destruct (safe_dirname_shape session_id) as (Hw & Hslash & Hdots).
  fold (name_of session_id) in Hw, Hslash, Hdots.
  assert (Hsplit : split (safe_dirname session_id) posixpath.sep
                   = ["" ; "tmp"; "genie_repl"; name_of session_id]).
  { rewrite Hw, root_split. by rewrite (split_go_clean _ "" Hslash). }
  rewrite realpath_plain, Hsplit; [|done|].
  - rewrite decide_True by (unfold resolve_fuel; simpl; lia).
    rewrite kept_cons_skip by auto. by rewrite !kept_cons_keep by done.
  - rewrite Hsplit. repeat (apply not_elem_of_cons; split; [try done|]).
    + intros Heq. by rewrite <- Heq in Hdots.
    + apply not_elem_of_nil.
Qed.

Lemma kept_rel p rel :
  safe_rel_path p = Ok rel -> rel <> "." ->
  kept (split rel posixpath.sep) <> [] /\
  join "/" (kept (split rel posixpath.sep)) = rel.
Proof.
  intros Hrel Hdot.
  destruct (safe_rel_path_shape _ _ Hrel) as [->|(cs & Hne & Hcl & ->)]; [done|].
  rewrite split_join by (done || by apply clean_slashless).
  by rewrite kept_clean.
Qed.

Lemma removelast_app_r {A} (l1 l2 : list A) :
  l2 <> [] -> removelast (l1 ++ l2) = l1 ++ removelast l2.
Proof. intros H. by apply removelast_app. Qed.

(** X6. A successful [write_file] brings the session into being: in a
    tree without links, after a write to a path that does not normalise
    to ".", the directory of the session exists, so that [run_command] for
    the same id passes its guard and returns a response. *)
Theorem write_file_creates_session (req : WriteFileRequest) (os os' : os_state)
    (r : path_reply) :
  symlink_free (os_tree os) ->
  write_file req os = (Ok r, os') ->
  posixpath.normpath (wf_rel_path req) <> "." ->
  os_isdir os' (safe_dirname (wf_id req)) = true /\
  forall (subprocess_run : string -> string -> SE os_state (string * string))
         (format_exc : exc -> string) (cmd : string),
    (forall e os2,
       subprocess_run cmd (safe_dirname (wf_id req)) os' = (Raise e, os2) ->
       is_exception e = true) ->
    exists resp os2,
      run_command subprocess_run format_exc
        {| rc_id := wf_id req; rc_cmd := cmd |} os' = (Ok resp, os2).
Proof.
  intros Hfree Hw Hdot.
  destruct (safe_rel_path (wf_rel_path req)) as [rel|e] eqn:Hrel; cycle 1.
  { destruct (safe_rel_path_raises _ _ Hrel) as [msg ->].
    by rewrite (write_file_invalid _ _ _ Hrel) in Hw. }
  rewrite <- (safe_rel_path_ok _ _ Hrel) in Hdot.
  destruct (write_file_plain _ _ _ _ _ Hfree Hrel Hw) as (t1 & Hmk & _ & ->).
  assert (Hdir : os_isdir {| os_cwd := os_cwd os;
                   os_tree := <[place (wf_id req) rel := File (wf_content req)]> t1 |}
                   (safe_dirname (wf_id req)) = true).
  { unfold os_isdir. cbn [os_tree].
    rewrite realpath_session; cycle 1.
    { apply insert_file_symlink_free. by eapply mkdirs_symlink_free. }
    set (A := "tmp" :: "genie_repl" :: kept [name_of (wf_id req)]).
    destruct (kept_rel _ _ Hrel Hdot) as [Hcs _].
    assert (Hq : place (wf_id req) rel = A ++ kept (split rel posixpath.sep)).
    { rewrite (place_eq _ _ _ Hrel), kept_name. done. }
    assert (HA : t1 !! A = Some Dir).
    { rewrite Hq, removelast_app_r in Hmk by done.
      pose proof (mkdirs_prefix _ _ _ _ (length A) Hmk) as Hp.
      rewrite take_app_length in Hp. apply Hp.
      rewrite length_app. subst A. simpl. lia. }
    unfold node_at. rewrite bool_decide_eq_false_2 by done.
    rewrite lookup_insert_ne, HA; [done|].
    rewrite Hq. intros E. apply (f_equal length) in E.
    rewrite length_app in E.
    destruct (kept (split rel posixpath.sep)); [done|simpl in E; lia]. }
  split; [exact Hdir|].
  intros subprocess_run format_exc cmd Hexc.
  unfold run_command, bind, isdir, try_except, ret. cbn [rc_id rc_cmd].
  rewrite Hdir. cbn [negb].
  destruct (subprocess_run cmd (safe_dirname (wf_id req)) _)
    as [[[out err]|e] os1] eqn:E; [by eauto|].
  rewrite (Hexc e os1 eq_refl). eauto.
Qed.

End AfterWrite.

Section Frames.
Local Arguments Ascii.eqb : simpl never.

Lemma place_differs cwd id id' p p' rel rel' :
  safe_rel_path p = Ok rel -> safe_rel_path p' = Ok rel' ->
  posixpath.abspath cwd (posixpath.join2 (safe_dirname id') rel')
  <> posixpath.abspath cwd (posixpath.join2 (safe_dirname id) rel) ->
  place id' rel' <> place id rel.
Proof.
  intros Hrel Hrel' Hne Heq. apply Hne.
  by rewrite (abspath_file_path _ _ _ _ Hrel), (abspath_file_path _ _ _ _ Hrel'), Heq.
Qed.

(** X7. A write changes what is read at its own path only: in a tree
    without links, after a successful [write_file], [read_file] answers
    for every other target, in this session or another, what it answered
    before. *)
Theorem write_file_leaves_other_files (req : WriteFileRequest)
    (os os' : os_state) (r : path_reply) (id' p' : string) :
  symlink_free (os_tree os) ->
  write_file req os = (Ok r, os') ->
  posixpath.abspath (os_cwd os)
    (posixpath.join2 (safe_dirname id') (posixpath.normpath p'))
  <> posixpath.abspath (os_cwd os)
       (posixpath.join2 (safe_dirname (wf_id req))
          (posixpath.normpath (wf_rel_path req))) ->
  fst (read_file id' p' os') = fst (read_file id' p' os).
Proof.
  intros Hfree Hw Hne.
  destruct (safe_rel_path (wf_rel_path req)) as [rel|e] eqn:Hrel; cycle 1.
  { destruct (safe_rel_path_raises _ _ Hrel) as [msg ->].
    by rewrite (write_file_invalid _ _ _ Hrel) in Hw. }
  destruct (safe_rel_path p') as [rel'|e] eqn:Hrel'; cycle 1.
  { by rewrite !(read_file_invalid _ _ _ _ Hrel'). }
  rewrite <- (safe_rel_path_ok _ _ Hrel), <- (safe_rel_path_ok _ _ Hrel') in Hne.
  pose proof (place_differs _ _ _ _ _ _ _ Hrel Hrel' Hne) as Hq.
  destruct (write_file_plain _ _ _ _ _ Hfree Hrel Hw) as (t1 & Hmk & _ & ->).
  apply (read_file_plain _ _ rel'); [done| |done|].
  { apply insert_file_symlink_free. by eapply mkdirs_symlink_free. }
  intros c. cbn [os_tree]. rewrite lookup_insert_ne by done.
  destruct (mkdirs_lookup _ _ _ _ (place id' rel') Hmk) as [->|[H1 H2]]; [done|].
  rewrite H1, H2. done.
Qed.

(** A successful [delete_file] in a tree without links removes the node
    at the place. *)
Lemma delete_file_plain req os r os' rel :
  symlink_free (os_tree os) ->
  safe_rel_path (df_rel_path req) = Ok rel ->
  delete_file req os = (Ok r, os') ->
  os' = {| os_cwd := os_cwd os;
           os_tree := delete (place (df_id req) rel) (os_tree os) |}.
Proof.
  intros Hfree Hrel.
  pose proof (place_clean (df_id req) _ _ Hrel) as Hcl.
  pose proof (place_nonempty (df_id req) _ _ Hrel) as Hne.
  unfold delete_file, except_400_500, try_except, bind, lift, os_abspath,
    isfile, raise, ret.
  rewrite Hrel. cbv beta iota zeta.
  rewrite (prefix_check_passes _ _ _ _ Hrel). cbn [negb].
  rewrite (abspath_file_path _ _ _ _ Hrel).
  set (q := place (df_id req) rel) in *.
  unfold os_isfile. rewrite realpath_abs by done.
  case_decide as Hfuel; [|cbn [negb is_exception]; by intros [=]].
  destruct (node_at (os_tree os) q) as [[c| |]|] eqn:Hn;
    cbn [negb is_exception]; try (by intros [=]).
  unfold os_remove. rewrite lpath_plain; [|done|]; cycle 1.
  { rewrite split_abs by (done || by apply clean_slashless).
    apply not_elem_of_cons. split; [done|by apply clean_no_dotdot]. }
  rewrite split_abs by (done || by apply clean_slashless).
  rewrite kept_cons_skip by auto. rewrite kept_all by (by apply clean_good).
  rewrite decide_True by lia. rewrite Hn. by intros [= _ <-].
Qed.

Lemma delete_symlink_free t q : symlink_free t -> symlink_free (delete q t).
Proof.
  intros H k target Hk. apply lookup_delete_Some in Hk as [_ Hk]. by apply H in Hk.
Qed.

(** X8. What [delete_file] has deleted is gone, and nothing else is: in
    a tree without links, after a successful delete, [read_file] answers
    404 for the same path of the same session, and for every other target
    what it answered before. *)
Theorem delete_then_read (req : DeleteFileRequest) (os os' : os_state)
    (r : path_reply) :
  symlink_free (os_tree os) ->
  delete_file req os = (Ok r, os') ->
  read_file (df_id req) (df_rel_path req) os'
    = (Raise (HTTPException 404 "File does not exist"), os') /\
  forall id' p',
    posixpath.abspath (os_cwd os)
      (posixpath.join2 (safe_dirname id') (posixpath.normpath p'))
    <> posixpath.abspath (os_cwd os)
         (posixpath.join2 (safe_dirname (df_id req))
            (posixpath.normpath (df_rel_path req))) ->
    fst (read_file id' p' os') = fst (read_file id' p' os).
Proof.
  intros Hfree Hd.
  destruct (safe_rel_path (df_rel_path req)) as [rel|e] eqn:Hrel; cycle 1.
  { revert Hd. unfold delete_file, except_400_500, try_except, bind, lift.
    rewrite Hrel. destruct (safe_rel_path_raises _ _ Hrel) as [msg ->]. done. }
  pose proof (delete_file_plain _ _ _ _ _ Hfree Hrel Hd) as ->.
  pose proof (place_nonempty (df_id req) _ _ Hrel) as Hne.
  split.
  - rewrite (read_file_run _ _ _ _ Hrel). cbn [os_tree].
    destruct (realpath_file_path (delete (place (df_id req) rel) (os_tree os))
                (df_id req) _ _ (delete_symlink_free _ _ Hfree) Hrel) as [->| ->];
      [done|].
    unfold node_at. rewrite (bool_decide_eq_false_2 _ Hne).
    by rewrite lookup_delete_eq.
  - intros id' p' Hdiff.
    destruct (safe_rel_path p') as [rel'|e] eqn:Hrel'; cycle 1.
    { by rewrite !(read_file_invalid _ _ _ _ Hrel'). }
    rewrite <- (safe_rel_path_ok _ _ Hrel), <- (safe_rel_path_ok _ _ Hrel') in Hdiff.
    pose proof (place_differs _ _ _ _ _ _ _ Hrel Hrel' Hdiff) as Hq.
    apply (read_file_plain _ _ rel'); [done|by apply delete_symlink_free|done|].
    intros c. cbn [os_tree]. by rewrite lookup_delete_ne.
Qed.

End Frames.

Section Rename.
Local Arguments Ascii.eqb : simpl never.

Lemma file_path_split session_id p rel :
  safe_rel_path p = Ok rel ->
  split (posixpath.join2 (safe_dirname session_id) rel) posixpath.sep
  = "" :: "tmp" :: "genie_repl"
    :: (if bool_decide (name_of session_id = "") then [] else [name_of session_id])
    ++ split rel posixpath.sep.
Proof.
  intros Hrel. destruct (file_path_root session_id _ _ Hrel) as (x & -> & _ & Hx).
  rewrite root_split. fold (split x posixpath.sep). by rewrite Hx.
Qed.

Lemma kept_length cs : length (kept cs) <= length cs.
Proof. apply length_filter. Qed.

(** The directory part of the text of a target, for a path that does not
    normalise to ".": its components are those of the text but the last,
    and it leads to the parent of the place. *)
Lemma dirname_file_path session_id p rel :
  safe_rel_path p = Ok rel -> rel <> "." ->
  let fp := posixpath.join2 (safe_dirname session_id) rel in
  split (dirname fp) posixpath.sep = removelast (split fp posixpath.sep) /\
  kept (removelast (split fp posixpath.sep)) = removelast (place session_id rel).
Proof.
  intros Hrel Hdot fp.
  destruct (safe_dirname_shape session_id) as (_ & Hslash & _).
  fold (name_of session_id) in Hslash.
  pose proof (file_path_split session_id _ _ Hrel) as HS. fold fp in HS.
  destruct (safe_rel_path_shape _ _ Hrel) as [->|(cs & Hne & Hcl & Hjoin)]; [done|].
  assert (Hcs : split rel posixpath.sep = cs).
  { rewrite Hjoin. apply split_join; [done|by apply clean_slashless]. }
  rewrite Hcs in HS.
  destruct (exists_last Hne) as (cs' & l & ->).
  apply Forall_app in Hcl as [Hcl' Hl]. apply Forall_inv in Hl.
  set (N := if bool_decide (name_of session_id = "") then []
            else [name_of session_id]) in *.
  set (M := "tmp" :: "genie_repl" :: N ++ cs').
  assert (HSM : split fp posixpath.sep = ("" :: M) ++ [l]).
  { rewrite HS. subst M. simpl. by rewrite <- app_assoc. }
  assert (HM : Forall (fun c => c <> "" /\ contains "/" c = false) M).
  { subst M. repeat (constructor; [done|]). apply Forall_app. split.
    - subst N. case_bool_decide; [done|]. by constructor.
    - eapply Forall_impl; [exact Hcl'|]. by intros ? (? & _ & _ & ?). }
  assert (Hlast : exists c, last ("" :: M) = Some c /\ c <> "").
  { assert (HMne : M <> []) by done.
    destruct (exists_last HMne) as (M' & c & HMeq). exists c.
    rewrite HMeq in HM |- *. apply Forall_app in HM as [_ HM].
    apply Forall_inv in HM as [? _].
    change ("" :: M' ++ [c]) with (("" :: M') ++ [c]). by rewrite last_snoc. }
  destruct Hlast as (c & Hlast & Hc).
  rewrite HSM, removelast_last.
  split.
  - rewrite (dirname_split fp ("" :: M) l c HSM Hlast Hc).
    apply split_join; [done|]. constructor; [done|].
    eapply Forall_impl; [exact HM|]. by intros ? [_ ?].
  - unfold place. fold fp. rewrite HSM.
    unfold kept at 2. rewrite filter_app. fold (kept ("" :: M)) (kept [l]).
    destruct Hl as (? & ? & _).
    rewrite (kept_cons_keep l) by done. by rewrite kept_nil, removelast_last.
Qed.

(** A successful [rename_file] in a tree without links: the ancestors of
    the new place are made, and the file at the old place moves there. *)
Lemma rename_file_plain req os r os' old_rel new_rel :
  symlink_free (os_tree os) ->
  safe_rel_path (rn_old_path req) = Ok old_rel ->
  safe_rel_path (rn_new_path req) = Ok new_rel ->
  new_rel <> "." ->
  rename_file req os = (Ok r, os') ->
  let qo := place (rn_id req) old_rel in
  let qn := place (rn_id req) new_rel in
  exists t1 content,
    realpath (os_tree os) (posixpath.join2 (safe_dirname (rn_id req)) old_rel)
      = Some qo /\
    os_tree os !! qo = Some (File content) /\
    mkdirs (os_tree os) [] (removelast qn) = Ok t1 /\
    os' = {| os_cwd := os_cwd os;
             os_tree := <[qn := File content]> (delete qo t1) |}.
Proof.
  intros Hfree Hold Hnew Hdot. cbv zeta.
  pose proof (place_nonempty (rn_id req) _ _ Hold) as Hqo.
  pose proof (place_nonempty (rn_id req) _ _ Hnew) as Hqn.
  destruct (dirname_file_path (rn_id req) _ _ Hnew Hdot) as [Hdsplit Hdkept].
  pose proof (file_path_no_dotdot (rn_id req) _ _ Hold) as Hddo.
  pose proof (file_path_no_dotdot (rn_id req) _ _ Hnew) as Hddn.
  unfold rename_file, except_400_500, try_except, bind, lift, os_abspath,
    isfile, raise, ret.
  rewrite Hold, Hnew. cbv beta iota zeta.
  rewrite (prefix_check_passes _ _ _ _ Hold), (prefix_check_passes _ _ _ _ Hnew).
  cbn [negb orb].
  set (fo := posixpath.join2 (safe_dirname (rn_id req)) old_rel) in *.
  set (fn := posixpath.join2 (safe_dirname (rn_id req)) new_rel) in *.
  set (qo := place (rn_id req) old_rel) in *.
  set (qn := place (rn_id req) new_rel) in *.
  unfold os_isfile. rewrite (realpath_plain _ fo Hfree Hddo).
  change (kept (split fo posixpath.sep)) with qo.
  case_decide as Hfo; [|cbn [negb is_exception]; by intros [=]].
  unfold node_at at 1. rewrite (bool_decide_eq_false_2 _ Hqo).
  destruct (os_tree os !! qo) as [[c| |]|] eqn:Hn;
    cbn [negb is_exception]; cbv beta iota; try (by intros [=]).
  unfold os_makedirs. cbv beta iota.
  assert (Hddd : ".." ∉ split (dirname fn) posixpath.sep).
  { rewrite Hdsplit. intros Hin. apply Hddn.
    destruct (exists_last (split_go_nonempty fn "")) as (L & l & HL).
    fold (split fn posixpath.sep) in HL. rewrite HL in Hin |- *.
    rewrite removelast_last in Hin. apply elem_of_app. by left. }
  rewrite (realpath_plain _ (dirname fn) Hfree Hddd), Hdsplit, Hdkept.
  case_decide as Hfd; [|cbn [is_exception]; by intros [=]].
  destruct (mkdirs (os_tree os) [] (removelast qn)) as [t1|e] eqn:Hmk;
    [|cbv beta iota; destruct (is_exception e); [destruct e|]; by intros [=]].
  pose proof (mkdirs_symlink_free _ _ _ _ Hmk Hfree) as Hfree1.
  unfold os_rename. cbv beta iota. cbn [os_tree set_tree].
  rewrite (lpath_plain _ fo Hfree1 Hddo), (lpath_plain _ fn Hfree1 Hddn).
  change (kept (split fo posixpath.sep)) with qo.
  change (kept (split fn posixpath.sep)) with qn.
  assert (Hlo : length qo <= resolve_fuel).
  { pose proof (kept_length (split fo posixpath.sep)) as Hk.
    change (kept (split fo posixpath.sep)) with qo in Hk. lia. }
  assert (Hln : length qn <= resolve_fuel).
  { pose proof (kept_length (split fn posixpath.sep)) as Hk.
    destruct (exists_last (split_go_nonempty fn "")) as (L & l & HL).
    fold (split fn posixpath.sep) in HL. rewrite HL in Hfd, Hk.
    rewrite removelast_last in Hfd. rewrite length_app in Hk. simpl in Hk.
    rewrite <- HL in Hk. change (kept (split fn posixpath.sep)) with qn in Hk. lia. }
  rewrite !decide_True by done.
  assert (Hn1 : t1 !! qo = Some (File c)).
  { destruct (mkdirs_lookup _ _ _ _ qo Hmk) as [->|[? _]]; congruence. }
  unfold node_at. rewrite (bool_decide_eq_false_2 _ Hqo), Hn1.
  rewrite (bool_decide_eq_false_2 _ Hqn).
  destruct (t1 !! qn) as [[c'| |]|];
    destruct (if bool_decide (removelast qn = []) then Some Dir
              else t1 !! removelast qn) as [[c''| |]|];
    cbn [is_exception]; try (by intros [=]);
    intros [= _ <-]; exists t1, c; done.
Qed.

End Rename.

Section RenameMoves.
Local Arguments Ascii.eqb : simpl never.

Lemma place_inj id p p' rel rel' :
  safe_rel_path p = Ok rel -> safe_rel_path p' = Ok rel' ->
  rel <> "." -> rel' <> "." ->
  place id rel = place id rel' -> rel = rel'.
Proof.
  intros Hrel Hrel' Hdot Hdot' Heq.
  rewrite (place_eq _ _ _ Hrel), (place_eq _ _ _ Hrel') in Heq.
  injection Heq as Heq. apply app_inv_head in Heq.
  destruct (kept_rel _ _ Hrel Hdot) as [_ <-].
  destruct (kept_rel _ _ Hrel' Hdot') as [_ <-].
  by rewrite Heq.
Qed.

(** X9. [rename_file] moves the content: in a tree without links, after
    a successful rename between two different paths, neither of which
    normalises to ".", [read_file] returns at the new path what it
    returned at the old path before, and answers 404 at the old path.
    The new path is taken to have fewer than 4000 components. *)
Theorem rename_then_read (req : RenameFileRequest) (os os' : os_state)
    (r : rename_reply) :
  let old := posixpath.normpath (rn_old_path req) in
  let new := posixpath.normpath (rn_new_path req) in
  symlink_free (os_tree os) ->
  rename_file req os = (Ok r, os') ->
  old <> "." -> new <> "." -> old <> new ->
  length (split new posixpath.sep) < 4000 ->
  exists content,
    fst (read_file (rn_id req) (rn_old_path req) os)
      = Ok {| rd_content := content; rd_id := rn_id req; rd_rel_path := old |} /\
    fst (read_file (rn_id req) (rn_new_path req) os')
      = Ok {| rd_content := content; rd_id := rn_id req; rd_rel_path := new |} /\
    fst (read_file (rn_id req) (rn_old_path req) os')
      = Raise (HTTPException 404 "File does not exist").
Proof.
  intros old new Hfree Hr Hold_dot Hnew_dot Hdiff Hlen.
  destruct (safe_rel_path (rn_old_path req)) as [old_rel|e] eqn:Hold; cycle 1.
  { revert Hr. unfold rename_file, except_400_500, try_except, bind, lift.
    rewrite Hold. destruct (safe_rel_path_raises _ _ Hold) as [msg ->]. done. }
  destruct (safe_rel_path (rn_new_path req)) as [new_rel|e] eqn:Hnew; cycle 1.
  { revert Hr. unfold rename_file, except_400_500, try_except, bind, lift.
    rewrite Hold, Hnew. destruct (safe_rel_path_raises _ _ Hnew) as [msg ->]. done. }
  subst old new.
  rewrite <- (safe_rel_path_ok _ _ Hold) in *.
  rewrite <- (safe_rel_path_ok _ _ Hnew) in *.
  destruct (rename_file_plain _ _ _ _ _ _ Hfree Hold Hnew Hnew_dot Hr)
    as (t1 & content & Hro & Hno & Hmk & ->).
  set (qo := place (rn_id req) old_rel) in *.
  set (qn := place (rn_id req) new_rel) in *.
  pose proof (place_nonempty (rn_id req) _ _ Hold) as Hqo.
  pose proof (place_nonempty (rn_id req) _ _ Hnew) as Hqn.
  assert (Hqq : qo <> qn).
  { intros Heq. apply Hdiff. by eapply (place_inj (rn_id req)). }
  assert (Hfree' : symlink_free (<[qn := File content]> (delete qo t1))).
  { apply insert_file_symlink_free, delete_symlink_free.
    by eapply mkdirs_symlink_free. }
  exists content. split; [|split].
  - rewrite (read_file_run _ _ _ _ Hold). cbn [fst]. rewrite Hro.
    unfold node_at. by rewrite (bool_decide_eq_false_2 _ Hqo), Hno.
  - rewrite (read_file_run _ _ _ _ Hnew). cbn [fst os_tree].
    rewrite realpath_plain by (done || by eapply file_path_no_dotdot).
    rewrite decide_True; cycle 1.
    { rewrite (file_path_split _ _ _ Hnew). cbn [length]. rewrite length_app.
      assert (length (if bool_decide (name_of (rn_id req) = "") then []
                      else [name_of (rn_id req)]) <= 1) by (case_bool_decide; simpl; lia).
      unfold resolve_fuel. lia. }
    change (kept (split (posixpath.join2 (safe_dirname (rn_id req)) new_rel)
                    posixpath.sep)) with qn.
    unfold node_at. rewrite (bool_decide_eq_false_2 _ Hqn).
    by rewrite lookup_insert_eq.
  - rewrite (read_file_run _ _ _ _ Hold). cbn [fst os_tree].
    destruct (realpath_file_path _ (rn_id req) _ _ Hfree' Hold) as [->| ->];
      [done|].
    fold qo. unfold node_at. rewrite (bool_decide_eq_false_2 _ Hqo).
    rewrite lookup_insert_ne by done. by rewrite lookup_delete_eq.
Qed.

End RenameMoves.

(** ** Failures of the file endpoints, and the empty session id *)

Section Rejections.
Local Arguments Ascii.eqb : simpl never.
Local Opaque resolve_fuel.

(** X10. A [delete_file] that fails has deleted nothing: whenever it
    raises, the file tree is as it was, and what it raises is an
    [HTTPException] of status 400 or 500. *)
Theorem delete_file_failure_changes_nothing (req : DeleteFileRequest)
    (os os' : os_state) (e : exc) :
  delete_file req os = (Raise e, os') ->
  os' = os /\
  exists status detail,
    e = HTTPException status detail /\ (status = 400 \/ status = 500)%Z.
Proof.
  unfold delete_file, except_400_500, try_except, bind, lift, os_abspath,
    isfile, raise, ret.
  destruct (safe_rel_path (df_rel_path req)) as [rel|e0] eqn:Hrel; cycle 1.
  { destruct (safe_rel_path_raises _ _ Hrel) as [msg ->]. cbn [is_exception].
    intros [= <- <-]. split; [done|]. eauto. }
  cbv beta iota zeta.
  rewrite (prefix_check_passes _ _ _ _ Hrel). cbn [negb].
  destruct (os_isfile os _); cbn [negb is_exception]; cycle 1.
  { intros [= <- <-]. split; [done|]. eauto. }
  unfold os_remove.
  destruct (lpath (os_tree os) _) as [q|]; cbv beta iota; cbn [is_exception];
    [|intros [= <- <-]; (split; [done|eauto])].
  destruct (node_at (os_tree os) q) as [[c| |]|]; cbv beta iota;
    cbn [is_exception]; try done;
    intros [= <- <-]; (split; [done|eauto]).
Qed.

(** X11. [rename_file] rejects a bad path before it touches anything:
    when [safe_rel_path] refuses the old path or the new one, the call
    raises status 400 and the file tree is as it was, whether or not the
    other path names a file. *)
Theorem rename_file_rejects_invalid_paths (req : RenameFileRequest)
    (os : os_state) :
  is_ok (safe_rel_path (rn_old_path req)) = false \/
  is_ok (safe_rel_path (rn_new_path req)) = false ->
  exists detail,
    rename_file req os = (Raise (HTTPException 400 detail), os).
Proof.
  intros H.
  unfold rename_file, except_400_500, try_except, bind, lift.
  destruct (safe_rel_path (rn_old_path req)) as [old_rel|e] eqn:Hold.
  - destruct H as [H|H]; [done|].
    destruct (safe_rel_path (rn_new_path req)) as [new_rel|e] eqn:Hnew; [done|].
    destruct (safe_rel_path_raises _ _ Hnew) as [msg ->]. eauto.
  - destruct (safe_rel_path_raises _ _ Hold) as [msg ->]. eauto.
Qed.

Lemma startswith_parent_split x :
  startswith x "../" = true -> ".." ∈ split x posixpath.sep.
Proof.
  destruct x as [|a [|b [|c y]]]; cbn [startswith]; try done;
    try (by repeat case_match).
  destruct (Ascii.eqb_spec "." a) as [<-|]; [|done].
  destruct (Ascii.eqb_spec "." b) as [<-|]; [|done].
  destruct (Ascii.eqb_spec "/" c) as [<-|]; [|done].
  intros _. unfold split. cbn [split_go]. unfold posixpath.sep.
  change (Ascii.eqb "." "/") with false. change (Ascii.eqb "/" "/") with true.
  cbv iota. change (String.rev "..") with "..". apply list_elem_of_here.
Qed.

Lemma safe_rel_path_join_clean cs :
  cs <> [] -> Forall clean cs -> safe_rel_path (join "/" cs) = Ok (join "/" cs).
Proof.
  intros Hne Hcl. unfold safe_rel_path.
  rewrite normpath_join_clean by done.
  assert (Hsplit : split (join "/" cs) posixpath.sep = cs).
  { apply split_join; [done|by apply clean_slashless]. }
  assert (Hdd : ".." ∉ cs) by (by apply clean_no_dotdot).
  destruct (startswith (join "/" cs) "../") eqn:E1.
  { apply startswith_parent_split in E1. by rewrite Hsplit in E1. }
  destruct cs as [|c cs]; [done|].
  pose proof (Forall_inv Hcl) as (Hc & _ & _ & Hs).
  rewrite (join_head_slash c cs Hc Hs). cbn [orb].
  rewrite Hsplit. by rewrite bool_decide_eq_false_2.
Qed.

(** X12. The empty session id names the root of all sessions, so every
    session can be read through it: for a session name [s] and a path [r]
    in normal form, [read_file] with the id "" and the path [s/r] opens the
    same file as [read_file] with the id [s] and the path [r], and returns
    the same content or fails the same way. *)
Theorem empty_id_reads_every_session (s r : string) (os : os_state) :
  contains "/" s = false -> contains ".." s = false ->
  s <> "" -> s <> "." ->
  safe_rel_path r = Ok r -> r <> "." ->
  posixpath.join2 (safe_dirname "") (s +:+ "/" +:+ r)
    = posixpath.join2 (safe_dirname s) r /\
  read_file "" (s +:+ "/" +:+ r) os
  = (match fst (read_file s r os) with
     | Ok reply => Ok {| rd_content := rd_content reply; rd_id := "";
                         rd_rel_path := s +:+ "/" +:+ r |}
     | Raise e => Raise e
     end, os).
Proof.
  intros Hs1 Hs2 Hs3 Hs4 Hr Hdot.
  destruct (safe_rel_path_shape _ _ Hr) as [->|(cs & Hne & Hcl & Hjoin)]; [done|].
  assert (Hsr : safe_rel_path (s +:+ "/" +:+ r) = Ok (s +:+ "/" +:+ r)).
  { rewrite Hjoin. destruct cs as [|c cs]; [done|].
    change (s +:+ "/" +:+ join "/" (c :: cs)) with (join "/" (s :: c :: cs)).
    apply safe_rel_path_join_clean; [done|]. constructor; [|done].
    repeat split; try done. intros ->. done. }
  assert (Hpath : posixpath.join2 (safe_dirname "") (s +:+ "/" +:+ r)
                  = posixpath.join2 (safe_dirname s) r).
  { destruct (safe_rel_path_facts _ _ Hr) as [Habs _].
    destruct (safe_rel_path_facts _ _ Hsr) as [Habs' _].
    rewrite (safe_dirname_clean_id s Hs1 Hs2).
    change (safe_dirname "") with (root_child "").
    rewrite !join2_session by done.
    rewrite bool_decide_eq_true_2 by done.
    by rewrite bool_decide_eq_false_2 by done. }
  split; [exact Hpath|].
  rewrite (read_file_run _ _ _ _ Hsr), (read_file_run _ _ _ _ Hr), Hpath.
  cbn [fst].
  destruct (realpath (os_tree os) _) as [q|]; [|done].
  by destruct (node_at (os_tree os) q) as [[c| |]|].
Qed.

End Rejections.

(** ** The statements above, on sample trees *)

Lemma plain_os_symlink_free : symlink_free (os_tree plain_os).
Proof.
  intros q target H. unfold plain_os in H. cbn [os_tree] in H.
  apply elem_of_list_to_map_2 in H.
  repeat (apply elem_of_cons in H as [H|H]; [discriminate H|]).
  by apply elem_of_nil in H.
Qed.

Lemma write_then_read_witness :
  let req := {| wf_id := "s"; wf_rel_path := "notes/./n.txt";
                wf_content := "hello" |} in
  read_file "s" "notes/./n.txt" (snd (write_file req linked_os))
  = (Ok {| rd_content := "hello"; rd_id := "s"; rd_rel_path := "notes/n.txt" |},
     snd (write_file req linked_os)).
Proof.
  intros req.
  refine (write_then_read req linked_os (snd (write_file req linked_os))
            {| pr_success := true; pr_id := "s"; pr_rel_path := "notes/./n.txt" |}
            _ _ _ _).
  - vm_compute. reflexivity.
  - discriminate.
  - vm_compute. discriminate.
  - vm_compute. reflexivity.
Defined.

Lemma write_file_creates_session_witness :
  let req := {| wf_id := "new"; wf_rel_path := "main.py";
                wf_content := "print(1)" |} in
  os_isdir plain_os (safe_dirname "new") = false /\
  os_isdir (snd (write_file req plain_os)) (safe_dirname "new") = true.
Proof.
  intros req. split; [vm_compute; reflexivity|].
  refine (proj1 (write_file_creates_session req plain_os
                   (snd (write_file req plain_os))
                   {| pr_success := true; pr_id := "new"; pr_rel_path := "main.py" |}
                   plain_os_symlink_free _ _)).
  - vm_compute. reflexivity.
  - vm_compute. discriminate.
Defined.

Lemma write_file_leaves_other_files_witness :
  let req := {| wf_id := "s"; wf_rel_path := "b.txt";
                wf_content := "mine" |} in
  fst (read_file "t" "b.txt" (snd (write_file req plain_os)))
  = fst (read_file "t" "b.txt" plain_os).
Proof.
  intros req.
  refine (write_file_leaves_other_files req plain_os
            (snd (write_file req plain_os))
            {| pr_success := true; pr_id := "s"; pr_rel_path := "b.txt" |}
            "t" "b.txt" plain_os_symlink_free _ _).
  - vm_compute. reflexivity.
  - vm_compute. discriminate.
Defined.

Lemma delete_then_read_witness :
  let req := {| df_id := "s"; df_rel_path := "a.txt" |} in
  fst (read_file "s" "a.txt" plain_os)
    = Ok {| rd_content := "kept"; rd_id := "s"; rd_rel_path := "a.txt" |} /\
  read_file "s" "a.txt" (snd (delete_file req plain_os))
    = (Raise (HTTPException 404 "File does not exist"),
       snd (delete_file req plain_os)).
Proof.
  intros req. split; [vm_compute; reflexivity|].
  refine (proj1 (delete_then_read req plain_os (snd (delete_file req plain_os))
                   {| pr_success := true; pr_id := "s"; pr_rel_path := "a.txt" |}
                   plain_os_symlink_free _)).
  vm_compute. reflexivity.
Defined.

Lemma rename_then_read_witness :
  let req := {| rn_id := "s"; rn_old_path := "a.txt";
                rn_new_path := "sub/b.txt" |} in
  exists content,
    fst (read_file "s" "a.txt" plain_os)
      = Ok {| rd_content := content; rd_id := "s"; rd_rel_path := "a.txt" |} /\
    fst (read_file "s" "sub/b.txt" (snd (rename_file req plain_os)))
      = Ok {| rd_content := content; rd_id := "s"; rd_rel_path := "sub/b.txt" |} /\
    fst (read_file "s" "a.txt" (snd (rename_file req plain_os)))
      = Raise (HTTPException 404 "File does not exist").
Proof.
  intros req.
  refine (rename_then_read req plain_os (snd (rename_file req plain_os))
            {| rr_success := true; rr_id := "s"; rr_old_path := "a.txt";
               rr_new_path := "sub/b.txt" |}
            plain_os_symlink_free _ _ _ _ _).
  - vm_compute. reflexivity.
  - vm_compute. discriminate.
  - vm_compute. discriminate.
  - vm_compute. discriminate.
  - apply Nat.ltb_lt. vm_compute. reflexivity.
Defined.

Lemma delete_file_failure_changes_nothing_witness :
  linked_os = linked_os /\
  exists status detail,
    HTTPException 500 "404: File does not exist" = HTTPException status detail /\
    (status = 400 \/ status = 500)%Z.
Proof.
  refine (delete_file_failure_changes_nothing
            {| df_id := "s"; df_rel_path := "missing.txt" |} linked_os linked_os
            (HTTPException 500 "404: File does not exist") _).
  vm_compute. reflexivity.
Defined.

Lemma rename_file_rejects_invalid_paths_witness :
  exists detail,
    rename_file {| rn_id := "s"; rn_old_path := "a.txt";
                   rn_new_path := "../t/a.txt" |} linked_os
    = (Raise (HTTPException 400 detail), linked_os).
Proof.
  refine (rename_file_rejects_invalid_paths
            {| rn_id := "s"; rn_old_path := "a.txt"; rn_new_path := "../t/a.txt" |}
            linked_os _).
  right. vm_compute. reflexivity.
Defined.

Lemma empty_id_reads_every_session_witness :
  read_file "" "s/a.txt" linked_os
  = (Ok {| rd_content := "kept"; rd_id := ""; rd_rel_path := "s/a.txt" |},
     linked_os).
Proof.
  refine (eq_trans
            (proj2 (empty_id_reads_every_session "s" "a.txt" linked_os _ _ _ _ _ _))
            _); try discriminate; vm_compute; reflexivity.
Defined.

(** ** The worker on malformed cases *)

Section WorkerEdges.
Context {R : PyRuntime}.

Ltac step_run := cbv beta iota; cbn [ps_world ps_trace fst snd is_ok].

(** X13. A case with no "input" key fails with the [KeyError] of the
    lookup, after the limits are set and the submitted code has run: the
    entry point is not even looked up, nothing is called, and the dict
    returned is the failure dict with the error text "KeyError: 'input'"
    followed by the traceback. *)
Theorem missing_input_fails_the_case (code entry_point : string)
    (case : gmap string string) (mem_limit_mb cpu_seconds : Z)
    (w0 w1 w2 w3 : world) :
  case !! "input" = None ->
  py_setrlimit RLIMIT_AS (mem_limit_mb * 1024 * 1024)
    (mem_limit_mb * 1024 * 1024) w0 = (Ok tt, w1) ->
  py_setrlimit RLIMIT_CPU cpu_seconds (cpu_seconds + 1) w1 = (Ok tt, w2) ->
  py_exec code w2 = (Ok tt, w3) ->
  _run_single_case code entry_point case mem_limit_mb cpu_seconds
    {| ps_world := w0; ps_trace := [] |}
  = (Ok {| wr_passed := false; wr_got := PyNone;
           wr_expected := of_get (case !! "output");
           wr_error := Some ("KeyError: 'input'" +:+ newline
                             +:+ py_format_exc (KeyError "input")) |},
     {| ps_world := w3;
        ps_trace := [limit_as mem_limit_mb true; limit_cpu cpu_seconds true;
                     {| ev_call := Exec code; ev_ok := true |}] |}).
Proof.
  intros Hin H1 H2 H3.
  unfold _run_single_case, run_case_body, self_limit, invoke, try_except, bind,
    setrlimit, exec, logged, getitem, raise.
  cbn [ps_world ps_trace]. rewrite H1. cbn [ps_world ps_trace is_ok].
  rewrite H2. cbn [ps_world ps_trace is_ok]. rewrite H3.
  cbn [ps_world ps_trace is_ok]. rewrite Hin. reflexivity.
Qed.

(** [invoke] when the keyword pairs leave a declared parameter out. *)
Lemma invoke_unbound entry_point case input func spec_args e s w4 w5 :
  case !! "input" = Some input ->
  py_eval entry_point (ps_world s) = (Ok func, w4) ->
  py_getfullargspec func w4 = (Ok spec_args, w5) ->
  bound_args input spec_args = Raise e ->
  exists pre,
    calls_made pre = [] /\
    invoke entry_point case s
    = (Raise e, {| ps_world := w5; ps_trace := ps_trace s ++ pre |}).
Proof.
  intros Hin Hev Hspec Hargs.
  unfold invoke, getitem, _parse_kw. rewrite Hin.
  unfold bind at 1, ret at 1. unfold bind at 1. rewrite parse_kw_loop_run.
  rewrite is_empty_keyword_pairs.
  unfold bound_args in Hargs.
  destruct (keyword_pairs input) as [|p ps] eqn:Hpairs.
  { by destruct (py_literal_eval (strip input)). }
  rewrite bool_decide_eq_false_2 by done.
  unfold bind, ret, eval, getfullargspec, apply_func, logged.
  step_run. rewrite Hev. step_run. rewrite Hspec. step_run.
  rewrite (lookup_all_run _ (p :: ps)); cycle 1.
  { intros name. rewrite kw_map_lookup, lookup_empty.
    unfold keyword_pairs in Hpairs. rewrite Hpairs.
    by destruct (last_value (p :: ps) name). }
  rewrite Hargs. step_run.
  exists (map kw_event (finditer input)
          ++ [{| ev_call := Eval entry_point; ev_ok := true |};
              {| ev_call := GetFullArgSpec func; ev_ok := true |}]).
  split.
  { rewrite !calls_made_app, calls_made_kw. reflexivity. }
  by rewrite <- !app_assoc.
Qed.

Lemma values_by_name_raises pairs names e :
  values_by_name pairs names = Raise e ->
  exists a, e = KeyError a /\ a ∈ names /\ last_value pairs a = None.
Proof.
  induction names as [|a rest IH]; [done|]. cbn [values_by_name].
  destruct (last_value pairs a) eqn:Ha.
  - destruct (values_by_name pairs rest); [done|]. intros [= <-].
    destruct (IH eq_refl) as (b & ? & ? & ?). exists b.
    split; [done|]. split; [by apply list_elem_of_further|done].
  - intros [= <-]. exists a. split; [done|]. split; [apply list_elem_of_here|done].
Qed.

(** X15. Keyword input that leaves a declared parameter out: when the
    input has keyword pairs but none for a parameter the entry point
    declares, the function is not called, and the case fails with the
    [KeyError] of the first such parameter. *)
Theorem unbound_parameter_fails_the_case (code entry_point : string)
    (case : gmap string string) (mem_limit_mb cpu_seconds : Z)
    (w0 w5 : world) (input : string) (func : value) (spec_args : list string)
    (e : exc) :
  reaches_call code entry_point mem_limit_mb cpu_seconds w0 func spec_args w5 ->
  case !! "input" = Some input ->
  values_by_name (keyword_pairs input) (drop_self spec_args) = Raise e ->
  keyword_pairs input <> [] ->
  let out := _run_single_case code entry_point case mem_limit_mb cpu_seconds
               {| ps_world := w0; ps_trace := [] |} in
  (exists a, e = KeyError a /\ a ∈ drop_self spec_args /\
             last_value (keyword_pairs input) a = None) /\
  fst out = Ok (failed_case case e) /\
  calls_made (ps_trace (snd out)) = [].
Proof.
  intros (w1 & w2 & w3 & w4 & H1 & H2 & H3 & H4 & H5) Hin Hvals Hne out.
  destruct (values_by_name_raises _ _ _ Hvals) as (a & -> & Ha & Hnone).
  split; [by exists a|].
  assert (Hargs : bound_args input spec_args = Raise (KeyError a)).
  { unfold bound_args. by destruct (keyword_pairs input). }
  assert (Hrun : exists pre,
            calls_made pre = [] /\
            _run_single_case code entry_point case mem_limit_mb cpu_seconds
              {| ps_world := w0; ps_trace := [] |}
            = (Ok (failed_case case (KeyError a)),
               {| ps_world := w5; ps_trace := pre |})).
  { unfold _run_single_case, run_case_body, self_limit.
    unfold try_except at 1, bind at 1, bind at 1, setrlimit, logged.
    cbn [ps_world ps_trace]. rewrite H1. cbn [ps_world ps_trace is_ok].
    rewrite H2. cbn [ps_world ps_trace is_ok].
    unfold bind at 1, exec, logged. cbn [ps_world ps_trace]. rewrite H3.
    cbn [is_ok]. unfold bind at 1.
    edestruct (invoke_unbound entry_point case input func spec_args)
      as (pre & Hpre & ->); [exact Hin|exact H4|exact H5|exact Hargs|].
    cbn [is_exception ps_trace].
    eexists. split; [|reflexivity].
    by rewrite !calls_made_app, Hpre. }
  destruct Hrun as (pre & Hpre & Hrun). subst out. by rewrite Hrun.
Qed.

(** X14. A case with no "output" key fails only after the call: the
    entry point is called on the bound arguments, with whatever effect
    the call has, and the lookup of the expected output then raises
    [KeyError], in the [try] and again in its handler; the dict returned
    is the failure dict, with [None] for "expected". *)
Theorem missing_output_fails_after_the_call (code entry_point : string)
    (case : gmap string string) (mem_limit_mb cpu_seconds : Z)
    (w0 w5 w6 : world) (input : string) (func : value)
    (spec_args : list string) (args : list value) (got : value) :
  reaches_call code entry_point mem_limit_mb cpu_seconds w0 func spec_args w5 ->
  case !! "input" = Some input ->
  bound_args input spec_args = Ok args ->
  py_call func args w5 = (Ok got, w6) ->
  case !! "output" = None ->
  let out := _run_single_case code entry_point case mem_limit_mb cpu_seconds
               {| ps_world := w0; ps_trace := [] |} in
  fst out = Ok {| wr_passed := false; wr_got := PyNone; wr_expected := PyNone;
                  wr_error := Some ("KeyError: 'output'" +:+ newline
                                    +:+ py_format_exc (KeyError "output")) |} /\
  calls_made (ps_trace (snd out)) = [(func, args)] /\
  ps_world (snd out) = w6.
Proof.
  intros Hreach Hin Hargs Hcall Hout out. subst out.
  destruct (worker_run_to_call _ _ _ _ _ _ _ _ _ _ _ Hreach Hin Hargs)
    as (pre & Hpre & ->).
  rewrite Hcall.
  unfold verdict, try_except, bind, getitem, raise, ret, failed_case.
  rewrite Hout. cbn [is_exception fst snd ps_trace ps_world of_get].
  split; [done|]. split; [|done].
  by rewrite calls_made_app, Hpre.
Qed.

End WorkerEdges.

(** ** Input without keywords *)

Section NoEquals.
Local Arguments Ascii.eqb : simpl never.

Lemma contains_eq_cons c s :
  contains "=" (String c s) = Ascii.eqb "=" c || contains "=" s.
Proof.
  change (contains "=" (String c s))
    with (startswith (String c s) "=" || contains "=" s).
  cbn [startswith]. by destruct (Ascii.eqb "=" c).
Qed.

Lemma star_greedy_none {A} cls s : forall acc (k : string -> string -> option A),
  (forall acc' r, contains "=" r = false -> k acc' r = None) ->
  contains "=" s = false ->
  star_greedy cls acc s k = None.
Proof.
  induction s as [|c r IH]; intros acc k Hk Hs; cbn [star_greedy]; [by apply Hk|].
  pose proof Hs as Hs'. rewrite contains_eq_cons in Hs'.
  apply orb_false_iff in Hs' as [_ Hr].
  destruct (cls c); [|by apply Hk]. rewrite IH by done. by apply Hk.
Qed.

Lemma lit_eq_none {A} s (k : string -> option A) :
  contains "=" s = false -> lit "="%char s k = None.
Proof.
  destruct s as [|c r]; [done|]. rewrite contains_eq_cons. intros H.
  apply orb_false_iff in H as [Hc _]. cbn [lit].
  by rewrite Ascii.eqb_sym, Hc.
Qed.

Lemma match_here_none s : contains "=" s = false -> match_here s = None.
Proof.
  intros Hs. unfold match_here, plus_greedy.
  destruct s as [|c r]; [done|].
  pose proof Hs as Hs'. rewrite contains_eq_cons in Hs'.
  apply orb_false_iff in Hs' as [_ Hr].
  destruct (is_word c); [|done].
  apply star_greedy_none; [|done]. intros g1 r1 Hr1.
  apply star_greedy_none; [|done]. intros g2 r2 Hr2.
  by apply lit_eq_none.
Qed.

Lemma finditer_go_none s : forall skip,
  contains "=" s = false -> finditer_go skip s = [].
Proof.
  induction s as [|c r IH]; intros skip Hs; [done|].
  pose proof Hs as Hs'. rewrite contains_eq_cons in Hs'.
  apply orb_false_iff in Hs' as [_ Hr].
  cbn [finditer_go]. destruct skip; [|by apply IH].
  rewrite (match_here_none _ Hs). by apply IH.
Qed.

Context {R : PyRuntime}.

(** X16. Input with no "=" in it is never read as keywords: the pattern
    of [_parse_kw] matches nowhere, [_parse_kw] returns the empty dict
    without parsing anything, and the arguments are the whole input parsed
    as one literal, or none when it does not parse. *)
Theorem input_without_equals_is_positional (input : string) (s : pstate) :
  contains "=" input = false ->
  _parse_kw input s = (Ok ∅, s) /\
  forall spec_args,
    bound_args input spec_args
    = Ok (match py_literal_eval (strip input) with
          | Ok x => [x]
          | Raise _ => []
          end).
Proof.
  intros H. pose proof (finditer_go_none input 0 H) as Hnone.
  fold (finditer input) in Hnone. split.
  - unfold _parse_kw. rewrite parse_kw_loop_run, Hnone. cbn [fold_left map].
    rewrite app_nil_r. by destruct s.
  - intros spec_args. unfold bound_args, keyword_pairs. rewrite Hnone.
    cbn [omap]. by destruct (py_literal_eval (strip input)).
Qed.

End NoEquals.

(** ** A case that does not answer in time *)

Section TimedOut.
Context {R : PyRuntime}.
Variables (code entry_point : string) (mem_limit_mb cpu_seconds : Z).

Lemma forallb_lookup_false {A} (f : A -> bool) l i x :
  l !! i = Some x -> f x = false -> forallb f l = false.
Proof.
  revert i. induction l as [|y l IH]; intros i; [done|].
  destruct i as [|i]; simpl.
  - intros [= ->] ->. done.
  - intros Hi Hx. rewrite (IH _ Hi Hx). apply andb_false_r.
Qed.

(** X17. One case that does not answer in time fails the batch and
    nothing else: when the future of the case at position [i] is still
    pending at the end of its wait and the batch returns, the list holds
    at position [i] exactly the "Timeout" dict, stamped with [i] and the
    case's input, and [all_passed] is false. *)
Theorem timed_out_case_fails_the_batch (io_cases : list (gmap string string))
    (log : completion_log) (i : nat) (case : gmap string string)
    (all_passed : bool) (case_results : list case_result) :
  io_cases !! i = Some case ->
  find_completion log i = None ->
  evaluate_cases code entry_point mem_limit_mb cpu_seconds io_cases log
    = Ok (all_passed, case_results) ->
  case_results !! i
    = Some {| passed := false; got := PyNone;
              expected := of_get (case !! "output");
              error := Some "Timeout";
              case_index := i; input_text := case !! "input" |} /\
  all_passed = false.
Proof.
  intros Hi Hlog. rewrite evaluate_cases_unfold.
  destruct (results_from _ _ _ _ log 0 io_cases) as [rs|e] eqn:Hrs; [|done].
  intros [= <- <-].
  destruct (results_from_lookup _ _ _ _ _ _ _ _ _ _ Hrs Hi) as (r & Hr & Hown).
  cbn [Nat.add] in Hown. rewrite result_at_timeout in Hown by done.
  injection Hown as <-. split; [done|].
  by eapply forallb_lookup_false.
Qed.

End TimedOut.

(** ** What [_parse_kw] returns *)

Section ParseKw.
Context {R : PyRuntime}.

(** X25. [_parse_kw] returns the dict of the keyword pairs and does
    nothing else: every name is bound to the value of its last pair (a
    repeated name keeps the later value, a pair whose value is no literal
    is skipped), a name with no pair is absent, and the state of the
    interpreter is untouched, the values being read by [literal_eval]
    only. *)
Theorem parse_kw_keeps_last_values (input : string) (s : pstate) :
  exists params,
    fst (_parse_kw input s) = Ok params /\
    (forall name, params !! name = last_value (keyword_pairs input) name) /\
    ps_world (snd (_parse_kw input s)) = ps_world s /\
    calls_made (ps_trace (snd (_parse_kw input s))) = calls_made (ps_trace s).
Proof.
  unfold _parse_kw. rewrite parse_kw_loop_run. cbn [fst snd ps_world ps_trace].
  exists (fold_left kw_step (finditer input) ∅). split; [done|]. split; [|split].
  - intros name. rewrite kw_map_lookup, lookup_empty. unfold keyword_pairs.
    by destruct (last_value (omap pair_of (finditer input)) name).
  - done.
  - by rewrite calls_made_app, calls_made_kw, app_nil_r.
Qed.

End ParseKw.

(** ** [fork_session] *)

Section ForkFacts.
Variable uuid4 : string.
Variable copytree : string -> string -> SE os_state unit.

(** X18. [fork_session] copies an existing session to the directory of a
    fresh id and nowhere else.  For a session with no directory it raises
    404 and copies nothing; the guard stands before the [try], so the 404
    reaches the caller.  Otherwise [copytree] is called once, from the
    directory of the old session to the root joined with the new id as it
    is (an id such as [uuid4] prints, with no "/" and no "..", is not
    altered), and the reply carries the new id; an [Exception] of the copy
    becomes status 500 with its text after "Failed to fork session: ". *)
Theorem fork_session_answers (req : ForkSessionRequest) (os : os_state) :
  (os_isdir os (safe_dirname (fk_id req)) = false ->
   fork_session uuid4 copytree req os
   = (Raise (HTTPException 404 "Session to fork not found"), os)) /\
  (os_isdir os (safe_dirname (fk_id req)) = true ->
   contains "/" uuid4 = false -> contains ".." uuid4 = false ->
   fork_session uuid4 copytree req os
   = match copytree (safe_dirname (fk_id req)) (TMP_ROOT +:+ "/" +:+ uuid4) os with
     | (Ok _, os') => (Ok {| new_id := uuid4 |}, os')
     | (Raise e, os') =>
         (Raise (if is_exception e
                 then HTTPException 500 ("Failed to fork session: " +:+ exc_str e)
                 else e), os')
     end).
Proof.
  unfold fork_session, bind, isdir, try_except, raise, ret. split.
  - by intros ->.
  - intros -> Hs Hd. cbn [negb].
    rewrite (safe_dirname_clean_id uuid4 Hs Hd), root_child_eq.
    destruct (copytree _ _ os) as [[[]|e] os']; [done|].
    by destruct (is_exception e).
Qed.

End ForkFacts.

(** ** The client *)

Section ClientFacts.
Import ReplClient.
Context {T : Transport}.

Lemma attempt_returned {A} request (after : response -> outcome A) handler
    n resp n' :
  request n = (Returned resp, n') ->
  attempt request after handler n
  = (match after resp with
     | Returned a => Returned a
     | Raised e => if is_exception e then Raised (handler e) else Raised e
     end, n').
Proof. intros H. unfold attempt. by rewrite H. Qed.

Lemma attempt_raised {A} request (after : response -> outcome A) handler
    n e n' :
  request n = (Raised e, n') ->
  attempt request after handler n
  = (if is_exception e then Raised (handler e) else Raised e, n').
Proof. intros H. unfold attempt. by rewrite H. Qed.

Lemma answer_failed {A} failed detail (model : json -> outcome A) resp :
  ReplClient.status_code resp <> 200%Z ->
  answer failed detail model resp
  = Raised (ReplServerError failed (Some (ReplClient.status_code resp)) (detail resp)).
Proof.
  intros H. unfold answer.
  destruct (Z.eqb_spec (ReplClient.status_code resp) 200); [done|done].
Qed.

(** X20. [run] hands the status of a failed call over: when the server
    answers with a status other than 200, [run] raises [ReplServerError]
    "Failed to execute command" carrying that status and, as details, the
    "stderr" of the body if it has a true one, else its "detail", else the
    text of the body; when the request ends in [httpcore.ReadTimeout] the
    error carries status 408. *)
Theorem run_keeps_the_status (self : client) (id cmd : string) (n n' : net) :
  let request := post (base_url self +:+ "/run")
                   (JObject [("id", JString id); ("cmd", JString cmd)]) in
  (forall resp,
     request n = (Returned resp, n') ->
     ReplClient.status_code resp <> 200%Z ->
     run self id cmd n
     = (Raised (ReplServerError "Failed to execute command"
                  (Some (ReplClient.status_code resp)) (stderr_of resp)), n')) /\
  (forall msg,
     request n = (Raised (ReadTimeout msg), n') ->
     run self id cmd n
     = (Raised (ReplServerError
                  "Clientside timeout while waiting for REPL server response"
                  (Some 408%Z) (JString msg)), n')).
Proof.
  intros request. split.
  - intros resp Hreq Hs. unfold run. fold request.
    rewrite (attempt_returned _ _ _ _ _ _ Hreq), answer_failed by done. done.
  - intros msg Hreq. unfold run. fold request.
    by rewrite (attempt_raised _ _ _ _ _ _ Hreq).
Qed.

(** X21. The other methods lose the status of a failed call: in
    [fork_session], [read_file], [delete_file], [rename_file],
    [write_file] and [evaluate_code], the [ReplServerError] raised for a
    status other than 200 is caught by the method's own
    [except Exception] clause and raised again as "Error during ...
    request" with no status; the status of the server survives only inside
    the text of the details. *)
Theorem status_is_lost (self : client) (resp : response) (n n' : net) :
  ReplClient.status_code resp <> 200%Z ->
  (forall id,
     post (base_url self +:+ "/fork_session") (JObject [("id", JString id)]) n
       = (Returned resp, n') ->
     ReplClient.fork_session self id n
     = (Raised (lost_status "/fork_session" "Failed to fork session" resp), n')) /\
  (forall id rel_path,
     get (base_url self +:+ "/read_file") [("id", id); ("rel_path", rel_path)] n
       = (Returned resp, n') ->
     ReplClient.read_file self id rel_path n
     = (Raised (lost_status "/read_file" "Failed to read file" resp), n')) /\
  (forall id rel_path,
     post (base_url self +:+ "/delete_file")
       (JObject [("id", JString id); ("rel_path", JString rel_path)]) n
       = (Returned resp, n') ->
     ReplClient.delete_file self id rel_path n
     = (Raised (lost_status "/delete_file" "Failed to delete file" resp), n')) /\
  (forall id old_path new_path,
     post (base_url self +:+ "/rename_file")
       (JObject [("id", JString id); ("old_path", JString old_path);
                 ("new_path", JString new_path)]) n
       = (Returned resp, n') ->
     ReplClient.rename_file self id old_path new_path n
     = (Raised (lost_status "/rename_file" "Failed to rename file" resp), n')) /\
  (forall id rel_path content,
     post (base_url self +:+ "/write_file")
       (JObject [("id", JString id); ("rel_path", JString rel_path);
                 ("content", JString content)]) n
       = (Returned resp, n') ->
     exists details,
       ReplClient.write_file self id rel_path content n
       = (Raised (ReplServerError "Error during /write_file request" None details),
          n')) /\
  (forall id code entry_point io_cases,
     post (base_url self +:+ "/evaluate_code")
       (JObject [("id", JString id); ("code", JString code);
                 ("entry_point", JString entry_point);
                 ("io_cases", JArray io_cases)]) n
       = (Returned resp, n') ->
     exists details,
       ReplClient.evaluate_code self id code entry_point io_cases n
       = (Raised (ReplServerError "Error during /evaluate_code request" None
                    details), n')).
Proof.
  intros Hs. repeat split.
  - intros id Hreq. unfold ReplClient.fork_session.
    rewrite (attempt_returned _ _ _ _ _ _ Hreq), answer_failed by done. done.
  - intros id rel_path Hreq. unfold ReplClient.read_file.
    rewrite (attempt_returned _ _ _ _ _ _ Hreq), answer_failed by done. done.
  - intros id rel_path Hreq. unfold ReplClient.delete_file.
    rewrite (attempt_returned _ _ _ _ _ _ Hreq), answer_failed by done. done.
  - intros id old_path new_path Hreq. unfold ReplClient.rename_file.
    rewrite (attempt_returned _ _ _ _ _ _ Hreq), answer_failed by done. done.
  - intros id rel_path content Hreq. unfold ReplClient.write_file.
    rewrite (attempt_returned _ _ _ _ _ _ Hreq), answer_failed by done.
    cbn [is_exception]. eauto.
  - intros id code entry_point io_cases Hreq. unfold ReplClient.evaluate_code.
    rewrite (attempt_returned _ _ _ _ _ _ Hreq), answer_failed by done.
    cbn [is_exception]. eauto.
Qed.

Lemma attempt_wrapped {A} request (after : response -> outcome A) handler
    n e n' :
  (forall e0, exists message status details,
                handler e0 = ReplServerError message status details) ->
  attempt request after handler n = (Raised e, n') -> wrapped e.
Proof.
  intros Hh. unfold attempt. destruct (request n) as [r n0].
  destruct (match r with Returned resp => after resp | Raised e0 => Raised e0 end)
    as [a|e0]; [done|].
  destruct (is_exception e0) eqn:He; intros [= <- _]; [left; apply Hh|by right].
Qed.

Lemma two_clauses_wrapped endpoint e :
  exists message status details,
    two_clauses endpoint e = ReplServerError message status details.
Proof. destruct e; simpl; eauto. Qed.

(** X22. Whatever the server and the network do, a method of the client
    raises nothing but [ReplServerError]: every [Exception] of the request,
    of the decoding and of the validation is caught and wrapped; only what
    is no [Exception] passes. *)
Theorem methods_raise_ReplServerError (self : client) (n n' : net) (e : error) :
  (forall id, ReplClient.fork_session self id n = (Raised e, n') -> wrapped e) /\
  (ping self n = (Raised e, n') -> wrapped e) /\
  (forall id cmd, run self id cmd n = (Raised e, n') -> wrapped e) /\
  (forall id rel_path content,
     ReplClient.write_file self id rel_path content n = (Raised e, n') ->
     wrapped e) /\
  (forall session_id, create_session self session_id n = (Raised e, n') ->
     wrapped e) /\
  (forall id rel_path,
     ReplClient.read_file self id rel_path n = (Raised e, n') -> wrapped e) /\
  (forall id rel_path,
     ReplClient.delete_file self id rel_path n = (Raised e, n') -> wrapped e) /\
  (forall id old_path new_path,
     ReplClient.rename_file self id old_path new_path n = (Raised e, n') ->
     wrapped e) /\
  (forall id code entry_point io_cases,
     ReplClient.evaluate_code self id code entry_point io_cases n = (Raised e, n') ->
     wrapped e).
Proof.
  assert (Hwf : forall id rel_path content,
            ReplClient.write_file self id rel_path content n = (Raised e, n') ->
            wrapped e).
  { intros id rel_path content. apply attempt_wrapped.
    intros e0. destruct e0; eauto. }
  repeat split.
  - intros id. apply attempt_wrapped, two_clauses_wrapped.
  - apply attempt_wrapped. eauto.
  - intros id cmd. apply attempt_wrapped. intros e0. destruct e0; eauto.
  - exact Hwf.
  - intros session_id. unfold create_session.
    destruct (ReplClient.write_file self session_id "placeholder.txt" "" n)
      as [[a|e0] n0] eqn:E; [done|].
    intros [= <- <-]. by eapply Hwf.
  - intros id rel_path. apply attempt_wrapped, two_clauses_wrapped.
  - intros id rel_path. apply attempt_wrapped, two_clauses_wrapped.
  - intros id old_path new_path. apply attempt_wrapped, two_clauses_wrapped.
  - intros id code entry_point io_cases. apply attempt_wrapped.
    intros e0. destruct e0; eauto.
Qed.

End ClientFacts.

Section ClientAndServer.
Context {T : ReplClient.Transport}.
Variable subprocess_run : string -> string -> SE os_state (string * string).
Variable format_exc : exc -> string.

(** X23. The server's [run_command] and the client's [run], end to end:
    when the response the client receives is the [JSONResponse] the
    endpoint returned, [run] returns the captured streams if the command
    ran (status 200), and raises [ReplServerError] with status 500 and the
    server's "Exception running command: ..." text as details if it did
    not. *)
Theorem run_end_to_end (self : ReplClient.client) (id cmd body : string)
    (os os' : os_state) (r : JSONResponse) (n n' : ReplClient.net) :
  run_command subprocess_run format_exc {| rc_id := id; rc_cmd := cmd |} os
    = (Ok r, os') ->
  ReplClient.post (ReplClient.base_url self +:+ "/run")
    (ReplClient.JObject [("id", ReplClient.JString id);
                         ("cmd", ReplClient.JString cmd)]) n
    = (ReplClient.Returned (http_of body r), n') ->
  ReplClient.run self id cmd n
  = (if (status_code r =? 200)%Z
     then ReplClient.Returned
            {| ReplClient.sr_stdout := stdout r;
               ReplClient.sr_stderr := stderr r;
               ReplClient.sr_id := id |}
     else ReplClient.Raised
            (ReplClient.ReplServerError "Failed to execute command"
               (Some 500%Z) (ReplClient.JString (stderr r))), n').
Proof.
  intros Hserver Hreq.
  unfold ReplClient.run. rewrite (attempt_returned _ _ _ _ _ _ Hreq).
  revert Hserver. unfold run_command, bind, isdir, try_except, raise, ret.
  cbn [rc_id rc_cmd].
  destruct (os_isdir os (safe_dirname id)); cbn [negb]; [|done].
  destruct (subprocess_run cmd (safe_dirname id) os) as [[[out err]|e] os1].
  - intros [= <- <-]. reflexivity.
  - destruct (is_exception e); [|done]. intros [= <- <-]. reflexivity.
Qed.

End ClientAndServer.

Section BaseUrl.
Import ReplClient.
Local Arguments Ascii.eqb : simpl never.

Lemma rstrip_sep_rev_head r : startswith (rstrip_sep_rev r) "/" = false.
Proof.
  induction r as [|c r IH]; [done|]. cbn [rstrip_sep_rev].
  destruct (Ascii.eqb c posixpath.sep) eqn:E; [done|].
  cbn [startswith]. unfold posixpath.sep in E. by rewrite Ascii.eqb_sym, E.
Qed.

Lemma rstrip_sep_rev_fixed r :
  startswith r "/" = false -> rstrip_sep_rev r = r.
Proof.
  destruct r as [|c r]; [done|]. cbn [startswith rstrip_sep_rev].
  unfold posixpath.sep. rewrite (Ascii.eqb_sym c "/").
  by destruct (Ascii.eqb "/" c).
Qed.

(** X24. Trailing slashes of the base URL do not count: the client
    made for [url] followed by a "/" is the client made for [url], the
    stored base URL never ends with a "/", so a request URL has exactly
    one "/" between it and the name of the endpoint, and storing it again
    changes nothing. *)
Theorem base_url_has_no_trailing_slash (url : string) :
  init (url +:+ "/") = init url /\
  startswith (String.rev (base_url (init url))) "/" = false /\
  init (base_url (init url)) = init url.
Proof.
  unfold init. cbn [base_url]. unfold rstrip_slash. split; [|split].
  - rewrite string_rev_app. change (String.rev "/") with "/".
    change ("/" +:+ String.rev url) with (String "/" (String.rev url)).
    cbn [rstrip_sep_rev]. unfold posixpath.sep.
    change (Ascii.eqb "/" "/") with true. done.
  - rewrite string_rev_involutive. apply rstrip_sep_rev_head.
  - rewrite string_rev_involutive.
    by rewrite (rstrip_sep_rev_fixed _ (rstrip_sep_rev_head _)).
Qed.

End BaseUrl.

(** ** The statements about the worker, the batch and the client, on
    samples *)

Lemma missing_input_fails_the_case_witness :
  _run_single_case (R := toy_runtime) add_source "add"
    (<["output" := "5"]> ∅) 2048 4 toy_start
  = (Ok (@Build_worker_result toy_runtime false (@PyNone toy_runtime)
           (@PyText toy_runtime "5")
           (Some ("KeyError: 'input'" +:+ newline
                  +:+ "Traceback (most recent call last): ..."))),
     @Build_pstate toy_runtime HasAdd
       [limit_as 2048 true; limit_cpu 4 true;
        @Build_event toy_runtime (@Exec toy_runtime add_source) true]).
Proof.
  exact (missing_input_fails_the_case (R := toy_runtime) add_source "add"
           (<["output" := "5"]> ∅) 2048 4 Fresh Fresh Fresh HasAdd
           eq_refl eq_refl eq_refl eq_refl).
Defined.

Lemma missing_output_fails_after_the_call_witness :
  calls_made (ps_trace (snd (_run_single_case (R := toy_runtime) add_source "add"
                               (<["input" := "a=2, b=3"]> ∅) 2048 4 toy_start)))
  = [(TAdd, [TInt 2; TInt 3])].
Proof.
  refine (proj1 (proj2 (missing_output_fails_after_the_call (R := toy_runtime)
            add_source "add" (<["input" := "a=2, b=3"]> ∅) 2048 4
            Fresh HasAdd HasAdd "a=2, b=3" TAdd ["a"; "b"] [TInt 2; TInt 3]
            (TInt 5) toy_reaches_call eq_refl _ eq_refl eq_refl))).
  vm_compute. reflexivity.
Defined.

Lemma unbound_parameter_fails_the_case_witness :
  fst (_run_single_case (R := toy_runtime) add_source "add"
         (io_case "a=2" "5") 2048 4 toy_start)
  = Ok (failed_case (R := toy_runtime) (io_case "a=2" "5") (KeyError "b")).
Proof.
  refine (proj1 (proj2 (unbound_parameter_fails_the_case (R := toy_runtime)
            add_source "add" (io_case "a=2" "5") 2048 4 Fresh HasAdd "a=2"
            TAdd ["a"; "b"] (KeyError "b") toy_reaches_call eq_refl _ _))).
  - vm_compute. reflexivity.
  - vm_compute. discriminate.
Defined.

Lemma input_without_equals_is_positional_witness :
  _parse_kw (R := toy_runtime) "7" toy_start = (Ok ∅, toy_start).
Proof.
  exact (proj1 (input_without_equals_is_positional (R := toy_runtime) "7"
                  toy_start eq_refl)).
Defined.

Lemma timed_out_case_fails_the_batch_witness :
  [@Build_case_result toy_runtime false (@PyNone toy_runtime)
     (@PyText toy_runtime "2") (Some "Timeout") 0 (Some "a=2")] !! 0
  = Some (@Build_case_result toy_runtime false (@PyNone toy_runtime)
            (of_get (R := toy_runtime) (io_case "a=2" "2" !! "output"))
            (Some "Timeout") 0 (io_case "a=2" "2" !! "input")) /\
  false = false.
Proof.
  exact (timed_out_case_fails_the_batch (R := toy_runtime) quit_source "quit"
           2048 4 [io_case "a=2" "2"] [] 0 (io_case "a=2" "2") false
           [@Build_case_result toy_runtime false (@PyNone toy_runtime)
              (@PyText toy_runtime "2") (Some "Timeout") 0 (Some "a=2")]
           eq_refl eq_refl eq_refl).
Defined.

Lemma fork_session_answers_witness :
  fork_session "3f2a-77" refused_copy {| fk_id := "s" |} linked_os
  = (Raise (HTTPException 500 "Failed to fork session: Permission denied"),
     linked_os).
Proof.
  refine (eq_trans
            (proj2 (fork_session_answers "3f2a-77" refused_copy
                      {| fk_id := "s" |} linked_os) _ _ _) _);
    vm_compute; reflexivity.
Defined.

Lemma run_keeps_the_status_witness :
  ReplClient.run (T := answering rejected) (ReplClient.init "http://host/") "s" "ls" tt
  = (ReplClient.Raised
       (ReplClient.ReplServerError "Failed to execute command" (Some 400%Z)
          (ReplClient.JString "Invalid path")), tt).
Proof.
  refine (proj1 (run_keeps_the_status (T := answering rejected)
                   (ReplClient.init "http://host/") "s" "ls" tt tt)
            rejected eq_refl _).
  discriminate.
Defined.

Lemma status_is_lost_witness :
  ReplClient.read_file (T := answering rejected) (ReplClient.init "http://host/")
    "s" "../x" tt
  = (ReplClient.Raised
       (ReplClient.ReplServerError "Error during /read_file request" None
          (ReplClient.JString
             "Failed to read file (status_code=400, details=Invalid path)")),
     tt).
Proof.
  refine (proj1 (proj2 (status_is_lost (T := answering rejected)
                          (ReplClient.init "http://host/") rejected tt tt _))
            "s" "../x" eq_refl).
  discriminate.
Defined.

Lemma methods_raise_ReplServerError_witness :
  wrapped (ReplClient.ReplServerError "Unable to ping REPL server" None
             (ReplClient.JString "error status")).
Proof.
  refine (proj1 (proj2 (methods_raise_ReplServerError (T := answering rejected)
                          (ReplClient.init "http://host/") tt tt _)) _).
  reflexivity.
Defined.

Lemma run_end_to_end_witness :
  let r := {| status_code := 500; stdout := "";
              stderr := "Exception running command: Command 'sleep 60' timed out after 30 seconds"
                        +:+ newline +:+ "Traceback (most recent call last): ...";
              resp_id := "s" |} in
  ReplClient.run (T := answering (http_of "{...}" r))
    (ReplClient.init "http://host") "s" "sleep 60" tt
  = (ReplClient.Raised
       (ReplClient.ReplServerError "Failed to execute command" (Some 500%Z)
          (ReplClient.JString (stderr r))), tt).
Proof.
  intros r.
  refine (run_end_to_end (T := answering (http_of "{...}" r)) slow_shell
            plain_traceback (ReplClient.init "http://host") "s" "sleep 60"
            "{...}" linked_os linked_os r tt tt _ eq_refl).
  vm_compute. reflexivity.
Defined.
